(** * wikidump_to_html: a shallow embedding of the wikitext converter

    The development follows [src/extraction/wikidump_to_html.py].  Python
    strings are modelled as [string]; every [ascii] stands for the Unicode
    code point of the same number, so the model covers texts over the
    code points 0..255.  Python sets and dicts are [gset] and [gmap];
    a raised exception is [None] in the option monad. *)

From Stdlib Require Import ZArith Ascii String List Lia.
From stdpp Require Import base option list strings gmap pretty.

Local Open Scope Z_scope.

(** ** Python string primitives *)

Module PyStr.

Definition code (c : ascii) : N := N_of_ascii c.

Definition in_range (lo hi : N) (c : ascii) : bool :=
  ((lo <=? code c) && (code c <=? hi))%N.

(** [str.isspace] on one code point, which is also what [\s] matches. *)
Definition isspace (c : ascii) : bool :=
  in_range 9 13 c || in_range 28 32 c
  || (code c =? 133)%N || (code c =? 160)%N.

(** [\d] and [str.isdecimal]: below 256 only the ASCII digits. *)
Definition isdigit (c : ascii) : bool := in_range 48 57 c.

Definition shift (d : N) (c : ascii) : ascii := ascii_of_N (code c + d).
Definition unshift (d : N) (c : ascii) : ascii := ascii_of_N (code c - d).

Definition lower_char (c : ascii) : ascii :=
  if in_range 65 90 c then shift 32 c
  else if in_range 192 222 c && negb (code c =? 215)%N then shift 32 c
  else c.

(** Upper case of one code point, for those whose upper case is again a
    single code point below 256 ([str.upper] maps U+00DF to two letters,
    and U+00B5 and U+00FF above 255; see [upper]). *)
Definition upper_char (c : ascii) : ascii :=
  if in_range 97 122 c then unshift 32 c
  else if in_range 224 254 c && negb (code c =? 247)%N then unshift 32 c
  else c.

Fixpoint lower (s : string) : string :=
  match s with
  | EmptyString => EmptyString
  | String c s' => String (lower_char c) (lower s')
  end.

(** [str.upper]; U+00DF becomes "SS".  U+00B5 and U+00FF, whose upper
    case leaves the modelled range, are kept as they are. *)
Fixpoint upper (s : string) : string :=
  match s with
  | EmptyString => EmptyString
  | String c s' =>
      if (code c =? 223)%N then String "S" (String "S" (upper s'))
      else String (upper_char c) (upper s')
  end.

Fixpoint rev_onto (s acc : string) : string :=
  match s with
  | EmptyString => acc
  | String c s' => rev_onto s' (String c acc)
  end.

Definition rev (s : string) : string := rev_onto s EmptyString.

Fixpoint drop_while (p : ascii -> bool) (s : string) : string :=
  match s with
  | EmptyString => EmptyString
  | String c s' => if p c then drop_while p s' else s
  end.

Definition lstrip_by (p : ascii -> bool) (s : string) : string := drop_while p s.
Definition rstrip_by (p : ascii -> bool) (s : string) : string :=
  rev (drop_while p (rev s)).
Definition strip_by (p : ascii -> bool) (s : string) : string :=
  rstrip_by p (lstrip_by p s).

(** [s.lstrip()], [s.rstrip()], [s.strip()]. *)
Definition lstrip : string -> string := lstrip_by isspace.
Definition rstrip : string -> string := rstrip_by isspace.
Definition strip : string -> string := strip_by isspace.

Fixpoint mem_char (c : ascii) (cs : string) : bool :=
  match cs with
  | EmptyString => false
  | String d cs' => if Ascii.eqb c d then true else mem_char c cs'
  end.

(** [s.strip(chars)] and [s.rstrip(chars)]. *)
Definition strip_chars (cs : string) : string -> string :=
  strip_by (fun c => mem_char c cs).
Definition rstrip_chars (cs : string) : string -> string :=
  rstrip_by (fun c => mem_char c cs).

(** [s.startswith(p)], with the remainder after the prefix. *)
Fixpoint strip_prefix (p s : string) : option string :=
  match p with
  | EmptyString => Some s
  | String c p' =>
      match s with
      | EmptyString => None
      | String d s' => if Ascii.eqb c d then strip_prefix p' s' else None
      end
  end.

Definition startswith (s p : string) : bool :=
  match strip_prefix p s with Some _ => true | None => false end.

(** [p in s]. *)
Fixpoint contains (p s : string) : bool :=
  startswith s p ||
  match s with
  | EmptyString => false
  | String _ s' => contains p s'
  end.

(** [s[:n]] and [s[n:]]. *)
Fixpoint take (n : nat) (s : string) : string :=
  match n, s with
  | S n', String c s' => String c (take n' s')
  | _, _ => EmptyString
  end.

Fixpoint drop (n : nat) (s : string) : string :=
  match n, s with
  | S n', String _ s' => drop n' s'
  | _, _ => s
  end.

(** [s.split(c)] for a one-character separator: the pieces between the
    occurrences of [c], the piece under construction kept reversed. *)
Fixpoint split_char_go (c : ascii) (s cur : string) : list string :=
  match s with
  | EmptyString => [rev cur]
  | String d s' =>
      if Ascii.eqb d c then rev cur :: split_char_go c s' EmptyString
      else split_char_go c s' (String d cur)
  end.

Definition split_char (c : ascii) (s : string) : list string :=
  split_char_go c s EmptyString.

(** [s.split(sep)] for a non-empty separator string.  The recursion is
    on [fuel]; [String.length s] always suffices since every round
    consumes a character. *)
Fixpoint split_str_go (fuel : nat) (sep s cur : string) : list string :=
  match fuel with
  | O => [rev_onto cur s]
  | S fuel' =>
      match s with
      | EmptyString => [rev cur]
      | String d s' =>
          match strip_prefix sep s with
          | Some s'' => rev cur :: split_str_go fuel' sep s'' EmptyString
          | None => split_str_go fuel' sep s' (String d cur)
          end
      end
  end.

Definition split_str (sep s : string) : list string :=
  split_str_go (S (String.length s)) sep s EmptyString.

(** [s.split(c, 1)]: cut at the first occurrence of [c], if any. *)
Fixpoint split_once_go (c : ascii) (s cur : string) : option (string * string) :=
  match s with
  | EmptyString => None
  | String d s' =>
      if Ascii.eqb d c then Some (rev cur, s')
      else split_once_go c s' (String d cur)
  end.

Definition split_once (c : ascii) (s : string) : option (string * string) :=
  split_once_go c s EmptyString.

(** [s.replace(a, b)] for single characters [a], and [s.replace(a, "")]. *)
Fixpoint replace_char (a b : ascii) (s : string) : string :=
  match s with
  | EmptyString => EmptyString
  | String c s' => String (if Ascii.eqb c a then b else c) (replace_char a b s')
  end.

Fixpoint remove_char (a : ascii) (s : string) : string :=
  match s with
  | EmptyString => EmptyString
  | String c s' => if Ascii.eqb c a then remove_char a s' else String c (remove_char a s')
  end.

(** [s.replace(old, new)] for a non-empty [old]: the occurrences of
    [old] from the left, not overlapping.  [String.length s] rounds of
    fuel suffice. *)
Fixpoint replace_str_go (fuel : nat) (old new s : string) : string :=
  match fuel with
  | O => s
  | S fuel' =>
      match s with
      | EmptyString => EmptyString
      | String d s' =>
          match strip_prefix old s with
          | Some s'' => new +:+ replace_str_go fuel' old new s''
          | None => String d (replace_str_go fuel' old new s')
          end
      end
  end.

Definition replace_str (old new s : string) : string :=
  replace_str_go (S (String.length s)) old new s.

(** [sep.join(parts)]. *)
Fixpoint join (sep : string) (parts : list string) : string :=
  match parts with
  | [] => EmptyString
  | [p] => p
  | p :: ps => p +:+ sep +:+ join sep ps
  end.

Definition concat (parts : list string) : string := join EmptyString parts.

(** [s[-1]] of a string. *)
Fixpoint last_char (s : string) : option ascii :=
  match s with
  | EmptyString => None
  | String c EmptyString => Some c
  | String _ s' => last_char s'
  end.

End PyStr.

(** ** Regular expressions

    The patterns of the source are translated to the syntax below and run
    by a backtracking matcher that tries the alternatives in the order of
    Python's [re] module: the left branch of [|] first, the longest run
    first for a greedy repetition and the shortest first for a lazy one.
    Every repetition in the source repeats a single-character item, which
    is what [RStar] offers. *)

Module Re.

Inductive citem :=
| IChar (c : ascii)
| IRange (lo hi : ascii)
| ISpace
| IDigit.

Inductive atom :=
| AChar (c : ascii)
| ASet (neg : bool) (items : list citem)
| ADot.

Inductive regex :=
| REps
| RAtom (a : atom)
| RSeq (r1 r2 : regex)
| RAlt (r1 r2 : regex)
| RStar (greedy : bool) (a : atom)
| RGroup (n : nat) (r : regex)
| RBackref (n : nat)
| RBol
| REol.

(** A literal string, [x+], [x+?], [x?]. *)
Fixpoint lit (s : string) : regex :=
  match s with
  | EmptyString => REps
  | String c EmptyString => RAtom (AChar c)
  | String c s' => RSeq (RAtom (AChar c)) (lit s')
  end.

Definition plus (greedy : bool) (a : atom) : regex :=
  RSeq (RAtom a) (RStar greedy a).

Definition opt (r : regex) : regex := RAlt r REps.

Fixpoint rseq (rs : list regex) : regex :=
  match rs with
  | [] => REps
  | [r] => r
  | r :: rs' => RSeq r (rseq rs')
  end.

Definition item_matches (i : citem) (c : ascii) : bool :=
  match i with
  | IChar d => Ascii.eqb c d
  | IRange lo hi => PyStr.in_range (PyStr.code lo) (PyStr.code hi) c
  | ISpace => PyStr.isspace c
  | IDigit => PyStr.isdigit c
  end.

(** With [re.IGNORECASE] ([ic]) the subject character and a literal are
    compared in lower case. *)
Definition atom_matches (ic : bool) (a : atom) (c : ascii) : bool :=
  let c' := if ic then PyStr.lower_char c else c in
  match a with
  | AChar d => Ascii.eqb c' (if ic then PyStr.lower_char d else d)
  | ASet neg items => xorb neg (existsb (fun i => item_matches i c') items)
  | ADot => negb (Ascii.eqb c "010")
  end.

(** The matcher's state: the offset reached, the text still ahead, and
    the groups captured so far (the latest binding of a group first). *)
Record mstate := MState {
  m_pos : nat;
  m_rest : string;
  m_caps : list (nat * string)
}.

Fixpoint cap_lookup (n : nat) (caps : list (nat * string)) : option string :=
  match caps with
  | [] => None
  | (k, v) :: caps' => if Nat.eqb k n then Some v else cap_lookup n caps'
  end.

Definition same_text (ic : bool) (a b : string) : bool :=
  if ic then String.eqb (PyStr.lower a) (PyStr.lower b) else String.eqb a b.

Section Matcher.
Context (ic : bool) {A : Type}.

Fixpoint star_greedy (a : atom) (pos : nat) (s : string)
    (k : nat -> string -> option A) : option A :=
  match s with
  | String c s' =>
      if atom_matches ic a c then
        match star_greedy a (S pos) s' k with
        | Some r => Some r
        | None => k pos s
        end
      else k pos s
  | EmptyString => k pos s
  end.

Fixpoint star_lazy (a : atom) (pos : nat) (s : string)
    (k : nat -> string -> option A) : option A :=
  match k pos s with
  | Some r => Some r
  | None =>
      match s with
      | String c s' =>
          if atom_matches ic a c then star_lazy a (S pos) s' k else None
      | EmptyString => None
      end
  end.

Fixpoint rmatch (r : regex) (st : mstate) (k : mstate -> option A) : option A :=
  match r with
  | REps => k st
  | RAtom a =>
      match m_rest st with
      | String c s' =>
          if atom_matches ic a c
          then k (MState (S (m_pos st)) s' (m_caps st))
          else None
      | EmptyString => None
      end
  | RSeq r1 r2 => rmatch r1 st (fun st' => rmatch r2 st' k)
  | RAlt r1 r2 =>
      match rmatch r1 st k with
      | Some x => Some x
      | None => rmatch r2 st k
      end
  | RStar greedy a =>
      (if greedy then star_greedy else star_lazy) a (m_pos st) (m_rest st)
        (fun pos s => k (MState pos s (m_caps st)))
  | RGroup n r' =>
      rmatch r' st (fun st' =>
        k (MState (m_pos st') (m_rest st')
             ((n, PyStr.take (m_pos st' - m_pos st) (m_rest st)) :: m_caps st')))
  | RBackref n =>
      match cap_lookup n (m_caps st) with
      | Some g =>
          let len := String.length g in
          if same_text ic (PyStr.take len (m_rest st)) g
          then k (MState (m_pos st + len) (PyStr.drop len (m_rest st)) (m_caps st))
          else None
      | None => None
      end
  | RBol => if Nat.eqb (m_pos st) 0 then k st else None
  | REol =>
      match m_rest st with
      | EmptyString | String "010" EmptyString => k st
      | _ => None
      end
  end.
End Matcher.

(** A match object: where the match starts, the matched text (group 0),
    the captured groups and the text after the match. *)
Record mobj := MObj {
  mo_start : nat;
  mo_text : string;
  mo_caps : list (nat * string);
  mo_rest : string
}.

(** [m.group(n)] for [n >= 1]; [None] for a group that took no part. *)
Definition group (n : nat) (m : mobj) : option string := cap_lookup n (mo_caps m).

Definition match_at (ic : bool) (r : regex) (pos : nat) (s : string) : option mobj :=
  match rmatch ic r (MState pos s []) Some with
  | Some st => Some (MObj pos (PyStr.take (m_pos st - pos) s) (m_caps st) (m_rest st))
  | None => None
  end.

(** [re.match(r, s)]. *)
Definition re_match (ic : bool) (r : regex) (s : string) : option mobj :=
  match_at ic r 0 s.

Fixpoint search_from (ic : bool) (r : regex) (pos : nat) (s : string) : option mobj :=
  match match_at ic r pos s with
  | Some m => Some m
  | None =>
      match s with
      | String _ s' => search_from ic r (S pos) s'
      | EmptyString => None
      end
  end.

(** [re.search(r, s)]. *)
Definition re_search (ic : bool) (r : regex) (s : string) : option mobj :=
  search_from ic r 0 s.

(** [r.sub(repl, s)] for a function [repl] that reads and updates a state
    and may raise.  No pattern of the source matches the empty string;
    an empty match is followed by one copied character.  [fuel] bounds
    the number of rounds, and the length of [s] plus one suffices. *)
Fixpoint sub_go {St : Type} (ic : bool) (r : regex)
    (repl : mobj -> St -> option (string * St))
    (fuel pos : nat) (s : string) (st : St) : option (string * St) :=
  match fuel with
  | O => Some (s, st)
  | S fuel' =>
      match match_at ic r pos s with
      | Some m =>
          '(out, st1) ← repl m st;
          match mo_text m, s with
          | EmptyString, EmptyString => Some (out, st1)
          | EmptyString, String c s' =>
              '(tl, st2) ← sub_go ic r repl fuel' (S pos) s' st1;
              Some (out +:+ String c tl, st2)
          | _, _ =>
              '(tl, st2) ← sub_go ic r repl fuel'
                             (pos + String.length (mo_text m)) (mo_rest m) st1;
              Some (out +:+ tl, st2)
          end
      | None =>
          match s with
          | EmptyString => Some (EmptyString, st)
          | String c s' =>
              '(tl, st1) ← sub_go ic r repl fuel' (S pos) s' st;
              Some (String c tl, st1)
          end
      end
  end.

Definition sub_state {St : Type} (ic : bool) (r : regex)
    (repl : mobj -> St -> option (string * St)) (s : string) (st : St)
    : option (string * St) :=
  sub_go ic r repl (S (String.length s)) 0 s st.

(** [r.sub(repl, s)] for a function that may raise but has no state. *)
Definition sub_fn (ic : bool) (r : regex) (repl : mobj -> option string)
    (s : string) : option string :=
  fst <$> sub_state ic r (fun m (_ : unit) => (fun o => (o, tt)) <$> repl m) s tt.

(** [r.sub(repl, s)] for a total function, and for a constant string. *)
Definition sub_total (ic : bool) (r : regex) (repl : mobj -> string)
    (s : string) : string :=
  default s (sub_fn ic r (fun m => Some (repl m)) s).

Definition sub_const (ic : bool) (r : regex) (repl : string) (s : string) : string :=
  sub_total ic r (fun _ => repl) s.

End Re.

Import PyStr Re.

(** ** The patterns of the module *)

Definition not_of (cs : string) : atom := ASet true (map IChar (list_ascii_of_string cs)).
Definition one_of (cs : string) : atom := ASet false (map IChar (list_ascii_of_string cs)).
Definition space : atom := ASet false [ISpace].
Definition digit : atom := ASet false [IDigit].

(** [^(=+)([^=].*?)(=+)\s*$] *)
Definition HEADING_RE : regex :=
  rseq [RBol; RGroup 1 (plus true (AChar "="));
       RGroup 2 (RSeq (RAtom (not_of "=")) (RStar false ADot));
       RGroup 3 (plus true (AChar "=")); RStar true space; REol].

(** ['''''(.*?)'''''], ['''(.*?)'''], [''(.*?)''] *)
Definition BOLD_ITALIC_RE : regex :=
  rseq [lit "'''''"; RGroup 1 (RStar false ADot); lit "'''''"].
Definition BOLD_RE : regex :=
  rseq [lit "'''"; RGroup 1 (RStar false ADot); lit "'''"].
Definition ITALIC_RE : regex :=
  rseq [lit "''"; RGroup 1 (RStar false ADot); lit "''"].

(** [\[\[([^\]|]+?)(?:\|([^\]]+))?]]] *)
Definition LINK_RE : regex :=
  rseq [lit "[["; RGroup 1 (plus false (not_of "]|"));
       opt (RSeq (lit "|") (RGroup 2 (plus true (not_of "]")))); lit "]]"].

(** LIST_ITEM_RE: at the start of the line a first group [[*#]+], then
    [\s*], then the rest of the line (greedy, any character) as group 2. *)
Definition LIST_ITEM_RE : regex :=
  rseq [RBol; RGroup 1 (plus true (one_of "*#")); RStar true space;
       RGroup 2 (RStar true ADot)].

(** [\[\[(File:[^\]]+)]]], ignoring case *)
Definition FILE_LINK_ANY_RE : regex :=
  rseq [lit "[["; RGroup 1 (RSeq (lit "File:") (plus true (not_of "]"))); lit "]]"].

(** CATEGORY_LINK_RE, ignoring case: [\[\[Category:], the name [[^|\]]+]
    as group 1, optionally [\|] and a greedy run [[^\]]*], then []]]. *)
Definition CATEGORY_LINK_RE : regex :=
  rseq [lit "[[Category:"; RGroup 1 (plus true (not_of "|]"));
       opt (RSeq (lit "|") (RStar true (not_of "]"))); lit "]]"].

(** [\[(https?://[^\s\]]+)(?:\s+([^\]]+))?]] *)
Definition EXTERNAL_LINK_RE : regex :=
  rseq [lit "[";
       RGroup 1 (rseq [lit "http"; opt (lit "s"); lit "://";
                      plus true (ASet true [ISpace; IChar "]"])]);
       opt (RSeq (plus true space) (RGroup 2 (plus true (not_of "]")))); lit "]"].

(** [{{[^{}]*}}] *)
Definition TEMPLATE_RE : regex :=
  rseq [lit "{{"; RStar true (not_of "{}"); lit "}}"].

(** The opening tag of a collapsible container, ignoring case: "<div",
    any run without ">", "class=", a single or double quote, a run
    without quotes, "collapsible", a run without quotes, a quote, any run
    without ">", and ">". *)
Definition quote_chars : string := String "034" (String "'" EmptyString).

Definition COLLAPSIBLE_OPEN_RE : regex :=
  rseq [lit "<div"; RStar true (not_of ">"); lit "class="; RAtom (one_of quote_chars);
       RStar true (not_of quote_chars); lit "collapsible";
       RStar true (not_of quote_chars); RAtom (one_of quote_chars);
       RStar true (not_of ">"); lit ">"].

(** [[^a-z0-9]+] *)
Definition _slug_strip_re : regex :=
  plus true (ASet true [IRange "a" "z"; IRange "0" "9"]).

(** The pattern of the redirect test in [convert]:
    [^\s*#redirect\s*:?\[\[([^\]]+)]]], ignoring case *)
Definition REDIRECT_RE : regex :=
  rseq [RBol; RStar true space; lit "#redirect"; RStar true space; opt (lit ":");
       lit "[["; RGroup 1 (plus true (not_of "]")); lit "]]"].

(** ** Library functions used by the module *)

(** [unicodedata.normalize("NFKD", s).encode("ascii", "ignore").decode("ascii")]
    on one code point below 256: the ASCII characters of its compatibility
    decomposition. *)
Definition ascii_fold_char (c : ascii) : string :=
  let n := code c in
  if (n <? 128)%N then String c EmptyString
  else if existsb (N.eqb n) [160; 168; 175; 180; 184]%N then " "
  else if (n =? 170)%N then "a"
  else if (n =? 178)%N then "2"
  else if (n =? 179)%N then "3"
  else if (n =? 185)%N then "1"
  else if (n =? 186)%N then "o"
  else if (n =? 188)%N then "14"
  else if (n =? 189)%N then "12"
  else if (n =? 190)%N then "34"
  else if in_range 192 197 c then "A"
  else if (n =? 199)%N then "C"
  else if in_range 200 203 c then "E"
  else if in_range 204 207 c then "I"
  else if (n =? 209)%N then "N"
  else if in_range 210 214 c then "O"
  else if in_range 217 220 c then "U"
  else if (n =? 221)%N then "Y"
  else if in_range 224 229 c then "a"
  else if (n =? 231)%N then "c"
  else if in_range 232 235 c then "e"
  else if in_range 236 239 c then "i"
  else if (n =? 241)%N then "n"
  else if in_range 242 246 c then "o"
  else if in_range 249 252 c then "u"
  else if (n =? 253)%N || (n =? 255)%N then "y"
  else "".

Fixpoint nfkd_ascii (s : string) : string :=
  match s with
  | EmptyString => EmptyString
  | String c s' => ascii_fold_char c +:+ nfkd_ascii s'
  end.

(** [html.escape(s)] with its default [quote=True]. *)
Definition escape_char (c : ascii) : string :=
  if Ascii.eqb c "&" then "&amp;"
  else if Ascii.eqb c "<" then "&lt;"
  else if Ascii.eqb c ">" then "&gt;"
  else if Ascii.eqb c "034" then "&quot;"
  else if Ascii.eqb c "'" then "&#x27;"
  else String c EmptyString.

Fixpoint escape (s : string) : string :=
  match s with
  | EmptyString => EmptyString
  | String c s' => escape_char c +:+ escape s'
  end.

(** [urllib.parse.quote(s)]: letters, digits and [_.-~/] are kept, every
    other code point is written as the percent-escaped bytes of its UTF-8
    encoding. *)
Definition hex_digit (n : N) : ascii :=
  if (n <? 10)%N then ascii_of_N (48 + n) else ascii_of_N (55 + n).

Definition percent_byte (b : N) : string :=
  String "%" (String (hex_digit (b / 16)) (String (hex_digit (b mod 16)) EmptyString)).

Definition quote_char (c : ascii) : string :=
  let n := code c in
  if in_range 65 90 c || in_range 97 122 c || in_range 48 57 c
     || mem_char c "_.-~/"
  then String c EmptyString
  else if (n <? 128)%N then percent_byte n
  else percent_byte (192 + n / 64) +:+ percent_byte (128 + n mod 64).

Fixpoint quote (s : string) : string :=
  match s with
  | EmptyString => EmptyString
  | String c s' => quote_char c +:+ quote s'
  end.

(** [x or d] for strings: the empty string is false. *)
Definition str_or (x d : string) : string :=
  match x with EmptyString => d | _ => x end.

Definition truthy (x : string) : bool :=
  match x with EmptyString => false | _ => true end.

(** ** Slugs and titles *)

(** The candidate slug of [slugify], before the collision loop. *)
Definition base_slug (title : string) : string :=
  let title_norm := nfkd_ascii title in
  let lowered := lower title_norm in
  str_or (strip_chars "-" (sub_const false _slug_strip_re "-" lowered)) "page".

(** The [while slug in used] loop of [slugify].  Every round that goes on
    has found another element of [used], so [size used] rounds of fuel
    are enough ([slugify_loop_total]); [None] is the loop out of fuel. *)
Fixpoint slugify_loop (fuel : nat) (base slug : string) (i : nat)
    (used : gset string) : option string :=
  if bool_decide (slug ∈ used) then
    match fuel with
    | O => None
    | S fuel' => slugify_loop fuel' base (base +:+ "-" +:+ pretty i) (S i) used
    end
  else Some slug.

(** [slugify(title, used)]: the slug and the updated set. *)
Definition slugify (title : string) (used : gset string) : option (string * gset string) :=
  let base := base_slug title in
  slug ← slugify_loop (size used) base base 2 used;
  Some (slug, {[slug]} ∪ used).

Definition category_slug (name : string) : string :=
  let name_norm := nfkd_ascii name in
  let core := str_or (strip_chars "-" (sub_const false _slug_strip_re "-" (lower name_norm)))
                "category" in
  "category-" +:+ core.

Definition normalize_title (title : string) : string :=
  let t := strip (replace_char "_" " " title) in
  match t with
  | EmptyString => t
  | _ =>
      match split_once ":" t with
      | Some (ns, rest) =>
          let rest := match rest with
                      | EmptyString => EmptyString
                      | _ => upper (take 1 rest) +:+ drop 1 rest
                      end in
          ns +:+ ":" +:+ rest
      | None => upper (take 1 t) +:+ drop 1 t
      end
  end.

Definition heading_id (text : string) : string :=
  let base := nfkd_ascii text in
  let base := strip_chars "-" (sub_const false _slug_strip_re "-" (lower base)) in
  str_or base "section".

(** ** Binary floating point

    The source computes two thresholds in Python floats (IEEE binary64,
    round to nearest, ties to even).  Only non-negative values occur.  A
    finite value is [m * 2^e]; a quotient [p / q] of integers is rounded
    to 53 significant bits, with the smallest exponent -1074. *)

Module B64.

Inductive float :=
| Fin (m e : Z)
| Inf.

Definition up (e : Z) : Z := 2 ^ Z.max e 0.
Definition dn (e : Z) : Z := 2 ^ Z.max (- e) 0.

(** The integer nearest to [a / b], the even one of two equally near. *)
Definition rne (a b : Z) : Z :=
  let q := a / b in
  let r := a mod b in
  if 2 * r <? b then q
  else if b <? 2 * r then q + 1
  else if Z.even q then q else q + 1.

(** The integer part of the binary logarithm of [p / q]. *)
Definition ilog2 (p q : Z) : Z :=
  let d := Z.log2 p - Z.log2 q in
  if p * dn d <? q * up d then d - 1 else d.

(** [p / q] correctly rounded, for [0 <= p] and [0 < q]. *)
Definition round (p q : Z) : float :=
  if p =? 0 then Fin 0 0
  else
    let e := Z.max (ilog2 p q - 52) (-1074) in
    let m := rne (p * dn e) (q * up e) in
    if (971 <? e) || ((e =? 971) && (2 ^ 53 <=? m)) then Inf else Fin m e.

(** [float(n)] of an integer; Python raises OverflowError where the
    result would be infinite. *)
Definition of_int (n : Z) : option float :=
  match round n 1 with
  | Inf => None
  | f => Some f
  end.

(** [a / b] of two integers, correctly rounded; OverflowError likewise. *)
Definition truediv (a b : Z) : option float :=
  match round a b with
  | Inf => None
  | f => Some f
  end.

(** The product of two floats; the source never multiplies an infinity
    by zero. *)
Definition mul (x y : float) : float :=
  match x, y with
  | Fin m1 e1, Fin m2 e2 => round (m1 * m2 * up (e1 + e2)) (dn (e1 + e2))
  | _, _ => Inf
  end.

(** [int(x)]: the integer part; OverflowError on an infinity. *)
Definition trunc (x : float) : option Z :=
  match x with
  | Fin m e => Some (m * up e / dn e)
  | Inf => None
  end.

(** [above k p q]: [2^k <= p / q]. *)
Definition above (k p q : Z) : Prop := q * up k <= p * dn k.

Definition digit_val (c : ascii) : Z := Z.of_N (N_of_ascii c) - 48.

(** The value of a string of ASCII digits, [int(s)]. *)
Fixpoint digits_go (s : string) (acc : Z) : Z :=
  match s with
  | EmptyString => acc
  | String c s' => digits_go s' (10 * acc + digit_val c)
  end.

Definition int_of_digits (s : string) : Z := digits_go s 0.

(** [float(s)] for a decimal numeral [ip.fp] (either part may be empty):
    the nearest float, an infinity if it is too large. *)
Definition of_decimal (ip fp : string) : float :=
  round (int_of_digits (ip +:+ fp)) (10 ^ Z.of_nat (String.length fp)).

(** The float literals of the source. *)
Definition six_tenths : float := of_decimal "0" "6".
Definition thirty_seven_hundredths : float := of_decimal "0" "37".
Definition one : float := of_decimal "1" "0".

End B64.

(** ** The converter *)

Record WikiConverter := {
  page_slugs : gmap string string;
  mode : string
}.

Definition dq : string := String "034" EmptyString.

Section Converter.
Context (self : WikiConverter).

(** The candidates without repetitions, in their first order. *)
Definition ordered_candidates (candidates : list string) : list string :=
  fst (fold_left
         (fun '(ordered, seen) c =>
            if bool_decide (c ∈ (seen : gset string)) then (ordered, seen)
            else (ordered ++ [c], {[c]} ∪ seen))
         candidates ([], ∅)).

Fixpoint first_slug (keys : list string) : option string :=
  match keys with
  | [] => None
  | key :: keys' =>
      match page_slugs self !! key with
      | Some slug => Some slug
      | None => first_slug keys'
      end
  end.

Definition with_fragment (href : string) (frag : option string) : string :=
  match frag with
  | Some f => if truthy f then href +:+ "#" +:+ heading_id f else href
  | None => href
  end.

Definition _link_for_target (target : string) (label : option string) : string :=
  let label := default target label in
  let '(base, frag) :=
    match split_once "#" target with
    | Some (b, f) => (b, Some f)
    | None => (target, None)
    end in
  let norm_base := normalize_title base in
  let candidates :=
    [base; norm_base; replace_char "_" " " base; replace_char " " "_" norm_base] in
  let ordered := ordered_candidates candidates in
  let slug := first_slug ordered in
  if truthy (default "" slug) then
    let href := with_fragment (default "" slug +:+ ".html") frag in
    "<a href='" +:+ escape href +:+ "'>" +:+ escape label +:+ "</a>"
  else
    let pred :=
      str_or (strip_chars "-"
                (sub_const false _slug_strip_re "-" (lower (nfkd_ascii norm_base))))
             "page" in
    let href := with_fragment (pred +:+ ".html") frag in
    "<a class='missing' href='" +:+ escape href +:+ "'>" +:+ escape label +:+ "</a>".

(** *** File embeds *)

(** The variables of the option loop of [file_sub]. *)
Record file_opts := {
  width : Z;
  height : Z;
  alt_text : option string;
  link_target : option string;
  classes : list string;
  technical_indices : gset nat;
  last_explicit_caption_idx : option nat;
  explicit_size : bool
}.

Definition file_opts_init : file_opts :=
  {| width := 600; height := 400; alt_text := None; link_target := None;
     classes := ["file-ref"]; technical_indices := ∅;
     last_explicit_caption_idx := None; explicit_size := false |}.

Definition base_default_width : Z := 600.
Definition alignment_tokens : list string := ["left"; "right"; "center"; "none"].
Definition frame_tokens : list string := ["thumb"; "thumbnail"; "frame"; "frameless"].
Definition known_flags : list string := alignment_tokens ++ frame_tokens ++ ["upright"].

Definition mem_str (s : string) (l : list string) : bool := existsb (String.eqb s) l.

(** [^(\d+)(?:x(\d+))?px$], ignoring case *)
Definition size_re : regex :=
  rseq [RBol; RGroup 1 (plus true digit);
       opt (RSeq (lit "x") (RGroup 2 (plus true digit))); lit "px"; REol].

(** [^upright(?::?=([0-9]*\.?[0-9]+))?$], ignoring case *)
Definition upright_re : regex :=
  rseq [RBol; lit "upright";
       opt (rseq [opt (lit ":"); lit "=";
                 RGroup 1 (rseq [RStar true (ASet false [IRange "0" "9"]);
                                opt (lit ".");
                                plus true (ASet false [IRange "0" "9"])])]);
       REol].

Definition mark_technical (idx : nat) (f : file_opts) : file_opts :=
  {| width := width f; height := height f; alt_text := alt_text f;
     link_target := link_target f; classes := classes f;
     technical_indices := {[idx]} ∪ technical_indices f;
     last_explicit_caption_idx := last_explicit_caption_idx f;
     explicit_size := explicit_size f |}.

Definition with_size (w h : Z) (explicit : bool) (f : file_opts) : file_opts :=
  {| width := w; height := h; alt_text := alt_text f;
     link_target := link_target f; classes := classes f;
     technical_indices := technical_indices f;
     last_explicit_caption_idx := last_explicit_caption_idx f;
     explicit_size := explicit |}.

Definition add_class (c : string) (f : file_opts) : file_opts :=
  {| width := width f; height := height f; alt_text := alt_text f;
     link_target := link_target f; classes := classes f ++ [c];
     technical_indices := technical_indices f;
     last_explicit_caption_idx := last_explicit_caption_idx f;
     explicit_size := explicit_size f |}.

(** [int(w * 3 / 4)]: the quotient as a float, then its integer part. *)
Definition three_quarters (w : Z) : option Z :=
  q ← B64.truediv (w * 3) 4; B64.trunc q.

(** [float(factor)] for a match of [[0-9]*\.?[0-9]+]. *)
Definition float_of_factor (factor : string) : B64.float :=
  match split_once "." factor with
  | Some (ip, fp) => B64.of_decimal ip fp
  | None => B64.of_decimal factor ""
  end.

(** [int(base_default_width * 0.37 * scale)] *)
Definition upright_width (scale : B64.float) : option Z :=
  b ← B64.of_int base_default_width;
  B64.trunc (B64.mul (B64.mul b B64.thirty_seven_hundredths) scale).

(** The most decimal digits [int] converts ([sys.int_max_str_digits]). *)
Definition int_max_str_digits : nat := 4300.

(** [int(s)] for a match of [\d+]: the value, or [None] for the
    ValueError [int] raises on a numeral beyond the digit limit. *)
Definition int_of_numeral (s : string) : option Z :=
  if (int_max_str_digits <? String.length s)%nat then None
  else Some (B64.int_of_digits s).

(** One round of the loop over [enumerate(opts)]; [None] is an
    OverflowError, which no handler of the source catches.  A ValueError
    is caught by the [try] it is raised in, and the option sets no size. *)
Definition file_opt_step (idx : nat) (opt : string) (f : file_opts) : option file_opts :=
  let o := strip opt in
  if negb (truthy o) then Some f
  else if startswith (lower o) "alt=" then
    Some (mark_technical idx
            {| width := width f; height := height f;
               alt_text := Some (strip (drop 4 o));
               link_target := link_target f; classes := classes f;
               technical_indices := technical_indices f;
               last_explicit_caption_idx := last_explicit_caption_idx f;
               explicit_size := explicit_size f |})
  else if startswith (lower o) "link=" then
    Some (mark_technical idx
            {| width := width f; height := height f; alt_text := alt_text f;
               link_target := Some (strip (drop 5 o)); classes := classes f;
               technical_indices := technical_indices f;
               last_explicit_caption_idx := last_explicit_caption_idx f;
               explicit_size := explicit_size f |})
  else
    match re_match true size_re o with
    | Some m =>
        f' ← match int_of_numeral (default "" (group 1 m)) with
             | Some w =>
                 match group 2 m with
                 | Some g2 =>
                     match int_of_numeral g2 with
                     | Some h => Some (with_size w h true f)
                     | None => Some f
                     end
                 | None => h ← three_quarters w; Some (with_size w h true f)
                 end
             | None => Some f
             end;
        Some (mark_technical idx f')
    | None =>
        match re_match true upright_re o with
        | Some um =>
            let scale :=
              match group 1 um with
              | Some factor => float_of_factor factor
              | None => B64.one
              end in
            f' ← (if explicit_size f then Some f
                  else
                    w ← upright_width scale;
                    h ← three_quarters w;
                    Some (with_size w h (explicit_size f) f));
            Some (mark_technical idx f')
        | None =>
            let low := lower o in
            if mem_str low alignment_tokens then
              Some (mark_technical idx (add_class ("align-" +:+ low) f))
            else if mem_str low frame_tokens then
              Some (mark_technical idx (add_class ("mode-" +:+ low) f))
            else if mem_str low known_flags then
              Some (mark_technical idx f)
            else
              Some {| width := width f; height := height f; alt_text := alt_text f;
                      link_target := link_target f; classes := classes f;
                      technical_indices := technical_indices f;
                      last_explicit_caption_idx := Some idx;
                      explicit_size := explicit_size f |}
        end
    end.

Fixpoint file_opts_loop (idx : nat) (opts : list string) (f : file_opts) : option file_opts :=
  match opts with
  | [] => Some f
  | opt :: opts' => f' ← file_opt_step idx opt f; file_opts_loop (S idx) opts' f'
  end.

Definition is_http (s : string) : bool :=
  startswith s "http://" || startswith s "https://".

(** [re.search(r"href='([^']+)'", internal_anchor)], group 1 or ["#"]. *)
Definition href_re : regex :=
  rseq [lit "href='"; RGroup 1 (plus true (not_of "'")); lit "'"].

Definition href_of_anchor (anchor : string) : string :=
  match re_search false href_re anchor with
  | Some m => default "" (group 1 m)
  | None => "#"
  end.

Definition is_markdown : bool := String.eqb (mode self) "markdown".

(** What [file_sub] returns once the options are read. *)
Definition file_render (filename : string) (opts : list string) (f : file_opts) : string :=
  let caption :=
    match last_explicit_caption_idx f with
    | Some idx =>
        if bool_decide (idx ∈ technical_indices f) then ""
        else strip (nth idx opts "")
    | None => ""
    end in
  let width := Z.max 40 (Z.min (width f) 1600) in
  let height := Z.max 40 (Z.min (height f) 1200) in
  let label_text := take 60 filename in
  let label_enc := quote label_text in
  let img_url := "https://placehold.co/" +:+ pretty width +:+ "x" +:+ pretty height
                 +:+ "?text=" +:+ label_enc in
  let alt_final := default filename (alt_text f) in
  let link := default "" (link_target f) in
  if truthy link
     && (contains "youtube.com" (lower link) || contains "youtu.be" (lower link))
     && contains "youtube" (lower filename)
     && negb (truthy caption)
  then
    if is_markdown then "[YouTube](" +:+ link +:+ ")"
    else "<a href='" +:+ escape link +:+ "'>YouTube</a>"
  else if is_markdown then
    let md_img := "![" +:+ alt_final +:+ "](" +:+ img_url +:+ ")" in
    let md_img :=
      if truthy link then
        if negb (is_http link) then
          let link_target_clean := strip_chars "[]" link in
          let internal_anchor :=
            _link_for_target link_target_clean (Some "__PLACEHOLDER__") in
          let href := replace_str ".html" ".md" (href_of_anchor internal_anchor) in
          "[" +:+ md_img +:+ "](" +:+ href +:+ ")"
        else "[" +:+ md_img +:+ "](" +:+ link +:+ ")"
      else md_img in
    if truthy caption then md_img +:+ " *" +:+ caption +:+ "*" else md_img
  else
    let img_html := "<img class=" +:+ dq +:+ "placeholder-img" +:+ dq +:+ " src='"
                    +:+ escape img_url +:+ "' alt='" +:+ escape alt_final
                    +:+ "' loading='lazy'/>" in
    let img_html :=
      if truthy link then
        if negb (is_http link) then
          let link_target_clean := strip_chars "[]" link in
          let internal_anchor :=
            _link_for_target link_target_clean (Some "__PLACEHOLDER__") in
          let href := href_of_anchor internal_anchor in
          "<a href='" +:+ escape href +:+ "'>" +:+ img_html +:+ "</a>"
        else "<a href='" +:+ escape link +:+ "'>" +:+ img_html +:+ "</a>"
      else img_html in
    let class_attr := join " " (classes f) in
    let fig := "<figure class=" +:+ dq +:+ escape class_attr +:+ dq +:+ ">" +:+ img_html
               +:+ "<div class=" +:+ dq +:+ "file-name" +:+ dq +:+ ">"
               +:+ escape filename +:+ "</div>" in
    let fig := if truthy caption
               then fig +:+ "<figcaption>" +:+ escape caption +:+ "</figcaption>"
               else fig in
    fig +:+ "</figure>".

(** [file_sub(match)], given [inside = match.group(1)]. *)
Definition file_sub (inside : string) : option string :=
  let parts := split_char "|" inside in
  let file_part := hd "" parts in
  let opts := tl parts in
  let filename := str_or (drop 5 file_part) "File" in
  f ← file_opts_loop 0 opts file_opts_init;
  Some (file_render filename opts f).

Definition link_sub (m : mobj) : string :=
  let target := strip (default "" (group 1 m)) in
  let label :=
    match group 2 m with
    | Some g2 => if truthy g2 then strip g2 else target
    | None => target
    end in
  if startswith (lower target) "file:" then label
  else if is_http target then
    "<a href='" +:+ escape target +:+ "'>" +:+ escape label +:+ "</a>"
  else if startswith (lower target) "category:" then
    let cat_name := match split_once ":" target with
                    | Some (_, rest) => rest
                    | None => ""
                    end in
    let slug := category_slug cat_name +:+ ".html" in
    "<a href='" +:+ escape slug +:+ "'>" +:+ escape label +:+ "</a>"
  else _link_for_target target (Some label).

Definition external_sub (m : mobj) : string :=
  let url := default "" (group 1 m) in
  let label :=
    match group 2 m with
    | Some g2 => if truthy g2 then strip g2 else url
    | None => url
    end in
  "<a href='" +:+ escape url +:+ "'>" +:+ escape label +:+ "</a>".

Definition inline (text : string) : option string :=
  text ← sub_fn true FILE_LINK_ANY_RE (fun m => file_sub (default "" (group 1 m))) text;
  let text := sub_total false LINK_RE link_sub text in
  let text := sub_total false EXTERNAL_LINK_RE external_sub text in
  let text := sub_total false BOLD_ITALIC_RE
                (fun m => "<strong><em>" +:+ escape (default "" (group 1 m))
                          +:+ "</em></strong>") text in
  let text := sub_total false BOLD_RE
                (fun m => "<strong>" +:+ escape (default "" (group 1 m)) +:+ "</strong>")
                text in
  let text := sub_total false ITALIC_RE
                (fun m => "<em>" +:+ escape (default "" (group 1 m)) +:+ "</em>") text in
  Some text.

End Converter.

(** ** Block parsing: [WikiConverter.convert] *)

(** The separator of the cells of an irregular key-value row.  It is
    U+2014 between two spaces in the source; that code point lies outside
    the modelled range and is written here as its three UTF-8 bytes. *)
Definition em_dash_sep : string :=
  " " +:+ String "226" (String "128" (String "148" EmptyString)) +:+ " ".

Definition nl : string := String "010" EmptyString.

(** The pattern of the attribute test on a table cell: [^[^|]+\|] *)
Definition CELL_ATTR_RE : regex := rseq [RBol; plus true (not_of "|"); lit "|"].

(** The header of a collapsible block, ignoring case:
    [<(strong|b|h[1-6])[^>]*>(.*?)</\1>] *)
Definition COLLAPSE_HEADER_RE : regex :=
  rseq [lit "<";
       RGroup 1 (RAlt (lit "strong")
                   (RAlt (lit "b")
                      (RSeq (lit "h") (RAtom (ASet false [IRange "1" "6"])))));
       RStar true (not_of ">"); lit ">"; RGroup 2 (RStar false ADot);
       lit "</"; RBackref 1; lit ">"].

(** [^<div[^>]*>] and [</div>\s*$], ignoring case *)
Definition DIV_OPEN_RE : regex := rseq [RBol; lit "<div"; RStar true (not_of ">"); lit ">"].
Definition DIV_CLOSE_RE : regex := rseq [lit "</div>"; RStar true space; REol].

Definition cell : Type := string * bool.

(** The variables of the loop of [convert].  [list_stack] is used as a
    stack by the source; its top, the last element in Python, is the head
    here. *)
Record cstate := {
  html_lines : list string;
  list_stack : list ascii;
  categories : list string;
  cat_set : gset string;
  in_collapse : bool;
  collapse_lines : list string;
  in_table : bool;
  table_lines : list string
}.

Definition cstate_init : cstate :=
  {| html_lines := []; list_stack := []; categories := []; cat_set := ∅;
     in_collapse := false; collapse_lines := [];
     in_table := false; table_lines := [] |}.

Definition list_tag (t : ascii) : string := if Ascii.eqb t "*" then "ul" else "ol".

(** The loop of [close_lists(to_level)] on the stack and the output. *)
Fixpoint close_lists_loop (to_level : nat) (stack : list ascii) (out : list string)
    : list ascii * list string :=
  match stack with
  | [] => ([], out)
  | t :: stack' =>
      if (to_level <? length stack)%nat
      then close_lists_loop to_level stack' (out ++ ["</" +:+ list_tag t +:+ ">"])
      else (stack, out)
  end.

Definition close_lists (to_level : nat) (st : cstate) : cstate :=
  let '(stack, out) := close_lists_loop to_level (list_stack st) (html_lines st) in
  {| html_lines := out; list_stack := stack; categories := categories st;
     cat_set := cat_set st; in_collapse := in_collapse st;
     collapse_lines := collapse_lines st; in_table := in_table st;
     table_lines := table_lines st |}.

Definition emit (line : string) (st : cstate) : cstate :=
  {| html_lines := html_lines st ++ [line]; list_stack := list_stack st;
     categories := categories st; cat_set := cat_set st;
     in_collapse := in_collapse st; collapse_lines := collapse_lines st;
     in_table := in_table st; table_lines := table_lines st |}.

Definition emit_all (lines : list string) (st : cstate) : cstate :=
  {| html_lines := html_lines st ++ lines; list_stack := list_stack st;
     categories := categories st; cat_set := cat_set st;
     in_collapse := in_collapse st; collapse_lines := collapse_lines st;
     in_table := in_table st; table_lines := table_lines st |}.

Definition push_list (t : ascii) (st : cstate) : cstate :=
  {| html_lines := html_lines st ++ ["<" +:+ list_tag t +:+ ">"];
     list_stack := t :: list_stack st;
     categories := categories st; cat_set := cat_set st;
     in_collapse := in_collapse st; collapse_lines := collapse_lines st;
     in_table := in_table st; table_lines := table_lines st |}.

(** The category names recorded so far: the list and the set beside it. *)
Definition cats : Type := list string * gset string.

(** [repl] of [strip_categories]. *)
Definition category_repl (m : mobj) (c : cats) : string * cats :=
  let cat := strip (default "" (group 1 m)) in
  if bool_decide (cat ∈ c.2) then ("", c)
  else ("", (c.1 ++ [cat], {[cat]} ∪ c.2)).

Definition strip_categories (line : string) (c : cats) : string * cats :=
  default (line, c)
    (sub_state true CATEGORY_LINK_RE (fun m c => Some (category_repl m c)) line c).

Definition set_cats (c : cats) (st : cstate) : cstate :=
  {| html_lines := html_lines st; list_stack := list_stack st;
     categories := c.1; cat_set := c.2;
     in_collapse := in_collapse st; collapse_lines := collapse_lines st;
     in_table := in_table st; table_lines := table_lines st |}.

Definition set_table (b : bool) (lines : list string) (st : cstate) : cstate :=
  {| html_lines := html_lines st; list_stack := list_stack st;
     categories := categories st; cat_set := cat_set st;
     in_collapse := in_collapse st; collapse_lines := collapse_lines st;
     in_table := b; table_lines := lines |}.

Definition set_collapse (b : bool) (lines : list string) (st : cstate) : cstate :=
  {| html_lines := html_lines st; list_stack := list_stack st;
     categories := categories st; cat_set := cat_set st;
     in_collapse := b; collapse_lines := lines;
     in_table := in_table st; table_lines := table_lines st |}.

(** *** Tables *)

(** The variables of the loop over the lines of a table. *)
Record tstate := {
  header_text : string;
  rows : list (list cell);
  current_row : list cell;
  pending_text_lines : list string;
  t_cats : cats
}.

Definition flush_pending_into_cell (t : tstate) : tstate :=
  match pending_text_lines t with
  | [] => t
  | _ =>
      let joined := strip (join " " (pending_text_lines t)) in
      {| header_text := header_text t; rows := rows t;
         current_row := if truthy joined then current_row t ++ [(joined, false)]
                        else current_row t;
         pending_text_lines := []; t_cats := t_cats t |}
  end.

Definition flush_row (t : tstate) : tstate :=
  match current_row t with
  | [] => t
  | _ =>
      {| header_text := header_text t; rows := rows t ++ [current_row t];
         current_row := []; pending_text_lines := pending_text_lines t;
         t_cats := t_cats t |}
  end.

(** One part of a cell line: attributes before a single pipe are dropped,
    category links are recorded and removed, the cell is appended. *)
Definition add_part (is_header : bool) (t : tstate) (part : string) : tstate :=
  let part := strip part in
  let part :=
    if contains "|" part && bool_decide (is_Some (re_match false CELL_ATTR_RE part))
    then match split_once "|" part with
         | Some (_, content) => strip content
         | None => part
         end
    else part in
  let '(part, c) := strip_categories part (t_cats t) in
  {| header_text := header_text t; rows := rows t;
     current_row := current_row t ++ [(part, is_header)];
     pending_text_lines := pending_text_lines t; t_cats := c |}.

(** The body of the loop [for tl in table_lines[1:-1]]. *)
Definition table_line (t : tstate) (tl : string) : tstate :=
  let stripped := rstrip tl in
  let core := strip stripped in
  if negb (truthy core) then t
  else if startswith core "|+" then
    {| header_text := strip (drop 2 core); rows := rows t;
       current_row := current_row t; pending_text_lines := pending_text_lines t;
       t_cats := t_cats t |}
  else if startswith core "|-" then flush_row (flush_pending_into_cell t)
  else if startswith core "!" || startswith core "|" then
    let t := flush_pending_into_cell t in
    let is_header := startswith core "!" in
    let cell_line := lstrip (drop 1 core) in
    let delimiter :=
      if is_header && contains "!!" cell_line then Some "!!"
      else if contains "||" cell_line then Some "||" else None in
    let parts :=
      match delimiter with
      | None => [cell_line]
      | Some d => split_str d cell_line
      end in
    fold_left (add_part is_header) parts t
  else
    {| header_text := header_text t; rows := rows t; current_row := current_row t;
       pending_text_lines := pending_text_lines t ++ [core]; t_cats := t_cats t |}.

(** [table_lines[1:-1]] *)
Definition middle {A : Type} (l : list A) : list A := removelast (tl l).

(** The rows of an accumulated table, with its caption and the categories
    found in its cells. *)
Definition parse_table (lines : list string) (c : cats) : tstate :=
  let t := fold_left table_line (middle lines)
             {| header_text := ""; rows := []; current_row := [];
                pending_text_lines := []; t_cats := c |} in
  flush_row (flush_pending_into_cell t).

(** *** The layout of a table *)

Definition col_counts (rows : list (list cell)) : list nat :=
  map (@length cell) (filter (fun r => r ≠ []) rows).

(** [max(col_counts) if col_counts else 0] *)
Definition max_cols (rows : list (list cell)) : nat :=
  foldr Nat.max 0%nat (col_counts rows).

Definition two_cell_rows (rows : list (list cell)) : list (list cell) :=
  filter (fun r => length r = 2%nat) rows.

(** [int(0.6 * n)]; [None] where Python raises OverflowError. *)
Definition int_six_tenths (n : nat) : option Z :=
  f ← B64.of_int (Z.of_nat n);
  B64.trunc (B64.mul B64.six_tenths f).

(** [key_value_style]; the right operand of [and] is only evaluated when
    [max_cols == 2]. *)
Definition key_value_style (rows : list (list cell)) : option bool :=
  if (max_cols rows =? 2)%nat then
    t ← int_six_tenths (length rows);
    Some (Z.max 1 t <=? Z.of_nat (length (two_cell_rows rows)))
  else Some false.


Section Convert.
Context (self : WikiConverter).

(** *** Rendering a table *)

(** [_sanitize_md] *)
Definition _sanitize_md (cell : string) : string :=
  strip (replace_char "010" " " (replace_str "|" "\|" cell)).

Definition inline_cells (r : list cell) : option (list string) :=
  mapM (fun c : cell => inline self c.1) r.

(** The cells of a Markdown row: [max_cols] entries, empty where the row
    is shorter. *)
Definition md_cells (n : nat) (r : list cell) : option (list string) :=
  cells ← inline_cells (firstn n r);
  Some (map _sanitize_md cells ++ replicate (n - length r) "").

Definition md_row (cells : list string) : string :=
  "| " +:+ join " | " cells +:+ " |".

Definition md_key_value_row (r : list cell) : option string :=
  match r with
  | [k; v] =>
      k_txt ← inline self k.1;
      v_txt ← inline self v.1;
      Some ("| " +:+ _sanitize_md k_txt +:+ " | " +:+ _sanitize_md v_txt +:+ " |")
  | _ =>
      cells ← inline_cells r;
      Some ("|  | " +:+ _sanitize_md (join em_dash_sep cells) +:+ " |")
  end.

Definition html_key_value_row (r : list cell) : option string :=
  match r with
  | [k; v] =>
      k_txt ← inline self k.1;
      v_txt ← inline self v.1;
      Some ("<dt>" +:+ k_txt +:+ "</dt><dd>" +:+ v_txt +:+ "</dd>")
  | _ =>
      cells ← inline_cells r;
      Some ("<dd>" +:+ join em_dash_sep cells +:+ "</dd>")
  end.

Definition html_cell (c : cell) : option string :=
  let tag := if c.2 then "th" else "td" in
  txt ← inline self c.1;
  Some ("<" +:+ tag +:+ ">" +:+ txt +:+ "</" +:+ tag +:+ ">").

Definition html_row (r : list cell) : option string :=
  cells ← mapM html_cell r;
  Some ("<tr>" +:+ concat cells +:+ "</tr>").

(** The lines a finished table adds to [html_lines]. *)
Definition render_table (t : tstate) (key_value : bool) : option (list string) :=
  header_html ←
    (if truthy (header_text t)
     then h ← inline self (header_text t); Some ("<header>" +:+ h +:+ "</header>")
     else Some "");
  if is_markdown self then
    if key_value then
      title ← (if truthy (header_text t)
               then h ← inline self (header_text t);
                    Some ["**" +:+ _sanitize_md h +:+ "**"]
               else Some []);
      body ← mapM md_key_value_row (rows t);
      Some (title ++ ["| Key | Value |"; "| --- | ----- |"] ++ body)
    else
      match rows t with
      | [] => Some []
      | header_row :: rest =>
          let n := max_cols (rows t) in
          headers ← md_cells n header_row;
          body ← mapM (fun r => md_row <$> md_cells n r) rest;
          Some ([md_row headers; md_row (replicate n "---")] ++ body)
      end
  else if key_value then
    body ← mapM html_key_value_row (rows t);
    Some [concat (["<aside class='collapsible infobox'>" +:+ header_html +:+ "<dl>"]
                  ++ body ++ ["</dl></aside>"])]
  else
    body ← mapM html_row (rows t);
    Some [concat (["<table class='wikitable'>"]
                  ++ (if truthy header_html then [header_html] else [])
                  ++ body ++ ["</table>"])].

(** The work done on the closing line of a table.  ([attrs_line], which
    the source computes and never reads, is left out.) *)
Definition finish_table (st : cstate) : option cstate :=
  let t := parse_table (table_lines st) (categories st, cat_set st) in
  let st := close_lists 0 (set_cats (t_cats t) st) in
  key_value ← key_value_style (rows t);
  lines ← render_table t key_value;
  Some (set_table false (table_lines st) (emit_all lines st)).

(** *** Collapsible blocks *)

Definition finish_collapse (st : cstate) : option cstate :=
  let block := join nl (collapse_lines st) in
  let header_html :=
    match re_search true COLLAPSE_HEADER_RE block with
    | Some m => "<header>" +:+ default "" (group 2 m) +:+ "</header>"
    | None => ""
    end in
  let inner := sub_const true DIV_OPEN_RE "" block in
  let inner := sub_const true DIV_CLOSE_RE "" inner in
  converted ← inline self inner;
  Some (set_collapse false (collapse_lines st)
          (emit ("<aside class='collapsible'>" +:+ header_html +:+ converted +:+ "</aside>")
             st)).

(** *** Lines in normal mode *)

(** [for i in range(current_depth, level)]: open the missing levels. *)
Fixpoint open_lists (n : nat) (marker_type : ascii) (st : cstate) : cstate :=
  match n with
  | O => st
  | S n' => open_lists n' marker_type (push_list marker_type st)
  end.

Definition heading_block (m : mobj) : string :=
  let level := Nat.min (String.length (default "" (group 1 m))) 6 in
  let content := strip (default "" (group 2 m)) in
  let hid := heading_id content in
  "<h" +:+ pretty level +:+ " id='" +:+ escape hid +:+ "'>" +:+ escape content
  +:+ "</h" +:+ pretty level +:+ ">".

Definition list_item (m : mobj) (st : cstate) : option cstate :=
  let markers := default "" (group 1 m) in
  let body := default "" (group 2 m) in
  let level := String.length markers in
  let marker_type := default "*"%char (last_char markers) in
  let current_depth := length (list_stack st) in
  let st := open_lists (level - current_depth) marker_type st in
  let st := if (level <? current_depth)%nat then close_lists level st else st in
  let st :=
    match level, list_stack st with
    | S _, top :: _ =>
        if negb (Ascii.eqb top marker_type)
        then push_list marker_type (close_lists (level - 1) st)
        else st
    | _, _ => st
    end in
  body_html ← inline self body;
  Some (emit ("<li>" +:+ body_html +:+ "</li>") st).

(** The part of the loop body after the table and collapsible tests. *)
Definition normal_line (st : cstate) (line : string) : option cstate :=
  let '(line, c) := strip_categories line (categories st, cat_set st) in
  let st := set_cats c st in
  if negb (truthy (strip line)) then Some (emit "" (close_lists 0 st))
  else
    match re_match false HEADING_RE line with
    | Some m => Some (emit (heading_block m) (close_lists 0 st))
    | None =>
        match re_match false LIST_ITEM_RE line with
        | Some m => list_item m st
        | None =>
            let st := close_lists 0 st in
            p ← inline self line;
            Some (emit ("<p>" +:+ p +:+ "</p>") st)
        end
    end.

(** The body of [for raw in lines]. *)
Definition convert_line (st : cstate) (raw : string) : option cstate :=
  let line := rstrip_chars nl raw in
  if negb (in_collapse st) && negb (in_table st) && startswith (lstrip line) "{|" then
    Some (set_table true [line] st)
  else if in_table st then
    let st := set_table true (table_lines st ++ [line]) st in
    if startswith (strip line) "|}" then finish_table st else Some st
  else if negb (in_collapse st)
          && bool_decide (is_Some (re_search true COLLAPSIBLE_OPEN_RE line)) then
    Some (set_collapse true [line] st)
  else if in_collapse st then
    let st := set_collapse true (collapse_lines st ++ [line]) st in
    if contains "</div>" (lower line) then finish_collapse st else Some st
  else normal_line st line.

Fixpoint convert_lines (st : cstate) (lines : list string) : option cstate :=
  match lines with
  | [] => Some st
  | raw :: lines' => st' ← convert_line st raw; convert_lines st' lines'
  end.

(** The ten rounds of template removal. *)
Fixpoint strip_templates (rounds : nat) (text : string) : string :=
  match rounds with
  | O => text
  | S rounds' =>
      let new_text := sub_const false TEMPLATE_RE "" text in
      if String.eqb new_text text then text else strip_templates rounds' new_text
  end.

(** The loop of [convert] over the lines of a page that is no redirect,
    with the closing [close_lists(0)]. *)
Definition convert_body (text : string) : option cstate :=
  let text := strip_templates 10 text in
  let lines := split_char "010" text in
  st ← convert_lines cstate_init lines;
  Some (close_lists 0 st).

(** [convert(title, text)]: the page body and its categories. *)
Definition convert (title text : string) : option (string * list string) :=
  let text := remove_char "013" text in
  match re_match true REDIRECT_RE text with
  | Some redirect_match =>
      let target_raw := strip (default "" (group 1 redirect_match)) in
      let target_html := _link_for_target self target_raw None in
      let html := "<div class='redirectbox'>Redirect to " +:+ target_html +:+ "</div>" in
      Some (html, [])
  | None =>
      st ← convert_body text;
      Some (join nl (html_lines st), categories st)
  end.

End Convert.

(** ** Slugs and file names in [build_pages] *)

Record Revision := {
  rev_id : string;
  rev_timestamp : string;
  rev_text : string
}.

Record RawPage := {
  raw_title : string;
  raw_revisions : list Revision
}.

Definition latest_text (raw : RawPage) : string :=
  match last (raw_revisions raw) with
  | Some r => rev_text r
  | None => ""
  end.

Record Page := {
  title : string;
  text : string;
  slug : string;
  page_categories : list string;
  revisions : list Revision
}.

(** [d.setdefault(k, v)] on the slug table. *)
Definition setdefault (k v : string) (d : gmap string string) : gmap string string :=
  match d !! k with
  | Some _ => d
  | None => <[k := v]> d
  end.

(** What the first loop of [build_pages] builds: the set of used slugs,
    the slug table of the converter and the pages. *)
Record registry := {
  used_slugs : gset string;
  slug_table : gmap string string;
  page_objects : list Page
}.

Definition register_page (reg : registry) (raw : RawPage) : option registry :=
  '(slug, used) ← slugify (raw_title raw) (used_slugs reg);
  let norm := normalize_title (raw_title raw) in
  let table := <[raw_title raw := slug]> (slug_table reg) in
  let table := setdefault norm slug table in
  let table := setdefault (replace_char " " "_" (raw_title raw)) slug table in
  let table := setdefault (replace_char " " "_" norm) slug table in
  Some {| used_slugs := used; slug_table := table;
          page_objects := page_objects reg ++
            [{| title := raw_title raw; text := latest_text raw; slug := slug;
                page_categories := []; revisions := raw_revisions raw |}] |}.

Fixpoint register_pages (reg : registry) (pages : list RawPage) : option registry :=
  match pages with
  | [] => Some reg
  | raw :: pages' => reg' ← register_page reg raw; register_pages reg' pages'
  end.

Definition limited {A : Type} (limit : option nat) (pages : list A) : list A :=
  match limit with
  | Some n => firstn n pages
  | None => pages
  end.

(** [category_map.setdefault(c, []).append(p)] on a dict kept in
    insertion order. *)
Fixpoint add_member (c : string) (p : Page) (category_map : list (string * list Page))
    : list (string * list Page) :=
  match category_map with
  | [] => [(c, [p])]
  | (k, ps) :: rest =>
      if String.eqb k c then (k, ps ++ [p]) :: rest
      else (k, ps) :: add_member c p rest
  end.

(** The second loop, as far as slugs and categories go: every page is
    converted and entered under its categories. *)
Fixpoint collect_categories (converter : WikiConverter) (pages : list Page)
    (category_map : list (string * list Page)) : option (list (string * list Page)) :=
  match pages with
  | [] => Some category_map
  | p :: pages' =>
      '(_, cats) ← convert converter (title p) (text p);
      collect_categories converter pages'
        (fold_left (fun m c => add_member c p m) cats category_map)
  end.

(** The target of every link to a category: the footer of a page, the
    index and [link_sub] all write [category_slug(c) + ".html"]. *)
Definition category_href (c : string) : string := category_slug c +:+ ".html".

(** The [while final_slug in used_slugs] loop of the category listing;
    [None] is the loop out of fuel, and [size used] rounds suffice. *)
Fixpoint final_slug_loop (fuel : nat) (cslug final_slug : string) (i : nat)
    (used : gset string) : option string :=
  if bool_decide (final_slug ∈ used) then
    match fuel with
    | O => None
    | S fuel' => final_slug_loop fuel' cslug (cslug +:+ "-" +:+ pretty i) (S i) used
    end
  else Some final_slug.

Definition category_filename (used : gset string) (ext cat : string) : option string :=
  let cslug := category_slug cat in
  final_slug ← final_slug_loop (size used) cslug cslug 2 used;
  Some (final_slug +:+ ext).

(** [sorted(items, key=lambda kv: kv[0].lower())]: a stable sort on the
    lower-cased key, strings compared code point by code point. *)
Fixpoint insert_sorted {A : Type} (x : string * A) (l : list (string * A))
    : list (string * A) :=
  match l with
  | [] => [x]
  | y :: l' =>
      if String.ltb (lower x.1) (lower y.1) then x :: l
      else y :: insert_sorted x l'
  end.

Definition sorted_by_lower {A : Type} (l : list (string * A)) : list (string * A) :=
  fold_left (fun acc x => insert_sorted x acc) l [].

(** The names of the files [build_pages] writes in HTML mode for the
    pages and for the category listings, the latter with their category. *)
Definition build_pages_files (pages : list RawPage) (limit : option nat)
    : option (list string * list (string * string)) :=
  reg ← register_pages {| used_slugs := ∅; slug_table := ∅; page_objects := [] |}
          (limited limit pages);
  let converter := {| page_slugs := slug_table reg; mode := "html" |} in
  category_map ← collect_categories converter (page_objects reg) [];
  cat_files ← mapM (fun kv : string * list Page =>
                      f ← category_filename (used_slugs reg) ".html" kv.1;
                      Some (kv.1, f)) (sorted_by_lower category_map);
  Some (map (fun p => slug p +:+ ".html") (page_objects reg), cat_files).

(** ** Example pages and the claims' measures

    The inputs the properties below are checked on, and the quantities the
    specification speaks of but the source does not name. *)

Definition html_converter : WikiConverter := {| page_slugs := ∅; mode := "html" |}.
Definition markdown_converter : WikiConverter := {| page_slugs := ∅; mode := "markdown" |}.

Definition rows_of (lines : list string) : list (list cell) :=
  rows (parse_table lines ([], ∅)).

(** A table of three rows of 1, 1 and 2 cells. *)
Definition table_112 : list string :=
  ["{|"; "| a"; "|-"; "| c"; "|-"; "| e || f"; "|}"].

Definition one_one_two : list (list cell) := rows_of table_112.

(** The three tables of three rows: all rows of two cells; the last row
    of three cells; the last two rows of three cells. *)
Definition table_222 : list string :=
  ["{|"; "| a || b"; "|-"; "| c || d"; "|-"; "| e || f"; "|}"].
Definition table_223 : list string :=
  ["{|"; "| a || b"; "|-"; "| c || d"; "|-"; "| e || f || g"; "|}"].
Definition table_233 : list string :=
  ["{|"; "| a || b"; "|-"; "| c || d || x"; "|-"; "| e || f || g"; "|}"].

Definition abc_lines : list string := ["* a"; "** b"; "* c"].

(** The lines of the output strictly between the first line equal to
    [from] and the next line equal to [to]. *)
Fixpoint lines_until (to : string) (lines : list string) : list string :=
  match lines with
  | [] => []
  | l :: lines' => if String.eqb l to then [] else l :: lines_until to lines'
  end.

Fixpoint lines_between (from to : string) (lines : list string) : list string :=
  match lines with
  | [] => []
  | l :: lines' =>
      if String.eqb l from then lines_until to lines' else lines_between from to lines'
  end.

Definition is_list_close (l : string) : bool :=
  String.eqb l "</ul>" || String.eqb l "</ol>".

Definition closes_between (from to : string) (lines : list string) : nat :=
  length (filter (fun l => is_list_close l = true) (lines_between from to lines)).

(** ** Shapes of texts and states

    The predicates the properties are stated with. *)

(** Every character of [s] satisfies [p]. *)
Fixpoint all_chars (p : ascii -> bool) (s : string) : bool :=
  match s with
  | EmptyString => true
  | String c s' => p c && all_chars p s'
  end.

(** The first character of [s], if any, is no match of [a]. *)
Definition stops (ic : bool) (a : atom) (s : string) : bool :=
  match s with
  | EmptyString => true
  | String c _ => negb (atom_matches ic a c)
  end.

(** [chars_match ic p s]: [s] is the literal [p] as the matcher compares
    characters. *)
Fixpoint chars_match (ic : bool) (p s : string) : bool :=
  match p, s with
  | EmptyString, EmptyString => true
  | String c p', String d s' => atom_matches ic (AChar c) d && chars_match ic p' s'
  | _, _ => false
  end.

Definition no_bracket (s : string) : bool :=
  all_chars (fun c => negb (Ascii.eqb c "]")) s.

(** The recorded categories and the two run flags of a state. *)
Definition marks (st : cstate) : list string * gset string * bool * bool :=
  (categories st, cat_set st, in_collapse st, in_table st).

(** A table and a collapsible block are never open together. *)
Definition one_run (st : cstate) : Prop := in_collapse st = true -> in_table st = false.

(** [opens_collapsible st raw]: outside a table and a collapsible block,
    the line is no start of a table and holds the opening tag of a
    collapsible container. *)
Definition opens_collapsible (st : cstate) (raw : string) : Prop :=
  in_collapse st = false /\ in_table st = false
  /\ startswith (lstrip (rstrip_chars nl raw)) "{|" = false
  /\ is_Some (re_search true COLLAPSIBLE_OPEN_RE (rstrip_chars nl raw)).

(** [normal_mode st raw]: no table and no collapsible block is open, and
    the line starts neither. *)
Definition normal_mode (st : cstate) (raw : string) : Prop :=
  in_collapse st = false /\ in_table st = false
  /\ startswith (lstrip (rstrip_chars nl raw)) "{|" = false
  /\ re_search true COLLAPSIBLE_OPEN_RE (rstrip_chars nl raw) = None.

(** ** File embeds and category pages *)



(** A token of a file embed that is a candidate caption: not empty and
    none of the technical options. *)
Definition caption_token (opt : string) : bool :=
  let o := strip opt in
  truthy o
  && negb (startswith (lower o) "alt=")
  && negb (startswith (lower o) "link=")
  && negb (bool_decide (is_Some (re_match true size_re o)))
  && negb (bool_decide (is_Some (re_match true upright_re o)))
  && negb (mem_str (lower o) alignment_tokens)
  && negb (mem_str (lower o) frame_tokens)
  && negb (mem_str (lower o) known_flags).

Definition set_caption (idx : nat) (f : file_opts) : file_opts :=
  {| width := width f; height := height f; alt_text := alt_text f;
     link_target := link_target f; classes := classes f;
     technical_indices := technical_indices f;
     last_explicit_caption_idx := Some idx;
     explicit_size := explicit_size f |}.

(** The options [thumb] and [link=https://youtu.be/xyz] once read. *)
Definition thumb_link_opts : file_opts :=
  {| width := 600; height := 400; alt_text := None;
     link_target := Some "https://youtu.be/xyz";
     classes := ["file-ref"; "mode-thumb"];
     technical_indices := {[1%nat]} ∪ ({[0%nat]} ∪ ∅);
     last_explicit_caption_idx := None; explicit_size := false |}.

(** The figure of a thumbnail of [filename] linked to the video, up to
    the end of the file name. *)
Definition figure_open (filename : string) : string :=
  "<figure class=" +:+ dq +:+ "file-ref mode-thumb" +:+ dq
  +:+ "><a href='https://youtu.be/xyz'><img class=" +:+ dq +:+ "placeholder-img" +:+ dq
  +:+ " src='https://placehold.co/600x400?text=" +:+ filename +:+ "' alt='" +:+ filename
  +:+ "' loading='lazy'/></a><div class=" +:+ dq +:+ "file-name" +:+ dq +:+ ">"
  +:+ filename +:+ "</div>".

Definition category_foo_pages : list RawPage :=
  [{| raw_title := "Category Foo";
      raw_revisions :=
        [{| rev_id := "1"; rev_timestamp := "2020-01-01T00:00:00Z";
            rev_text := "About foo. [[Category:Foo]]" |}] |}].
(** ** Further definitions

    The measures and shapes the further properties are stated with. *)

Definition registry_init : registry :=
  {| used_slugs := ∅; slug_table := ∅; page_objects := [] |}.

(** The last page of [pages] with the title [t]. *)
Definition last_titled (t : string) (pages : list Page) : option Page :=
  last (filter (fun p => title p = t) pages).

Definition two_pages_one_title : list RawPage :=
  [ {| raw_title := "Max"; raw_revisions := [] |};
    {| raw_title := "Max"; raw_revisions := [] |} ].

(** The number of characters [c] a text starts with. *)
Fixpoint count_leading (c : ascii) (s : string) : nat :=
  match s with
  | String d s' => if Ascii.eqb d c then S (count_leading c s') else 0%nat
  | EmptyString => 0%nat
  end.

(** The character item a match of the pattern has to start with. *)
Fixpoint first_atom (r : regex) : option atom :=
  match r with
  | RAtom a => Some a
  | RSeq r1 _ => first_atom r1
  | RGroup _ r' => first_atom r'
  | _ => None
  end.

Fixpoint repeat_char (c : ascii) (n : nat) : string :=
  match n with
  | O => EmptyString
  | S n' => String c (repeat_char c n')
  end.

(** A template nested [n] levels deep around the text [x]. *)
Fixpoint nested (n : nat) (x : string) : string :=
  match n with
  | O => x
  | S n' => "{{" +:+ nested n' x +:+ "}}"
  end.

Definition no_brace (s : string) : bool :=
  all_chars (fun c => negb (mem_char c "{}")) s.

(** The size option of a width of 400 decimal digits. *)
Definition huge_size : string := "1" +:+ repeat_char "0" 399 +:+ "px".

Definition is_slug_char (c : ascii) : bool :=
  in_range 97 122 c || in_range 48 57 c || Ascii.eqb c "-".

Definition first_char (s : string) : option ascii :=
  match s with
  | String c _ => Some c
  | EmptyString => None
  end.

(** A clean slug: not empty, of lower-case letters, digits and [-] only,
    with no [-] at either end. *)
Definition clean_slug (s : string) : Prop :=
  s <> "" /\ all_chars is_slug_char s = true
  /\ first_char s <> Some "-"%char /\ last_char s <> Some "-"%char.

(** The list of categories has no repetition and the set beside it holds
    its elements. *)
Definition cats_ok (c : cats) : Prop := NoDup c.1 /\ c.2 = list_to_set c.1.

Definition state_cats (st : cstate) : cats := (categories st, cat_set st).

Definition open_tag_of (l : string) : option string :=
  if String.eqb l "<ul>" then Some "ul"
  else if String.eqb l "<ol>" then Some "ol" else None.

Definition close_tag_of (l : string) : option string :=
  if String.eqb l "</ul>" then Some "ul"
  else if String.eqb l "</ol>" then Some "ol" else None.

(** Reading the lines of the output as list tags: an opening tag is
    pushed, a closing tag has to close the list opened last. *)
Fixpoint replay_tags (lines : list string) (stack : list string) : option (list string) :=
  match lines with
  | [] => Some stack
  | l :: lines' =>
      match open_tag_of l, close_tag_of l with
      | Some t, _ => replay_tags lines' (t :: stack)
      | None, Some t =>
          match stack with
          | top :: stack' => if String.eqb top t then replay_tags lines' stack' else None
          | [] => None
          end
      | None, None => replay_tags lines' stack
      end
  end.

Definition tag_free (l : string) : bool :=
  match open_tag_of l, close_tag_of l with
  | None, None => true
  | _, _ => false
  end.

(** The open lists of a state are those the output so far has opened. *)
Definition balanced (st : cstate) : Prop :=
  replay_tags (html_lines st) [] = Some (list_tag <$> list_stack st).

Definition closes_table (raw : string) : bool :=
  startswith (strip (rstrip_chars nl raw)) "|}".

Definition closes_collapsible (raw : string) : bool :=
  contains "</div>" (lower (rstrip_chars nl raw)).

Definition rows_ok (t : tstate) : Prop := Forall (fun r : list cell => r <> []) (rows t).

(** The entries of the category map while the categories of the page
    [p] are entered: [seen] are the pages entered before [p], [done] the
    categories of [p] entered so far. *)
Definition entry_ok (seen : list Page) (p : Page) (done : list string)
    (k : string) (ps : list Page) : Prop :=
  NoDup (slug <$> ps) /\ ps <> []
  /\ (forall q, q ∈ ps -> q ∈ seen \/ q = p)
  /\ (k ∉ done -> forall q, q ∈ ps -> q ∈ seen).

Definition map_ok (seen : list Page) (m : list (string * list Page)) : Prop :=
  NoDup (fst <$> m)
  /\ Forall (fun kv => NoDup (slug <$> kv.2) /\ kv.2 <> []
                       /\ forall q, q ∈ kv.2 -> q ∈ seen) m.

Definition page_one : Page :=
  {| title := "One"; text := "[[Category:A]] and again [[Category:A]]"; slug := "one";
     page_categories := []; revisions := [] |}.

Definition page_two : Page :=
  {| title := "Two"; text := "[[category: A ]]"; slug := "two";
     page_categories := []; revisions := [] |}.

Definition backslash : string := String "092" EmptyString.

(** [yaml_quote(s)]: backslashes are doubled, then double quotes get a
    backslash, and the result is put between double quotes. *)
Definition yaml_quote (s : string) : string :=
  dq +:+ replace_str dq (backslash +:+ dq)
           (replace_str backslash (backslash +:+ backslash) s) +:+ dq.

(** Every character replaced by a text. *)
Fixpoint expand (f : ascii -> string) (s : string) : string :=
  match s with
  | EmptyString => EmptyString
  | String c s' => f c +:+ expand f s'
  end.

(** Reading a backslash and the character after it as that character. *)
Fixpoint drop_escapes (s : string) : string :=
  match s with
  | EmptyString => EmptyString
  | String c s' =>
      if Ascii.eqb c "092" then
        match s' with
        | String d s'' => String d (drop_escapes s'')
        | EmptyString => EmptyString
        end
      else String c (drop_escapes s')
  end.

Definition yaml_body (s : string) : string :=
  expand (fun c => if Ascii.eqb c "034" then backslash +:+ dq else String c "")
    (expand (fun c => if Ascii.eqb c "092" then backslash +:+ backslash else String c "") s).

Definition NS : string := "{http://www.mediawiki.org/xml/export-0.10/}".

(** An element as [xml.etree] hands it out: its tag, its text ([None]
    for an element without text) and its children. *)
#[local] Unset Elimination Schemes.
Inductive element :=
| Element (e_tag : string) (e_text : option string) (e_children : list element).
#[local] Set Elimination Schemes.

Definition e_tag (e : element) : string := match e with Element t _ _ => t end.
Definition e_text (e : element) : option string := match e with Element _ x _ => x end.
Definition e_children (e : element) : list element :=
  match e with Element _ _ cs => cs end.

Inductive event := EvStart | EvEnd.

(** [elem.find(tag)]: the first child with that tag. *)
Definition find (name : string) (elem : element) : option element :=
  List.find (fun c => String.eqb (e_tag c) name) (e_children elem).

(** [el.text if el is not None and el.text else d] *)
Definition text_or (el : option element) (d : string) : string :=
  match el with
  | Some e =>
      match e_text e with
      | Some t => if truthy t then t else d
      | None => d
      end
  | None => d
  end.

(** The variables of the generator.  [page_revisions] names a list by its
    place in [lists], the lists created so far, so that a list a yielded
    page holds can still grow; [yielded] are the pages handed out, each
    with the place of its list. *)
Record iter_state := {
  page_title : option string;
  page_revisions : nat;
  lists : list (list Revision);
  yielded : list (string * nat)
}.

Definition iter_init : iter_state :=
  {| page_title := None; page_revisions := 0; lists := [[]]; yielded := [] |}.

Definition revision_of (elem : element) : Revision :=
  {| rev_id := text_or (find (NS +:+ "id") elem) "0";
     rev_timestamp := text_or (find (NS +:+ "timestamp") elem) "";
     rev_text := text_or (find (NS +:+ "text") elem) "" |}.

(** The body of [for event, elem in context].  ([elem.clear()] at the end
    of a page empties an element nothing reads afterwards.) *)
Definition iter_step (keep_revisions : bool) (st : iter_state) (ev : event * element)
    : iter_state :=
  let tag := e_tag ev.2 in
  match ev.1 with
  | EvStart =>
      if String.eqb tag (NS +:+ "page") then
        {| page_title := None; page_revisions := length (lists st);
           lists := lists st ++ [[]]; yielded := yielded st |}
      else st
  | EvEnd =>
      if String.eqb tag (NS +:+ "title") then
        {| page_title := Some (default "" (e_text ev.2));
           page_revisions := page_revisions st; lists := lists st;
           yielded := yielded st |}
      else if String.eqb tag (NS +:+ "revision") then
        let rev := revision_of ev.2 in
        if keep_revisions then
          {| page_title := page_title st; page_revisions := page_revisions st;
             lists := <[page_revisions st :=
                          default [] (lists st !! page_revisions st) ++ [rev]]> (lists st);
             yielded := yielded st |}
        else
          {| page_title := page_title st; page_revisions := length (lists st);
             lists := lists st ++ [[rev]]; yielded := yielded st |}
      else if String.eqb tag (NS +:+ "page") then
        match default "" (page_title st), default [] (lists st !! page_revisions st) with
        | String _ _, _ :: _ =>
            {| page_title := page_title st; page_revisions := page_revisions st;
               lists := lists st;
               yielded := yielded st ++ [(default "" (page_title st), page_revisions st)] |}
        | _, _ => st
        end
      else st
  end.

(** [list(iter_pages(dump_path, keep_revisions))] on the events of the
    parser: the pages handed out, each with its list as it is at the end. *)
Definition iter_pages (keep_revisions : bool) (events : list (event * element))
    : list RawPage :=
  let st := fold_left (iter_step keep_revisions) events iter_init in
  map (fun y : string * nat =>
         {| raw_title := y.1; raw_revisions := default [] (lists st !! y.2) |})
      (yielded st).

(** The events of a document: every element starts, its children follow,
    and it ends. *)
Fixpoint events (e : element) : list (event * element) :=
  match e with
  | Element _ _ cs =>
      (EvStart, e)
      :: (fix go (cs : list element) : list (event * element) :=
            match cs with
            | [] => []
            | c :: cs' => events c ++ go cs'
            end) cs
      ++ [(EvEnd, e)]
  end.

(** A dump in the usual shape. *)
Definition text_of (s : string) : option string :=
  match s with EmptyString => None | _ => Some s end.

Definition leaf (name s : string) : element := Element (NS +:+ name) (text_of s) [].

Definition revision_element (r : Revision) : element :=
  Element (NS +:+ "revision") None
    [leaf "id" (rev_id r); leaf "timestamp" (rev_timestamp r); leaf "text" (rev_text r)].

Definition page_element (raw : RawPage) : element :=
  Element (NS +:+ "page") None
    (leaf "title" (raw_title raw) :: map revision_element (raw_revisions raw)).

Definition dump_element (raws : list RawPage) : element :=
  Element (NS +:+ "mediawiki") None (map page_element raws).

(** What comes back of a revision: an empty id reads as ["0"]. *)
Definition read_revision (r : Revision) : Revision :=
  {| rev_id := str_or (rev_id r) "0"; rev_timestamp := rev_timestamp r;
     rev_text := rev_text r |}.

Definition last_only {A : Type} (l : list A) : list A :=
  match last l with Some x => [x] | None => [] end.

(** What comes back of a page: nothing without a title or without
    revisions. *)
Definition read_page (keep_revisions : bool) (raw : RawPage) : option RawPage :=
  match raw_title raw, raw_revisions raw with
  | String _ _, _ :: _ =>
      let revs := map read_revision (raw_revisions raw) in
      Some {| raw_title := raw_title raw;
              raw_revisions := if keep_revisions then revs else last_only revs |}
  | _, _ => None
  end.

(** The pages handed out, with their lists as they are in [st]. *)
Definition handed_out (st : iter_state) : list RawPage :=
  map (fun y : string * nat =>
         {| raw_title := y.1; raw_revisions := default [] (lists st !! y.2) |})
      (yielded st).

Definition shown (keep_revisions : bool) (revs : list Revision) : list Revision :=
  if keep_revisions then map read_revision revs else last_only (map read_revision revs).

(** A dump with revision elements after its last page, outside any page. *)
Definition dump_with_strays (raws : list RawPage) (strays : list Revision) : element :=
  Element (NS +:+ "mediawiki") None
    (map page_element raws ++ map revision_element strays).

(** [s[:1].upper() + s[1:]] *)
Definition capitalized (s : string) : string := upper (take 1 s) +:+ drop 1 s.

Definition no_char (c : ascii) (s : string) : bool :=
  all_chars (fun d => negb (Ascii.eqb d c)) s.

(** No white space at either end. *)
Definition trimmed (s : string) : Prop :=
  match first_char s with Some c => isspace c = false | None => True end
  /\ match last_char s with Some c => isspace c = false | None => True end.

Definition starts_clean (s : string) : Prop :=
  match first_char s with Some c => isspace c = false | None => True end.

Definition ends_clean (s : string) : Prop :=
  match last_char s with Some c => isspace c = false | None => True end.

(** The body of [normalize_title] after the strip. *)
Definition title_body (t : string) : string :=
  match split_once ":" t with
  | Some (ns, rest) => ns +:+ ":" +:+ capitalized rest
  | None => capitalized t
  end.

Definition settled (t : string) : Prop :=
  t <> "" /\ no_char "_" t = true /\ starts_clean t /\ ends_clean t.

(** The titles whose letters keep their upper case inside the modelled
    code points: no U+00B5 and no U+00FF (see [upper]). *)
Definition upper_in_range (x : string) : bool :=
  no_char "181" x && no_char "255" x.


(** An option that names the link target: [link=...], in any case. *)
Definition is_link_opt (opt : string) : bool :=
  let o := strip opt in
  truthy o && negb (startswith (lower o) "alt=") && startswith (lower o) "link=".

(** The link target the options give: what follows [link=] in the last
    such option. *)
Definition given_link (opts : list string) : option string :=
  last (map (fun opt => strip (drop 5 (strip opt))) (List.filter is_link_opt opts)).

(** The caption the options give: the last candidate caption, or none. *)
Definition derived_caption (opts : list string) : string :=
  default "" (last (map strip (List.filter caption_token opts))).

(** The three conditions of the plain link: the link target is a YouTube
    URL, the file name contains "youtube", no caption was derived. *)
Definition youtube_case (filename : string) (opts : list string) : bool :=
  let link := default "" (given_link opts) in
  truthy link
  && (contains "youtube.com" (lower link) || contains "youtu.be" (lower link))
  && contains "youtube" (lower filename)
  && negb (truthy (derived_caption opts)).

Definition plain_youtube_link (self : WikiConverter) (link : string) : string :=
  if String.eqb (mode self) "markdown" then "[YouTube](" +:+ link +:+ ")"
  else "<a href='" +:+ escape link +:+ "'>YouTube</a>".

(** The placeholder image of a file embed. *)
Definition image_html (url alt : string) : string :=
  "<img class=" +:+ dq +:+ "placeholder-img" +:+ dq +:+ " src='" +:+ escape url
  +:+ "' alt='" +:+ escape alt +:+ "' loading='lazy'/>".

(** [is_figure filename caption r]: [r] is a figure element that holds
    the placeholder image, bare or inside an anchor, then the file name,
    and the escaped caption if there is one. *)
Definition is_figure (filename caption r : string) : Prop :=
  exists cls pre url alt post,
    (pre = "" /\ post = "" \/ exists href, pre = "<a href='" +:+ href +:+ "'>" /\ post = "</a>")
    /\ r = "<figure class=" +:+ dq +:+ cls +:+ dq +:+ ">"
           +:+ pre +:+ image_html url alt +:+ post
           +:+ "<div class=" +:+ dq +:+ "file-name" +:+ dq +:+ ">" +:+ escape filename
           +:+ "</div>"
           +:+ (if truthy caption
                then "<figcaption>" +:+ escape caption +:+ "</figcaption>" else "")
           +:+ "</figure>".

(** [is_md_image caption r]: [r] is a Markdown image, bare or inside a
    link, followed by the caption in italics if there is one. *)
Definition is_md_image (caption r : string) : Prop :=
  exists pre url alt post,
    (pre = "" /\ post = "" \/ exists href, pre = "[" /\ post = "](" +:+ href +:+ ")")
    /\ r = pre +:+ "![" +:+ alt +:+ "](" +:+ url +:+ ")" +:+ post
           +:+ (if truthy caption then " *" +:+ caption +:+ "*" else "").

(** What the option loop has read of a list of options. *)
Definition options_read (opts : list string) (f : file_opts) : Prop :=
  link_target f = given_link opts
  /\ (forall j, j ∈ technical_indices f ->
        exists o, opts !! j = Some o /\ caption_token o = false)
  /\ match last_explicit_caption_idx f with
     | Some i => exists c, opts !! i = Some c /\ caption_token c = true
                   /\ last (List.filter caption_token opts) = Some c
     | None => List.filter caption_token opts = []
     end.

(** * Properties *)

(** ** Slugs *)

Lemma length_app (a b : string) :
  String.length (a +:+ b) = (String.length a + String.length b)%nat.
Proof. induction a as [|c a IH]; simpl; [done | by rewrite IH]. Qed.

Lemma suffixed_ne_base (base : string) (i : nat) : base ≠ base +:+ "-" +:+ pretty i.
Proof.
  intros H. apply (f_equal String.length) in H.
  rewrite !length_app in H. simpl in H. lia.
Qed.

Lemma suffixed_inj (base : string) (i j : nat) :
  base +:+ "-" +:+ pretty i = base +:+ "-" +:+ pretty j → i = j.
Proof.
  intros H. apply (inj (String.app base)) in H.
  apply (inj (String.app "-")) in H. by apply (inj pretty) in H.
Qed.

(** A slug the loop returns is not in the set. *)
Lemma slugify_loop_fresh fuel base slug i used s :
  slugify_loop fuel base slug i used = Some s → s ∉ used.
Proof.
  revert slug i. induction fuel as [|fuel IH]; intros slug i; simpl;
    case_bool_decide; try done; try (intros [= <-]; done).
  apply IH.
Qed.

(** The loop ends within [size used] rounds: [U] holds the elements of
    [used] that the candidates still to come can hit. *)
Lemma slugify_loop_total_aux fuel base slug i (used U : gset string) :
  (∀ j, (i ≤ j)%nat → base +:+ "-" +:+ pretty j ∈ used →
        base +:+ "-" +:+ pretty j ∈ U) →
  (slug ∈ used → slug ∈ U) →
  (∀ j, (i ≤ j)%nat → slug ≠ base +:+ "-" +:+ pretty j) →
  (size U ≤ fuel)%nat →
  is_Some (slugify_loop fuel base slug i used).
Proof.
  revert slug i U. induction fuel as [|fuel IH]; intros slug i U Hc Hs Hne Hsz; simpl;
    case_bool_decide as Hin; try by eexists.
  - apply Hs in Hin. assert (size U = 0%nat) as Hz by lia.
    apply size_empty_inv in Hz. set_solver.
  - apply (IH _ _ (U ∖ {[slug]})).
    + intros j Hj Hju. apply elem_of_difference. split; [apply Hc; [lia | done] |].
      intros Heq%elem_of_singleton. apply (Hne j); [lia | done].
    + intros Hu. apply elem_of_difference. split; [apply Hc; [lia | done] |].
      intros Heq%elem_of_singleton. apply (Hne i); [lia | done].
    + intros j Hj Heq%suffixed_inj. lia.
    + apply Hs in Hin.
      assert (size U ≠ 0%nat) as Hpos.
      { intros Hz%size_empty_inv. by apply (not_elem_of_empty (C:=gset string) slug), Hz. }
      rewrite size_difference by (by apply singleton_subseteq_l).
      rewrite size_singleton. lia.
Qed.

Lemma slugify_loop_total base (used : gset string) :
  is_Some (slugify_loop (size used) base base 2 used).
Proof.
  apply (slugify_loop_total_aux _ _ _ _ _ used); try done.
  intros j _. apply suffixed_ne_base.
Qed.

(** [slugify] always returns. *)
Lemma slugify_total title used : is_Some (slugify title used).
Proof.
  unfold slugify. destruct (slugify_loop_total (base_slug title) used) as [s ->].
  by eexists.
Qed.

Lemma slugify_fresh title used s u :
  slugify title used = Some (s, u) → (s ∉ used) ∧ u = ({[s]} ∪ used).
Proof.
  unfold slugify. intros H.
  destruct (slugify_loop _ _ _ _ _) as [s'|] eqn:E; simplify_eq/=.
  split; [by eapply slugify_loop_fresh | done].
Qed.

(** C7: [slugify] is a function of the title and the set; from a fresh
    empty set it returns the base slug of the title; a second call with
    the same title on the set the first call left returns the base slug
    followed by [-2], which differs from the first; and on any shared set
    two calls in a row with one title return two different slugs. *)
Theorem slugify_fresh_then_twice (T : string) :
  slugify T ∅ = Some (base_slug T, {[base_slug T]})
  ∧ slugify T {[base_slug T]}
    = Some (base_slug T +:+ "-2", {[base_slug T +:+ "-2"]} ∪ {[base_slug T]})
  ∧ base_slug T ≠ base_slug T +:+ "-2"
  ∧ ∀ used : gset string, ∃ s1 u1 s2 u2,
      slugify T used = Some (s1, u1) ∧ slugify T u1 = Some (s2, u2) ∧ s1 ≠ s2.
Proof.
  split; [| split; [| split]].
  - unfold slugify. rewrite size_empty. simpl.
    rewrite bool_decide_eq_false_2; [| set_solver].
    simpl. by rewrite union_empty_r_L.
  - unfold slugify. rewrite size_singleton. simpl.
    rewrite bool_decide_eq_true_2; [| set_solver].
    rewrite bool_decide_eq_false_2; [done |].
    intros Hin%elem_of_singleton. by apply (suffixed_ne_base (base_slug T) 2).
  - apply (suffixed_ne_base (base_slug T) 2).
  - intros used.
    destruct (slugify_total T used) as [[s1 u1] H1].
    destruct (slugify_total T u1) as [[s2 u2] H2].
    exists s1, u1, s2, u2. split; [done | split; [done |]].
    apply slugify_fresh in H1 as [_ ->]. apply slugify_fresh in H2 as [Hn _].
    set_solver.
Qed.
(** ** Floats: the two integer thresholds of the source *)

Section FloatFacts.
Import B64.

Lemma up_pos e : 0 < up e.
Proof. unfold up. apply Z.pow_pos_nonneg; lia. Qed.

Lemma dn_pos e : 0 < dn e.
Proof. unfold dn. apply Z.pow_pos_nonneg; lia. Qed.

(** [2^(e+k) = 2^e * 2^k], written without negative exponents. *)
Lemma pow2_shift e k : up (e + k) * (dn e * dn k) = dn (e + k) * (up e * up k).
Proof.
  unfold up, dn. rewrite <- !Z.pow_add_r by lia. f_equal. lia.
Qed.

Lemma up_nonneg e : 0 <= e -> up e = 2 ^ e /\ dn e = 1.
Proof.
  intros H. unfold up, dn. rewrite Z.max_l, Z.max_r by lia. done.
Qed.

Lemma dn_nonpos e : e <= 0 -> up e = 1 /\ dn e = 2 ^ (- e).
Proof.
  intros H. unfold up, dn. rewrite Z.max_r, Z.max_l by lia. done.
Qed.

Lemma above_mono k k' p q :
  0 < p -> 0 < q -> k <= k' -> above k' p q -> above k p q.
Proof.
  unfold above. intros Hp Hq Hk H.
  pose proof (pow2_shift k (k' - k)) as E. replace (k + (k' - k)) with k' in E by lia.
  destruct (up_nonneg (k' - k)) as [E1 E2]; [lia |]. rewrite E2 in E.
  assert (1 <= up (k' - k)) by (pose proof (up_pos (k' - k)); lia).
  pose proof (up_pos k). pose proof (dn_pos k). pose proof (up_pos k'). pose proof (dn_pos k').
  assert (q * up k * dn k' <= p * dn k * dn k'); [| nia].
  assert (q * up k * dn k' * up (k' - k) <= p * dn k * dn k') by nia.
  nia.
Qed.

Lemma above_unique k k' p q :
  0 < p -> 0 < q ->
  above k p q -> ~ above (k + 1) p q ->
  above k' p q -> ~ above (k' + 1) p q -> k = k'.
Proof.
  intros Hp Hq A1 N1 A2 N2.
  destruct (Z.lt_trichotomy k k') as [H | [H | H]]; [| done |].
  - destruct N1. apply (above_mono _ k'); [done | done | lia | done].
  - destruct N2. apply (above_mono _ k); [done | done | lia | done].
Qed.

Lemma ilog2_spec p q :
  0 < p -> 0 < q -> above (ilog2 p q) p q /\ ~ above (ilog2 p q + 1) p q.
Proof.
  intros Hp Hq. unfold ilog2, above.
  pose proof (Z.log2_spec p Hp) as [Pa Pb]. pose proof (Z.log2_spec q Hq) as [Qa Qb].
  pose proof (Z.log2_nonneg p) as Ha. pose proof (Z.log2_nonneg q) as Hb.
  set (a := Z.log2 p) in *. set (b := Z.log2 q) in *.
  replace (Z.succ a) with (a + 1) in Pb by lia.
  replace (Z.succ b) with (b + 1) in Qb by lia.
  destruct (Z.ltb_spec (p * dn (a - b)) (q * up (a - b))) as [T | T].
  - replace (a - b - 1 + 1) with (a - b) by lia. split; [| lia].
    pose proof (pow2_shift (b + 1) (a - b - 1)) as E.
    replace (b + 1 + (a - b - 1)) with a in E by lia.
    destruct (up_nonneg a Ha) as [E1 E2]. destruct (up_nonneg (b + 1)) as [E3 E4]; [lia |].
    rewrite E1, E2, E3, E4 in E.
    pose proof (up_pos (a - b - 1)). pose proof (dn_pos (a - b - 1)). nia.
  - split; [done |].
    pose proof (pow2_shift b (a - b + 1)) as E.
    replace (b + (a - b + 1)) with (a + 1) in E by lia.
    destruct (up_nonneg (a + 1)) as [E1 E2]; [lia |]. destruct (up_nonneg b Hb) as [E3 E4].
    rewrite E1, E2, E3, E4 in E.
    pose proof (up_pos (a - b + 1)). pose proof (dn_pos (a - b + 1)). nia.
Qed.

Lemma rne_bounds a b :
  0 <= a -> 0 < b ->
  2 * (rne a b * b) <= 2 * a + b /\ 2 * a <= 2 * (rne a b * b) + b /\ 0 <= rne a b.
Proof.
  intros Ha Hb. unfold rne.
  pose proof (Z.div_mod a b ltac:(lia)) as E.
  pose proof (Z.mod_pos_bound a b Hb) as R.
  pose proof (Z.div_pos a b Ha Hb) as Q.
  repeat case_match; rewrite ?Z.ltb_lt, ?Z.ltb_ge in *; nia.
Qed.

Lemma rne_scale c a b : 0 < c -> 0 < b -> rne (c * a) (c * b) = rne a b.
Proof.
  intros Hc Hb. unfold rne.
  rewrite Z.div_mul_cancel_l by lia. rewrite Z.mul_mod_distr_l by lia.
  assert ((2 * (c * (a mod b)) <? c * b) = (2 * (a mod b) <? b)) as ->.
  { destruct (Z.ltb_spec (2 * (a mod b)) b), (Z.ltb_spec (2 * (c * (a mod b))) (c * b));
      try done; nia. }
  assert ((c * b <? 2 * (c * (a mod b))) = (b <? 2 * (a mod b))) as ->.
  { destruct (Z.ltb_spec b (2 * (a mod b))), (Z.ltb_spec (c * b) (2 * (c * (a mod b))));
      try done; nia. }
  done.
Qed.

Lemma rne_exact a b : 0 < b -> rne (a * b) b = a.
Proof.
  intros Hb. unfold rne. rewrite Z.div_mul, Z.mod_mul by lia.
  destruct (Z.ltb_spec (2 * 0) b); [done | lia].
Qed.

Lemma ilog2_scale c p q : 0 < c -> 0 < p -> 0 < q -> ilog2 (c * p) (c * q) = ilog2 p q.
Proof.
  intros Hc Hp Hq.
  destruct (ilog2_spec (c * p) (c * q)) as [A N]; [nia | nia |].
  destruct (ilog2_spec p q) as [A' N']; [done | done |].
  apply (above_unique _ _ p q); try done.
  - unfold above in *. nia.
  - unfold above in *. nia.
Qed.

Lemma round_scale c p q : 0 < c -> 0 < p -> 0 < q -> round (c * p) (c * q) = round p q.
Proof.
  intros Hc Hp Hq. unfold round.
  rewrite ilog2_scale by done.
  destruct (Z.eqb_spec (c * p) 0); [nia |]. destruct (Z.eqb_spec p 0); [lia |].
  set (e := Z.max (ilog2 p q - 52) (-1074)).
  replace (c * p * dn e) with (c * (p * dn e)) by lia.
  replace (c * q * up e) with (c * (q * up e)) by lia.
  rewrite rne_scale; [done | done |]. pose proof (up_pos e). nia.
Qed.

Lemma rne_one a : rne a 1 = a.
Proof. rewrite <- (Z.mul_1_r a) at 1. apply rne_exact. lia. Qed.

(** The exponent [round] chooses for a quotient between [2^lo] and
    [2^(hi+1)]. *)
Lemma ilog2_between lo hi p q :
  0 < p -> 0 < q -> above lo p q -> ~ above (hi + 1) p q ->
  lo <= ilog2 p q <= hi.
Proof.
  intros Hp Hq A N. destruct (ilog2_spec p q Hp Hq) as [A' N'].
  split.
  - destruct (Z.le_gt_cases lo (ilog2 p q)); [done |].
    destruct N'. apply (above_mono _ lo); [done | done | lia | done].
  - destruct (Z.le_gt_cases (ilog2 p q) hi); [done |].
    destruct N. apply (above_mono _ (ilog2 p q)); [done | done | lia | done].
Qed.

(** [float(n)] is exact below [2^53]. *)
Lemma of_int_exact n :
  0 < n < 2 ^ 53 ->
  exists e, -52 <= e <= 0 /\ of_int n = Some (Fin (n * dn e) e).
Proof.
  intros [Hn Hlt]. unfold of_int, round.
  destruct (Z.eqb_spec n 0); [lia |].
  destruct (ilog2_between 0 52 n 1) as [L1 L2]; [lia | lia | | |].
  - unfold above. vm_compute (up 0). vm_compute (dn 0). lia.
  - unfold above. vm_compute (up (52 + 1)). vm_compute (dn (52 + 1)). lia.
  - set (lg := ilog2 n 1) in *. rewrite Z.max_l by lia.
    exists (lg - 52). split; [lia |].
    destruct (dn_nonpos (lg - 52)) as [-> E]; [lia |].
    rewrite Z.mul_1_l, rne_one.
    destruct (Z.ltb_spec 971 (lg - 52)); [lia |].
    destruct (Z.eqb_spec (lg - 52) 971); [lia |]. done.
Qed.

Lemma six_tenths_eq : six_tenths = Fin 5404319552844595 (-53).
Proof. vm_compute. reflexivity. Qed.

Lemma round_six_tenths n :
  1 <= n < 2 ^ 50 ->
  trunc (round (5404319552844595 * n) (2 ^ 53)) = Some (3 * n / 5).
Proof.
  intros [Hn Hlt]. unfold round.
  destruct (Z.eqb_spec (5404319552844595 * n) 0); [lia |].
  assert (0 < 5404319552844595 * n) as Hp by lia.
  assert (0 < 2 ^ 53) as Hq by lia.
  destruct (ilog2_spec _ _ Hp Hq) as [A N].
  destruct (ilog2_between (-1) 49 (5404319552844595 * n) (2 ^ 53)) as [L1 L2];
    [done | done | | |].
  { unfold above. vm_compute (up (-1)). vm_compute (dn (-1)). lia. }
  { unfold above. vm_compute (up (49 + 1)). vm_compute (dn (49 + 1)). lia. }
  set (lg := ilog2 (5404319552844595 * n) (2 ^ 53)) in *.
  rewrite Z.max_l by lia.
  destruct (dn_nonpos (lg - 52)) as [Eu Ed]; [lia |].
  pose proof (pow2_shift lg (-52)) as S1.
  pose proof (pow2_shift (lg + 1) (-53)) as S2.
  replace (lg + -52) with (lg - 52) in S1 by lia.
  replace (lg + 1 + -53) with (lg - 52) in S2 by lia.
  vm_compute (dn (-52)) in S1. vm_compute (up (-52)) in S1.
  vm_compute (dn (-53)) in S2. vm_compute (up (-53)) in S2.
  rewrite Eu in S1, S2. rewrite Eu.
  set (B := dn (lg - 52)) in *.
  assert (8 <= B) as HB.
  { rewrite Ed. change 8 with (2 ^ 3). apply Z.pow_le_mono_r; lia. }
  pose proof (up_pos lg) as U1. pose proof (dn_pos lg) as D1.
  pose proof (up_pos (lg + 1)) as U2. pose proof (dn_pos (lg + 1)) as D2.
  unfold above in A, N.
  assert (2 ^ 53 * 2 ^ 52 <= 5404319552844595 * n * B) as Lo by nia.
  assert (5404319552844595 * n * B < 2 ^ 53 * 2 ^ 53) as Hi by nia.
  destruct (rne_bounds (5404319552844595 * n * B) (2 ^ 53 * 1)) as (R1 & R2 & R3); [nia | lia |].
  set (m := rne (5404319552844595 * n * B) (2 ^ 53 * 1)) in *.
  destruct (Z.ltb_spec 971 (lg - 52)); [lia |].
  destruct (Z.eqb_spec (lg - 52) 971); [lia |].
  simpl. f_equal. rewrite Eu, Z.mul_1_r. change (dn (lg - 52)) with B.
  pose proof (Z.div_mod (3 * n) 5 ltac:(lia)) as E.
  pose proof (Z.mod_pos_bound (3 * n) 5 ltac:(lia)) as Rb.
  set (a := 3 * n / 5) in *. set (b := (3 * n) mod 5) in *.
  symmetry. apply (Z.div_unique m B a (m - a * B)); [| lia].
  left.
  assert (3 * (n * B) = 5 * (a * B) + b * B) as EB by nia.
  assert (0 <= b * B <= 4 * B) as HbB by nia.
  set (Y := n * B) in *. set (aB := a * B) in *. set (bB := b * B) in *.
  replace (5404319552844595 * n * B) with (5404319552844595 * Y) in * by (unfold Y; lia).
  change (2 ^ 53 * 1) with 9007199254740992 in *.
  change (2 ^ 53 * 2 ^ 52) with 40564819207303340847894502572032 in *.
  change (2 ^ 53 * 2 ^ 53) with 81129638414606681695789005144064 in *.
  lia.
Qed.

Lemma int_six_tenths_floor (n : nat) :
  Z.of_nat n < 2 ^ 50 -> int_six_tenths n = Some (3 * Z.of_nat n / 5).
Proof.
  intros Hlt. unfold int_six_tenths.
  destruct (Z.eq_dec (Z.of_nat n) 0) as [-> | Hz]; [by vm_compute |].
  destruct (of_int_exact (Z.of_nat n)) as (e & He & ->); [lia |].
  rewrite six_tenths_eq. simpl.
  destruct (dn_nonpos (-53 + e)) as [-> Ed]; [lia |].
  destruct (dn_nonpos e) as [_ Ed']; [lia |].
  assert (dn (-53 + e) = dn e * 2 ^ 53) as ->.
  { rewrite Ed, Ed'. rewrite <- Z.pow_add_r by lia. f_equal. lia. }
  replace (5404319552844595 * (Z.of_nat n * dn e) * 1)
    with (dn e * (5404319552844595 * Z.of_nat n)) by lia.
  pose proof (dn_pos e).
  rewrite round_scale by lia.
  apply round_six_tenths. lia.
Qed.

(** [int(w * 3 / 4)] is the integer quotient while [3 * w] stays below
    [2^53]. *)
Lemma three_quarters_floor w :
  0 <= w -> 3 * w < 2 ^ 53 -> three_quarters w = Some (3 * w / 4).
Proof.
  intros Hw Hlt. unfold three_quarters, truediv.
  destruct (Z.eq_dec w 0) as [-> | Hz]; [by vm_compute |].
  replace (w * 3) with (3 * w) by lia.
  unfold round. destruct (Z.eqb_spec (3 * w) 0); [lia |].
  destruct (ilog2_between (-1) 50 (3 * w) 4) as [L1 L2]; [lia | lia | | |].
  { unfold above. vm_compute (up (-1)). vm_compute (dn (-1)). lia. }
  { unfold above. vm_compute (up (50 + 1)). vm_compute (dn (50 + 1)). lia. }
  set (lg := ilog2 (3 * w) 4) in *. rewrite Z.max_l by lia.
  destruct (dn_nonpos (lg - 52)) as [Eu Ed]; [lia |].
  rewrite Eu.
  assert (dn (lg - 52) = 2 ^ (50 - lg) * 4) as EB.
  { rewrite Ed. change 4 with (2 ^ 2). rewrite <- Z.pow_add_r by lia. f_equal. lia. }
  rewrite EB.
  replace (3 * w * (2 ^ (50 - lg) * 4)) with (3 * w * 2 ^ (50 - lg) * (4 * 1)) by lia.
  rewrite rne_exact by lia.
  destruct (Z.ltb_spec 971 (lg - 52)); [lia |].
  destruct (Z.eqb_spec (lg - 52) 971); [lia |].
  simpl. f_equal. rewrite Eu, EB, Z.mul_1_r.
  assert (0 < 2 ^ (50 - lg)) by (apply Z.pow_pos_nonneg; lia).
  replace (2 ^ (50 - lg) * 4) with (4 * 2 ^ (50 - lg)) by lia.
  apply Z.div_mul_cancel_r; lia.
Qed.

End FloatFacts.

(** ** The layout of a table *)

(** [key_value_style] never raises on a table of fewer than [2^50] rows,
    and its threshold is the integer part of [0.6 * len(rows)]. *)
Lemma key_value_style_eq (rows : list (list cell)) :
  Z.of_nat (length rows) < 2 ^ 50 →
  key_value_style rows
  = Some (bool_decide (max_cols rows = 2%nat
                       ∧ Z.max 1 (3 * Z.of_nat (length rows) / 5)
                         ≤ Z.of_nat (length (two_cell_rows rows)))).
Proof.
  intros Hlt. unfold key_value_style.
  destruct (Nat.eqb_spec (max_cols rows) 2) as [E | E].
  - rewrite int_six_tenths_floor by done. simpl. f_equal.
    destruct (Z.leb_spec (Z.max 1 (3 * Z.of_nat (length rows) / 5))
                (Z.of_nat (length (two_cell_rows rows))));
      [rewrite bool_decide_eq_true_2 | rewrite bool_decide_eq_false_2]; try done; lia.
  - rewrite bool_decide_eq_false_2; [done | tauto].
Qed.

(** C1 as stated fails: with the threshold rounded up, a table of three
    rows of 1, 1 and 2 cells would need two rows of two cells, but the
    source classifies it as key-value layout. *)
Lemma key_value_ceiling_counterexample :
  one_one_two = [[("a", false)]; [("c", false)]; [("e", false); ("f", false)]]
  ∧ key_value_style one_one_two = Some true
  ∧ ¬ (max_cols one_one_two = 2%nat
       ∧ Z.max 1 ((3 * Z.of_nat (length one_one_two) + 4) / 5)
         ≤ Z.of_nat (length (two_cell_rows one_one_two))).
Proof.
  split; [by vm_compute |]. split; [by vm_compute |].
  intros [_ H]. vm_compute in H. by apply H.
Qed.

(** C1, amended: a table is classified as key-value layout exactly when
    the largest number of cells over its non-empty rows is 2 and at least
    [max(1, floor(0.6 * numRows))] rows have exactly 2 cells; the 60% is
    rounded down. *)
Theorem key_value_style_iff (rows : list (list cell)) :
  Z.of_nat (length rows) < 2 ^ 50 →
  is_Some (key_value_style rows)
  ∧ (key_value_style rows = Some true
     ↔ max_cols rows = 2%nat
       ∧ Z.max 1 (3 * Z.of_nat (length rows) / 5)
         ≤ Z.of_nat (length (two_cell_rows rows))).
Proof.
  intros Hlt. rewrite key_value_style_eq by done. split; [by eexists |].
  split.
  - intros [= H]. by apply bool_decide_eq_true in H.
  - intros H. f_equal. by apply bool_decide_eq_true.
Qed.

Lemma key_value_style_iff_witness :
  Z.of_nat (length one_one_two) < 2 ^ 50
  ∧ is_Some (key_value_style one_one_two)
  ∧ (key_value_style one_one_two = Some true
     ↔ max_cols one_one_two = 2%nat
       ∧ Z.max 1 (3 * Z.of_nat (length one_one_two) / 5)
         ≤ Z.of_nat (length (two_cell_rows one_one_two))).
Proof.
  split; [by vm_compute |].
  apply (key_value_style_iff one_one_two). by vm_compute.
Defined.

(** C2 as stated fails: the table whose third row has three cells has
    three columns and is rendered as a generic table. *)
Lemma three_rows_one_wide_counterexample :
  map (@length cell) (rows_of table_223) = [2; 2; 3]%nat
  ∧ key_value_style (rows_of table_223) = Some false
  ∧ key_value_style (rows_of table_223) ≠ Some true
  ∧ convert html_converter "T" (join nl table_223)
    = Some ("<table class='wikitable'><tr><td>a</td><td>b</td></tr>"
            +:+ "<tr><td>c</td><td>d</td></tr>"
            +:+ "<tr><td>e</td><td>f</td><td>g</td></tr></table>", []).
Proof. by vm_compute. Qed.

Lemma max_cols_ge (rows : list (list cell)) (r : list cell) :
  r ∈ rows → (length r ≤ max_cols rows)%nat.
Proof.
  unfold max_cols, col_counts. induction rows as [|r' rows IH]; intros Hin.
  - by apply elem_of_nil in Hin.
  - rewrite filter_cons. apply elem_of_cons in Hin as [-> | Hin].
    + case_decide as Hr; simpl; [lia |].
      destruct r' as [|c r']; [simpl; lia | done].
    + specialize (IH Hin). case_decide; simpl; lia.
Qed.

(** A row of more than two cells makes any table generic. *)
Lemma wide_row_generic (rows : list (list cell)) (r : list cell) :
  r ∈ rows → (2 < length r)%nat → key_value_style rows = Some false.
Proof.
  intros Hin Hlen. unfold key_value_style.
  pose proof (max_cols_ge rows r Hin).
  destruct (Nat.eqb_spec (max_cols rows) 2); [lia | done].
Qed.

(** C2, amended: a table of three rows of two cells each is classified
    as key-value layout; as soon as one row of the three has three cells
    the table has three columns and is classified as generic, whether
    one row or two rows have three cells. *)
Theorem three_row_layouts (r1 r2 r3 : list cell) :
  (length r1 = 2%nat → length r2 = 2%nat → length r3 = 2%nat →
   key_value_style [r1; r2; r3] = Some true)
  ∧ ((length r1 = 3 ∨ length r2 = 3 ∨ length r3 = 3)%nat →
     key_value_style [r1; r2; r3] = Some false).
Proof.
  split.
  - intros H1 H2 H3.
    destruct r1 as [|? [|? [|]]]; try done.
    destruct r2 as [|? [|? [|]]]; try done.
    destruct r3 as [|? [|? [|]]]; try done.
  - intros [H | [H | H]].
    + apply (wide_row_generic _ r1); [set_solver | lia].
    + apply (wide_row_generic _ r2); [set_solver | lia].
    + apply (wide_row_generic _ r3); [set_solver | lia].
Qed.

Lemma three_row_layouts_witness :
  key_value_style (rows_of table_222) = Some true
  ∧ key_value_style (rows_of table_223) = Some false
  ∧ key_value_style (rows_of table_233) = Some false.
Proof.
  split; [| split].
  - apply (proj1 (three_row_layouts [("a", false); ("b", false)]
                    [("c", false); ("d", false)] [("e", false); ("f", false)]));
      reflexivity.
  - apply (proj2 (three_row_layouts [("a", false); ("b", false)]
                    [("c", false); ("d", false)]
                    [("e", false); ("f", false); ("g", false)])).
    right; right; reflexivity.
  - apply (proj2 (three_row_layouts [("a", false); ("b", false)]
                    [("c", false); ("d", false); ("x", false)]
                    [("e", false); ("f", false); ("g", false)])).
    right; right; reflexivity.
Defined.

(** ** Nested lists *)

Lemma close_lists_loop_spec (to_level : nat) (stack : list ascii) (out : list string) :
  close_lists_loop to_level stack out
  = (skipn (length stack - to_level) stack,
     out ++ map (fun t => "</" +:+ list_tag t +:+ ">")
              (firstn (length stack - to_level) stack)).
Proof.
  revert out. induction stack as [|t stack IH]; intros out.
  - simpl. by rewrite app_nil_r.
  - cbn [close_lists_loop]. destruct (Nat.ltb_spec to_level (length (t :: stack))) as [H | H].
    + simpl in H. rewrite IH.
      replace (length (t :: stack) - to_level)%nat
        with (S (length stack - to_level)) by (simpl; lia).
      simpl. by rewrite <- app_assoc.
    + replace (length (t :: stack) - to_level)%nat with 0%nat by lia.
      simpl. by rewrite app_nil_r.
Qed.

(** [close_lists(to_level)] pops the open lists above [to_level] and emits
    one closing tag for each, the innermost first. *)
Lemma close_lists_spec (to_level : nat) (st : cstate) :
  list_stack (close_lists to_level st)
  = skipn (length (list_stack st) - to_level) (list_stack st)
  /\ html_lines (close_lists to_level st)
     = html_lines st ++ map (fun t => "</" +:+ list_tag t +:+ ">")
                          (firstn (length (list_stack st) - to_level) (list_stack st)).
Proof. unfold close_lists. by rewrite close_lists_loop_spec. Qed.

(** C3 as stated fails: between item [b] and item [c] the output has one
    list close, not two. *)
Lemma list_closes_counterexample :
  (html_lines <$> convert_body html_converter (join nl abc_lines))
  = Some ["<ul>"; "<li>a</li>"; "<ul>"; "<li>b</li>"; "</ul>"; "<li>c</li>"; "</ul>"]
  ∧ (closes_between "<li>b</li>" "<li>c</li>"
       <$> (html_lines <$> convert_body html_converter (join nl abc_lines))) = Some 1%nat
  ∧ (closes_between "<li>b</li>" "<li>c</li>"
       <$> (html_lines <$> convert_body html_converter (join nl abc_lines))) ≠ Some 2%nat.
Proof. by vm_compute. Qed.

(** C3, amended: closing the open lists down to a level emits one close
    per level left, so going from depth 2 to depth 1 emits one.  For the
    lines [* a], [** b], [* c] the converter has two
    lists open after item [b] and one after item [c]; it opens the second
    list before [b] and closes it, with exactly one list close, between
    [b] and [c]; the second and last close of the output follows [c].
    This holds in either output mode and for any table of slugs. *)
Theorem nested_list_closes (self : WikiConverter) :
  (forall (st : cstate) (to_level : nat),
     length (html_lines (close_lists to_level st))
     = (length (html_lines st) + (length (list_stack st) - to_level))%nat)
  /\ (list_stack <$> convert_lines self cstate_init ["* a"; "** b"]) = Some ["*"; "*"]%char
  ∧ (list_stack <$> convert_lines self cstate_init abc_lines) = Some ["*"]%char
  ∧ (html_lines <$> convert_body self (join nl abc_lines))
    = Some ["<ul>"; "<li>a</li>"; "<ul>"; "<li>b</li>"; "</ul>"; "<li>c</li>"; "</ul>"]
  ∧ (closes_between "<li>b</li>" "<li>c</li>"
       <$> (html_lines <$> convert_body self (join nl abc_lines))) = Some 1%nat
  ∧ convert self "T" (join nl abc_lines)
    = Some (join nl ["<ul>"; "<li>a</li>"; "<ul>"; "<li>b</li>"; "</ul>";
                     "<li>c</li>"; "</ul>"], []).
Proof.
  split.
  - intros st to_level. destruct (close_lists_spec to_level st) as [_ ->].
    rewrite List.length_app, List.length_map, List.length_firstn. lia.
  - by vm_compute.
Qed.

(** ** Strings *)

Lemma app_cons_str (c : ascii) (a b : string) : String c a +:+ b = String c (a +:+ b).
Proof. reflexivity. Qed.

Lemma app_nil_l_str (s : string) : "" +:+ s = s.
Proof. reflexivity. Qed.

Lemma app_nil_r_str (s : string) : s +:+ "" = s.
Proof. induction s as [|c s IH]; [done | by rewrite app_cons_str, IH]. Qed.

Lemma app_assoc_str (a b c : string) : (a +:+ b) +:+ c = a +:+ b +:+ c.
Proof. induction a as [|x a IH]; [done | by rewrite !app_cons_str, IH]. Qed.

Lemma take_app_length (a b : string) : take (String.length a) (a +:+ b) = a.
Proof.
  induction a as [|x a IH]; [by destruct b |].
  rewrite app_cons_str. simpl. by rewrite IH.
Qed.

Lemma remove_char_app (x : ascii) (a b : string) :
  remove_char x (a +:+ b) = remove_char x a +:+ remove_char x b.
Proof.
  induction a as [|c a IH]; [done |].
  rewrite app_cons_str. simpl.
  destruct (Ascii.eqb c x); by rewrite ?app_cons_str, IH.
Qed.

Lemma all_chars_remove (p : ascii -> bool) (x : ascii) (s : string) :
  all_chars p s = true -> all_chars p (remove_char x s) = true.
Proof.
  induction s as [|c s IH]; simpl; [done |].
  intros [Hc Hs]%andb_prop. destruct (Ascii.eqb c x); simpl; [auto |].
  rewrite Hc. auto.
Qed.

(** ** The matcher on texts of a known shape *)

#[local] Arguments atom_matches : simpl never.

(** A greedy repetition swallows a whole run of matching characters when
    the rest of the pattern then succeeds. *)
Lemma star_greedy_run {A} ic a (run s : string) pos (k : nat -> string -> option A) r :
  all_chars (atom_matches ic a) run = true ->
  stops ic a s = true ->
  k (pos + String.length run)%nat s = Some r ->
  star_greedy ic a pos (run +:+ s) k = Some r.
Proof.
  revert pos. induction run as [|c run IH]; intros pos Hall Hstop Hk;
    rewrite ?app_nil_l_str, ?app_cons_str; simpl in *.
  - rewrite Nat.add_0_r in Hk. destruct s as [|c s]; simpl in *; [done |].
    apply negb_true_iff in Hstop. by rewrite Hstop.
  - apply andb_prop in Hall as [Hc Hall]. rewrite Hc.
    rewrite (IH (S pos)); [done | done | done |].
    by replace (S pos + String.length run)%nat with (pos + S (String.length run))%nat by lia.
Qed.

Lemma chars_match_length ic p s : chars_match ic p s = true -> String.length s = String.length p.
Proof.
  revert s. induction p as [|c p IH]; intros [|d s]; simpl; try done.
  intros [_ H]%andb_prop. by rewrite (IH s).
Qed.

Lemma rmatch_lit {A} ic (p s rest : string) pos caps (k : mstate -> option A) :
  chars_match ic p s = true ->
  rmatch ic (lit p) (MState pos (s +:+ rest) caps) k
  = k (MState (pos + String.length p) rest caps).
Proof.
  revert s pos. induction p as [|c p IH]; intros [|d s] pos;
    rewrite ?app_nil_l_str, ?app_cons_str; simpl; try done.
  - intros _. by rewrite Nat.add_0_r.
  - intros [Hc H]%andb_prop. destruct p as [|c' p].
    + destruct s; [| done]. rewrite app_nil_l_str. simpl in *. rewrite Hc.
      f_equal. f_equal. lia.
    + change (lit (String c (String c' p)))
        with (RSeq (RAtom (AChar c)) (lit (String c' p))).
      cbn [rmatch m_rest m_pos m_caps]. rewrite Hc.
      rewrite (IH s (S pos) H). f_equal. f_equal. simpl. lia.
Qed.

(** A literal fails on a text that starts differently. *)
Lemma rmatch_lit_fail {A} ic (c : ascii) (p : string) (d : ascii) (s : string) pos caps
    (k : mstate -> option A) :
  atom_matches ic (AChar c) d = false ->
  rmatch ic (lit (String c p)) (MState pos (String d s) caps) k = None.
Proof.
  intros H. destruct p as [|c' p]; simpl; by rewrite H.
Qed.

Lemma space_matches ic c : isspace c = true -> atom_matches ic space c = true.
Proof. destruct ic, c as [[] [] [] [] [] [] [] []]; by vm_compute. Qed.

Lemma not_bracket_matches c :
  negb (Ascii.eqb c "]") = true -> atom_matches true (not_of "]") c = true.
Proof. destruct c as [[] [] [] [] [] [] [] []]; by vm_compute. Qed.

Lemma all_space_matches ic s :
  all_chars isspace s = true -> all_chars (atom_matches ic space) s = true.
Proof.
  induction s as [|c s IH]; simpl; [done |].
  intros [Hc Hs]%andb_prop. by rewrite space_matches, IH.
Qed.

Lemma all_not_bracket_matches s :
  all_chars (fun c => negb (Ascii.eqb c "]")) s = true ->
  all_chars (atom_matches true (not_of "]")) s = true.
Proof.
  induction s as [|c s IH]; simpl; [done |].
  intros [Hc Hs]%andb_prop. by rewrite not_bracket_matches, IH.
Qed.

Lemma lower_char_idem c : lower_char (lower_char c) = lower_char c.
Proof. destruct c as [[] [] [] [] [] [] [] []]; by vm_compute. Qed.

Lemma lower_char_cr c : Ascii.eqb (lower_char c) "013" = Ascii.eqb c "013".
Proof. destruct c as [[] [] [] [] [] [] [] []]; by vm_compute. Qed.

(** Ignoring case, a text matches its own lower-case form. *)
Lemma chars_match_lower s : chars_match true (lower s) s = true.
Proof.
  induction s as [|c s IH]; simpl; [done |]. rewrite IH, andb_true_r.
  unfold atom_matches. rewrite lower_char_idem. apply Ascii.eqb_refl.
Qed.

Lemma remove_cr_lower s :
  mem_char "013" (lower s) = false -> remove_char "013" s = s.
Proof.
  induction s as [|c s IH]; [done |].
  cbn [lower mem_char remove_char]. rewrite <- (lower_char_cr c).
  rewrite (Ascii.eqb_sym "013"%char).
  destruct (Ascii.eqb (lower_char c) "013"); [done |]. intros H. by rewrite IH.
Qed.

(** A word that is ["#redirect"] in lower case matches that literal when
    case is ignored, holds no carriage return and starts with no space. *)
Lemma redirect_keyword kw :
  lower kw = "#redirect" ->
  chars_match true "#redirect" kw = true /\ remove_char "013" kw = kw
  /\ stops true space kw = true.
Proof.
  intros H. split; [| split].
  - rewrite <- H. apply chars_match_lower.
  - apply remove_cr_lower. by rewrite H.
  - destruct kw as [|c kw]; [done |]. simpl in *. injection H as H _.
    unfold atom_matches. simpl. by rewrite H.
Qed.

(** The equations of the matcher, for rewriting one step at a time. *)
Lemma rmatch_seq {A} ic r1 r2 st (k : mstate -> option A) :
  rmatch ic (RSeq r1 r2) st k = rmatch ic r1 st (fun st' => rmatch ic r2 st' k).
Proof. reflexivity. Qed.

Lemma rmatch_alt {A} ic r1 r2 st (k : mstate -> option A) :
  rmatch ic (RAlt r1 r2) st k
  = match rmatch ic r1 st k with Some x => Some x | None => rmatch ic r2 st k end.
Proof. reflexivity. Qed.

Lemma rmatch_eps {A} ic st (k : mstate -> option A) : rmatch ic REps st k = k st.
Proof. reflexivity. Qed.

Lemma rmatch_bol {A} ic s caps (k : mstate -> option A) :
  rmatch ic RBol (MState 0 s caps) k = k (MState 0 s caps).
Proof. reflexivity. Qed.

Lemma rmatch_star_greedy {A} ic a pos s caps (k : mstate -> option A) :
  rmatch ic (RStar true a) (MState pos s caps) k
  = star_greedy ic a pos s (fun pos' s' => k (MState pos' s' caps)).
Proof. reflexivity. Qed.

Lemma rmatch_atom {A} ic a pos c s caps (k : mstate -> option A) :
  rmatch ic (RAtom a) (MState pos (String c s) caps) k
  = if atom_matches ic a c then k (MState (S pos) s caps) else None.
Proof. reflexivity. Qed.

Lemma rmatch_group {A} ic n r st (k : mstate -> option A) :
  rmatch ic (RGroup n r) st k
  = rmatch ic r st (fun st' =>
      k (MState (m_pos st') (m_rest st')
           ((n, take (m_pos st' - m_pos st) (m_rest st)) :: m_caps st'))).
Proof. reflexivity. Qed.

(** A group [(x+)] whose item matches all of [run] and not what follows:
    the group captures [run]. *)
Lemma rmatch_group_plus {A} ic n a (run s : string) pos caps (k : mstate -> option A) r :
  run <> "" ->
  all_chars (atom_matches ic a) run = true ->
  stops ic a s = true ->
  k (MState (pos + String.length run) s ((n, run) :: caps)) = Some r ->
  rmatch ic (RGroup n (plus true a)) (MState pos (run +:+ s) caps) k = Some r.
Proof.
  intros Hne Hall Hstop Hk. destruct run as [|c run]; [done |].
  cbn [all_chars] in Hall. apply andb_prop in Hall as [Hc Hall].
  rewrite rmatch_group. unfold plus. rewrite rmatch_seq, app_cons_str, rmatch_atom, Hc.
  rewrite rmatch_star_greedy.
  apply star_greedy_run; [done | done |].
  cbn [m_pos m_rest m_caps].
  replace (S pos + String.length run - pos)%nat
    with (String.length (String c run)) by (simpl; lia).
  rewrite <- (app_cons_str c run), take_app_length.
  rewrite <- Hk. f_equal. f_equal. simpl. lia.
Qed.

(** The redirect pattern on a text of the shape
    [ws kw ws2 colon "[[" target "]]" rest]. *)
Lemma redirect_matches (ws kw ws2 colon target rest : string) :
  all_chars isspace ws = true ->
  chars_match true "#redirect" kw = true ->
  stops true space kw = true ->
  all_chars isspace ws2 = true ->
  colon = "" \/ colon = ":" ->
  no_bracket target = true ->
  target <> "" ->
  exists m,
    re_match true REDIRECT_RE
      (ws +:+ kw +:+ ws2 +:+ colon +:+ "[[" +:+ target +:+ "]]" +:+ rest) = Some m
    /\ group 1 m = Some target.
Proof.
  intros Hws Hkw Hk0 Hws2 Hcolon Hnb Hne.
  set (tail := RSeq (lit "[[") (RSeq (RGroup 1 (plus true (not_of "]"))) (lit "]]"))).
  assert (forall pos,
    rmatch true tail (MState pos ("[[" +:+ target +:+ "]]" +:+ rest) []) Some
    = Some (MState (pos + 2 + String.length target + 2) rest [(1%nat, target)])) as Htail.
  { intros pos. unfold tail. rewrite rmatch_seq.
    rewrite (rmatch_lit true "[[" "[["); [| done].
    rewrite rmatch_seq.
    apply rmatch_group_plus; [done | by apply all_not_bracket_matches | by vm_compute |].
    by rewrite (rmatch_lit true "]]" "]]"). }
  assert (forall pos,
    rmatch true (RSeq (opt (lit ":")) tail)
      (MState pos (colon +:+ "[[" +:+ target +:+ "]]" +:+ rest) []) Some
    = Some (MState (pos + String.length colon + 2 + String.length target + 2) rest
              [(1%nat, target)])) as Hcol.
  { intros pos. rewrite rmatch_seq. unfold opt. rewrite rmatch_alt.
    destruct Hcolon as [-> | ->].
    - rewrite app_nil_l_str, rmatch_eps, Htail.
      rewrite app_cons_str, rmatch_lit_fail by (by vm_compute).
      simpl. by rewrite Nat.add_0_r.
    - rewrite (rmatch_lit true ":" ":"); [| done]. by rewrite Htail. }
  assert (rmatch true REDIRECT_RE
            (MState 0 (ws +:+ kw +:+ ws2 +:+ colon +:+ "[[" +:+ target +:+ "]]" +:+ rest) [])
            Some
          = Some (MState (0 + String.length ws + String.length "#redirect"
                          + String.length ws2 + String.length colon + 2
                          + String.length target + 2) rest [(1%nat, target)])) as Hm.
  { unfold REDIRECT_RE. cbn [rseq]. fold tail.
    rewrite rmatch_seq, rmatch_bol, rmatch_seq, rmatch_star_greedy.
    apply star_greedy_run; [by apply all_space_matches | |].
    { destruct kw as [|c kw]; [done | by rewrite app_cons_str]. }
    rewrite rmatch_seq, (rmatch_lit true "#redirect" kw); [| done].
    rewrite rmatch_seq, rmatch_star_greedy.
    apply star_greedy_run; [by apply all_space_matches | |].
    - destruct Hcolon as [-> | ->]; by vm_compute.
    - by rewrite Hcol. }
  unfold re_match, match_at. rewrite Hm. eexists. split; [reflexivity | done].
Qed.

(** ** Redirects *)

(** C8: a page whose text is white space, the word [#redirect] in any
    case, white space, an optional colon and [[[target]]], followed by
    anything at all (category links included), converts to exactly one
    block, the redirect notice with the link to the target, and to an
    empty category list.  The target holds no closing bracket and is
    more than carriage returns, which [convert] removes first. *)
Theorem redirect_short_circuit (self : WikiConverter)
    (title ws kw ws2 colon target rest : string) :
  all_chars isspace ws = true ->
  lower kw = "#redirect" ->
  all_chars isspace ws2 = true ->
  colon = "" \/ colon = ":" ->
  no_bracket target = true ->
  remove_char "013" target <> "" ->
  convert self title
    (ws +:+ kw +:+ ws2 +:+ colon +:+ "[[" +:+ target +:+ "]]" +:+ rest)
  = Some ("<div class='redirectbox'>Redirect to "
          +:+ _link_for_target self (strip (remove_char "013" target)) None
          +:+ "</div>", []).
Proof.
  intros Hws Hkw Hws2 Hcolon Hnb Hne.
  destruct (redirect_keyword kw Hkw) as (Hm & Hcr & Hstop).
  unfold convert. rewrite !remove_char_app, Hcr.
  assert (remove_char "013" colon = colon) as -> by (by destruct Hcolon as [-> | ->]).
  change (remove_char "013" "[[") with "[[". change (remove_char "013" "]]") with "]]".
  destruct (redirect_matches (remove_char "013" ws) kw (remove_char "013" ws2) colon
              (remove_char "013" target) (remove_char "013" rest))
    as (m & -> & Hg); try done.
  - by apply all_chars_remove.
  - by apply all_chars_remove.
  - by apply all_chars_remove.
  - by rewrite Hg.
Qed.

Lemma redirect_short_circuit_witness :
  convert html_converter "Old"
    ("  " +:+ "#REDIRECT" +:+ " " +:+ "" +:+ "[[" +:+ "Target Page" +:+ "]]"
     +:+ String "010" "[[Category:Moved]]")
  = Some ("<div class='redirectbox'>Redirect to "
          +:+ _link_for_target html_converter (strip (remove_char "013" "Target Page")) None
          +:+ "</div>", []).
Proof.
  apply redirect_short_circuit; [reflexivity | reflexivity | reflexivity | |reflexivity |].
  - by left.
  - by vm_compute.
Defined.

(** ** Fields kept by the helpers of the loop *)

Lemma marks_close_lists n st : marks (close_lists n st) = marks st.
Proof. unfold close_lists. by destruct (close_lists_loop _ _ _). Qed.

Lemma marks_open_lists n t st : marks (open_lists n t st) = marks st.
Proof. revert st. induction n as [|n IH]; intros st; simpl; [done |]. by rewrite IH. Qed.

Lemma marks_list_item self m st st' :
  list_item self m st = Some st' -> marks st' = marks st.
Proof.
  unfold list_item.
  set (level := String.length (default "" (group 1 m))).
  set (marker_type := default "*"%char (last_char (default "" (group 1 m)))).
  set (st1 := open_lists _ marker_type st).
  set (st2 := if (_ <? _)%nat then close_lists _ st1 else st1).
  set (st3 := match level with O => st2 | S _ => _ end).
  assert (marks st2 = marks st) as E2.
  { unfold st2. destruct (_ <? _)%nat; rewrite ?marks_close_lists; apply marks_open_lists. }
  assert (marks st3 = marks st) as E3.
  { unfold st3. destruct level; [done |]. destruct (list_stack st2); [done |].
    destruct (negb _); [| done].
    change (marks (push_list marker_type ?s)) with (marks s).
    by rewrite marks_close_lists. }
  destruct (inline self _); [| done]. by intros [= <-].
Qed.

Lemma marks_normal_line self st line st' :
  normal_line self st line = Some st' ->
  in_collapse st' = in_collapse st /\ in_table st' = in_table st.
Proof.
  unfold normal_line. destruct (strip_categories _ _) as [line' c].
  set (st0 := set_cats c st).
  assert (forall l, in_collapse (emit l (close_lists 0 st0)) = in_collapse st
                    /\ in_table (emit l (close_lists 0 st0)) = in_table st) as Hc.
  { intros l. change (in_collapse (emit l ?s)) with (in_collapse s).
    change (in_table (emit l ?s)) with (in_table s).
    pose proof (marks_close_lists 0 st0) as E. by injection E as _ _ -> ->. }
  destruct (negb (truthy (strip line'))).
  { intros [= <-]. apply (Hc ""). }
  destruct (re_match false HEADING_RE line') as [m|].
  { intros [= <-]. apply (Hc (heading_block m)). }
  destruct (re_match false LIST_ITEM_RE line').
  { intros H. apply marks_list_item in H. by injection H as _ _ -> ->. }
  destruct (inline self line') as [p|]; [| done]. intros [= <-].
  apply (Hc ("<p>" +:+ p +:+ "</p>")).
Qed.

Lemma convert_line_one_run self st raw st' :
  one_run st -> convert_line self st raw = Some st' -> one_run st'.
Proof.
  unfold one_run, convert_line. intros Hinv.
  set (line := rstrip_chars nl raw).
  destruct (in_collapse st) eqn:Ec, (in_table st) eqn:Et; simpl.
  - by specialize (Hinv eq_refl).
  - destruct (contains "</div>" (lower line)).
    + unfold finish_collapse. destruct (inline self _); [| done].
      intros [= <-]. simpl. done.
    + intros [= <-]. simpl. done.
  - destruct (startswith (strip line) "|}").
    + unfold finish_table. destruct (key_value_style _); [| done]. simpl.
      destruct (render_table _ _ _); [| done]. intros [= <-]. simpl. done.
    + intros [= <-]. simpl. by rewrite Ec.
  - destruct (startswith (lstrip line) "{|").
    { intros [= <-]. simpl. by rewrite Ec. }
    destruct (bool_decide _).
    { intros [= <-]. simpl. by rewrite Et. }
    intros H. apply marks_normal_line in H as [-> ->]. by rewrite Ec.
Qed.

Lemma convert_lines_one_run self lines st st' :
  one_run st -> convert_lines self st lines = Some st' -> one_run st'.
Proof.
  revert st. induction lines as [|raw lines IH]; intros st Hinv; simpl.
  - by intros [= <-].
  - destruct (convert_line self st raw) as [st1|] eqn:E; [| done]. simpl.
    apply IH. by eapply convert_line_one_run.
Qed.

(** C9: a line consumed while a collapsible block is open, or that opens
    one, leaves the recorded categories as they are: the step of the
    loop on such a line either raises (on the closing line, from the
    inline transform of a file embed) or returns a state with the same
    category list and set; on an opening line and on a line without the
    closing tag it always returns. *)
Theorem collapsible_lines_record_no_category (self : WikiConverter)
    (lines : list string) (raw : string) (st : cstate) :
  convert_lines self cstate_init lines = Some st ->
  in_collapse st = true \/ opens_collapsible st raw ->
  (forall st', convert_line self st raw = Some st' ->
     categories st' = categories st /\ cat_set st' = cat_set st)
  /\ (in_collapse st = false
      \/ contains "</div>" (lower (rstrip_chars nl raw)) = false ->
      is_Some (convert_line self st raw)).
Proof.
  intros Hrun Hmode.
  assert (one_run st) as Hinv.
  { apply (convert_lines_one_run self lines cstate_init st); [by intros ? | done]. }
  unfold convert_line. set (line := rstrip_chars nl raw).
  destruct Hmode as [Ec | (Ec & Et & Hs & Ho)].
  - rewrite Ec, (Hinv Ec). simpl. destruct (contains "</div>" (lower line)).
    + split; [| by intros [? | ?]].
      unfold finish_collapse. intros st'. destruct (inline self _); [| done].
      by intros [= <-].
    + split; [by intros st' [= <-] | by eexists].
  - fold line in Hs, Ho. rewrite Ec, Et, Hs. simpl.
    rewrite bool_decide_eq_true_2 by done.
    split; [by intros st' [= <-] | by eexists].
Qed.

Lemma collapsible_lines_record_no_category_witness :
  exists st st',
    convert_lines html_converter cstate_init
      ["[[Category:Seen]]"; "<div class='mw-collapsible'>"] = Some st
    /\ in_collapse st = true
    /\ convert_line html_converter st "<b>More</b> [[Category:Hidden]]" = Some st'
    /\ categories st = ["Seen"]
    /\ categories st' = categories st /\ cat_set st' = cat_set st.
Proof.
  eexists _, _. split; [by vm_compute |]. split; [by vm_compute |].
  split; [by vm_compute |]. split; [by vm_compute |].
  apply (proj1 (collapsible_lines_record_no_category html_converter
                  ["[[Category:Seen]]"; "<div class='mw-collapsible'>"]
                  "<b>More</b> [[Category:Hidden]]" _
                  ltac:(by vm_compute) ltac:(left; by vm_compute))).
  by vm_compute.
Defined.

(** ** Headings *)

Lemma truthy_rev_onto s acc : truthy acc = true -> truthy (rev_onto s acc) = true.
Proof. revert acc. induction s as [|c s IH]; intros acc H; simpl; [done | by apply IH]. Qed.

Lemma truthy_drop_while_rev_onto p s acc :
  truthy (drop_while p acc) = true -> truthy (drop_while p (rev_onto s acc)) = true.
Proof.
  revert acc. induction s as [|c s IH]; intros acc H; simpl; [done |].
  apply IH. simpl. by destruct (p c).
Qed.

(** A text that starts with a character that is no white space is not
    blank. *)
Lemma strip_not_blank c s : isspace c = false -> truthy (strip (String c s)) = true.
Proof.
  intros Hc. unfold strip, strip_by, lstrip_by, rstrip_by. simpl. rewrite Hc.
  unfold rev. destruct (drop_while isspace (rev_onto (String c s) "")) eqn:E.
  - pose proof (truthy_drop_while_rev_onto isspace s (String c "")) as H.
    simpl in H, E. rewrite Hc in H. specialize (H eq_refl). by rewrite E in H.
  - simpl. by apply truthy_rev_onto.
Qed.

Lemma heading_starts_with_equals line m :
  re_match false HEADING_RE line = Some m -> exists s, line = String "=" s.
Proof.
  unfold re_match, match_at, HEADING_RE. cbn [rseq].
  destruct line as [|c s]; [by vm_compute |].
  rewrite rmatch_seq, rmatch_bol, rmatch_seq, rmatch_group. unfold plus at 1.
  rewrite rmatch_seq, rmatch_atom.
  destruct (atom_matches false (AChar "=") c) eqn:E; [| done].
  intros _. exists s. f_equal. unfold atom_matches in E. by apply Ascii.eqb_eq in E.
Qed.

Lemma heading_not_blank line m :
  re_match false HEADING_RE line = Some m -> negb (truthy (strip line)) = false.
Proof.
  intros [s ->]%heading_starts_with_equals. by rewrite strip_not_blank.
Qed.

(** C10 as stated fails: the heading pattern is tried on the line once
    its category links are removed.  The line
    [== A [[Category:X]] B ==] matches the pattern, and its heading is
    [A  B], not the text of the line escaped; the line
    [=[[Category:X]]=] matches the pattern too, and is a paragraph, since
    what is left of it, [==], is no heading. *)
Lemma heading_category_counterexample :
  (group 2 <$> re_match false HEADING_RE "== A [[Category:X]] B ==")
  = Some (Some " A [[Category:X]] B ")
  /\ convert html_converter "T" "== A [[Category:X]] B =="
     = Some ("<h2 id='a-b'>A  B</h2>", ["X"])
  /\ convert html_converter "T" "== A [[Category:X]] B =="
     <> Some ("<h2 id='" +:+ heading_id "A [[Category:X]] B" +:+ "'>"
              +:+ escape "A [[Category:X]] B" +:+ "</h2>", ["X"])
  /\ (group 2 <$> re_match false HEADING_RE "=[[Category:X]]=")
     = Some (Some "[[Category:X]]")
  /\ convert html_converter "T" "=[[Category:X]]=" = Some ("<p>==</p>", ["X"]).
Proof. by vm_compute. Qed.

(** C10, amended: in normal mode, a line that matches the heading pattern
    once its category links are removed adds to the output, after one
    closing tag for every open list, exactly one line: the heading whose
    text is the second group of that match, stripped of white space and
    HTML-escaped, under the id [heading_id] gives it.  No inline
    transform is applied, whatever the converter: links, quotes and file
    embeds of the heading stay as text.  The lists are closed and the
    categories of the line are recorded. *)
Theorem heading_text_is_escaped_only (self : WikiConverter) (st : cstate)
    (raw line : string) (c : cats) (m : mobj) :
  normal_mode st raw ->
  strip_categories (rstrip_chars nl raw) (categories st, cat_set st) = (line, c) ->
  re_match false HEADING_RE line = Some m ->
  let level := Nat.min (String.length (default "" (group 1 m))) 6 in
  let content := strip (default "" (group 2 m)) in
  exists st' : cstate,
    convert_line self st raw = Some st'
    /\ html_lines st'
       = html_lines st
         ++ map (fun t => "</" +:+ list_tag t +:+ ">") (list_stack st)
         ++ ["<h" +:+ pretty level +:+ " id='" +:+ escape (heading_id content)
             +:+ "'>" +:+ escape content +:+ "</h" +:+ pretty level +:+ ">"]
    /\ list_stack st' = []
    /\ categories st' = c.1
    /\ in_table st' = false /\ in_collapse st' = false.
Proof.
  intros (Ec & Et & Hs & Ho) Hstrip Hm. cbn zeta.
  unfold convert_line. rewrite Ec, Et, Hs, Ho. simpl.
  unfold normal_line. rewrite Hstrip, (heading_not_blank _ _ Hm), Hm.
  eexists. split; [reflexivity |].
  destruct (close_lists_spec 0 (set_cats c st)) as [Hstack Hlines].
  cbn [emit html_lines list_stack categories in_table in_collapse].
  rewrite Hlines, Hstack. cbn [set_cats html_lines list_stack].
  rewrite Nat.sub_0_r, firstn_all, skipn_all, <- app_assoc.
  unfold close_lists. destruct (close_lists_loop _ _ _). by destruct c.
Qed.

Lemma heading_text_is_escaped_only_witness :
  let raw := "== A '''b''' [[L]] [http://e.org x] ==" in
  let st := push_list "#" (push_list "*" cstate_init) in
  exists st' : cstate,
    convert_line html_converter st raw = Some st'
    /\ html_lines st'
       = ["<ul>"; "<ol>"; "</ol>"; "</ul>";
          "<h2 id='a-b-l-http-e-org-x'>A &#x27;&#x27;&#x27;b&#x27;&#x27;&#x27; [[L]] [http://e.org x]</h2>"]
    /\ list_stack st' = []
    /\ categories st' = []
    /\ in_table st' = false /\ in_collapse st' = false.
Proof.
  intros raw st.
  apply (heading_text_is_escaped_only html_converter st raw raw ([], ∅)
           (MObj 0 raw
              [(3%nat, "=="); (2%nat, " A '''b''' [[L]] [http://e.org x] "); (1%nat, "==")] "")).
  - by vm_compute.
  - by vm_compute.
  - by vm_compute.
Defined.

(** ** File embeds *)




(** ** Captions of file embeds *)

Lemma rev_onto_app s acc : rev_onto s acc = rev s +:+ acc.
Proof.
  unfold rev. revert acc. induction s as [|c s IH]; intros acc; simpl; [done |].
  rewrite IH, (IH (String c "")). by rewrite app_assoc_str.
Qed.

Lemma rev_rev_onto s acc : rev (rev_onto s acc) = rev acc +:+ s.
Proof.
  revert acc. induction s as [|c s IH]; intros acc; simpl.
  - by rewrite app_nil_r_str.
  - rewrite IH. unfold rev at 1. simpl. rewrite rev_onto_app.
    by rewrite app_assoc_str.
Qed.

(** A text without the separator is one piece. *)
Lemma split_char_go_whole sep s cur :
  mem_char sep s = false -> split_char_go sep s cur = [rev cur +:+ s].
Proof.
  revert cur. induction s as [|d s IH]; intros cur; simpl.
  - by rewrite app_nil_r_str.
  - rewrite (Ascii.eqb_sym sep d). destruct (Ascii.eqb d sep); [done |].
    intros H. rewrite IH by done. unfold rev. simpl.
    by rewrite rev_onto_app, app_assoc_str.
Qed.

Lemma split_char_go_app sep s t cur :
  split_char_go sep (s +:+ String sep t) cur
  = split_char_go sep s cur ++ split_char_go sep t "".
Proof.
  revert cur. induction s as [|d s IH]; intros cur.
  - rewrite app_nil_l_str. simpl. by rewrite Ascii.eqb_refl.
  - rewrite app_cons_str. simpl. destruct (Ascii.eqb d sep); by rewrite IH.
Qed.

(** Appending [sep] and a piece without [sep] appends one piece. *)
Lemma split_char_snoc sep s c :
  mem_char sep c = false ->
  split_char sep (s +:+ String sep c) = split_char sep s ++ [c].
Proof.
  intros H. unfold split_char. rewrite split_char_go_app, (split_char_go_whole sep c "") by done.
  reflexivity.
Qed.

Lemma file_opts_loop_app idx l1 l2 f :
  file_opts_loop idx (l1 ++ l2) f
  = file_opts_loop idx l1 f ≫= file_opts_loop (idx + length l1) l2.
Proof.
  revert idx f. induction l1 as [|o l1 IH]; intros idx f; simpl.
  - by rewrite Nat.add_0_r.
  - destruct (file_opt_step idx o f) as [f'|]; simpl; [| done].
    rewrite IH. by replace (S idx + length l1)%nat with (idx + S (length l1))%nat by lia.
Qed.

(** A candidate caption is recorded as the last caption seen. *)
Lemma caption_step idx c f :
  caption_token c = true -> file_opt_step idx c f = Some (set_caption idx f).
Proof.
  unfold caption_token, file_opt_step. cbv zeta.
  intros H. repeat (apply andb_prop in H as [H ?]).
  repeat match goal with
  | H : negb _ = true |- _ => apply negb_true_iff in H
  end.
  rewrite H.
  repeat match goal with
  | H : startswith _ _ = false |- _ => rewrite H; clear H
  | H : mem_str _ _ = false |- _ => rewrite H; clear H
  end.
  repeat match goal with
  | H : bool_decide (is_Some ?x) = false |- _ =>
      apply bool_decide_eq_false in H; destruct x; [by destruct H |]
  end.
  reflexivity.
Qed.

Lemma caption_token_truthy c : caption_token c = true -> truthy (strip c) = true.
Proof.
  unfold caption_token. intros H. repeat (apply andb_prop in H as [H ?]). done.
Qed.

Lemma thumb_link_opts_read :
  file_opts_loop 0 ["thumb"; "link=https://youtu.be/xyz"] file_opts_init
  = Some thumb_link_opts.
Proof. by vm_compute. Qed.

(** With a caption after [thumb] and the link, the embed of [name.ogg]
    is a figure with the image and the caption, in HTML mode. *)
Lemma captioned_figure (name c : string) :
  name = "Video" \/ name = "YouTube" ->
  caption_token c = true ->
  mem_char "|" c = false ->
  file_sub html_converter
    (("File:" +:+ name +:+ ".ogg|thumb|link=https://youtu.be/xyz") +:+ String "|" c)
  = Some (figure_open (name +:+ ".ogg") +:+ "<figcaption>" +:+ escape (strip c)
          +:+ "</figcaption></figure>").
Proof.
  intros Hname Hc Hp. unfold file_sub.
  rewrite split_char_snoc by done.
  assert (split_char "|" ("File:" +:+ name +:+ ".ogg|thumb|link=https://youtu.be/xyz")
          = ["File:" +:+ name +:+ ".ogg"; "thumb"; "link=https://youtu.be/xyz"]) as ->.
  { by destruct Hname as [-> | ->]. }
  cbn [app hd tl].
  rewrite (file_opts_loop_app 0 ["thumb"; "link=https://youtu.be/xyz"] [c]).
  rewrite thumb_link_opts_read. cbn [mbind option_bind file_opts_loop length Nat.add].
  rewrite caption_step by done. cbn [mbind option_bind]. f_equal.
  unfold file_render.
  cbn [last_explicit_caption_idx set_caption nth].
  rewrite bool_decide_eq_false_2 by (by vm_compute).
  pose proof (caption_token_truthy c Hc) as Ht.
  destruct (strip c) as [|ch cap]; [done |].
  change (truthy (String ch cap)) with true.
  generalize (escape (String ch cap)). intros e.
  destruct Hname as [-> | ->]; vm_compute;
    repeat match goal with
    | |- String ?x _ = String ?x _ => apply (f_equal (String x))
    end;
    apply (app_assoc_str e "</figcaption>" "</figure>").
Qed.

(** C5 as stated fails: the embed of [Video.ogg] with a YouTube link and
    no caption is rendered as a figure with an image, not as the plain
    link; the file name does not contain "youtube". *)
Lemma video_embed_counterexample :
  inline html_converter "[[File:Video.ogg|thumb|link=https://youtu.be/xyz]]"
  = Some (figure_open "Video.ogg" +:+ "</figure>")
  /\ inline html_converter "[[File:Video.ogg|thumb|link=https://youtu.be/xyz]]"
     <> Some "<a href='https://youtu.be/xyz'>YouTube</a>"
  /\ contains "youtube" (lower "Video.ogg") = false.
Proof. by vm_compute. Qed.

(** ** Category slugs *)

Lemma final_slug_loop_fresh fuel cslug s i used r :
  final_slug_loop fuel cslug s i used = Some r -> r ∉ used.
Proof.
  revert s i. induction fuel as [|fuel IH]; intros s i; simpl;
    case_bool_decide; try done; try (intros [= <-]; done).
  apply IH.
Qed.

(** The name of a category listing is checked against the page slugs. *)
Lemma category_filename_fresh used ext cat f :
  category_filename used ext cat = Some f ->
  exists s, f = s +:+ ext /\ s ∉ used.
Proof.
  unfold category_filename. destruct (final_slug_loop _ _ _ _ _) as [s|] eqn:E; [| done].
  intros [= <-]. exists s. split; [done | by eapply final_slug_loop_fresh].
Qed.

(** C4 fails on the source: the links to a category are not checked
    against the page slugs.  For the page "Category Foo" with the
    category "Foo", the page is written to [category-foo.html], the
    listing of the category to [category-foo-2.html], and every link to
    the category points to [category-foo.html], the page itself. *)
Lemma category_link_hits_page_file :
  build_pages_files category_foo_pages None
  = Some (["category-foo.html"], [("Foo", "category-foo-2.html")])
  /\ category_href "Foo" = "category-foo.html"
  /\ category_slug "Foo" = "category-foo"
  /\ (fst <$> slugify "Category Foo" ∅) = Some "category-foo"
  /\ inline html_converter "[[Category:Foo]]"
     = Some "<a href='category-foo.html'>Category:Foo</a>".
Proof. by vm_compute. Qed.
(** * Further properties *)

(** ** The registry *)

Lemma register_page_total reg raw : is_Some (register_page reg raw).
Proof.
  unfold register_page.
  destruct (slugify_total (raw_title raw) (used_slugs reg)) as [[s u] ->].
  by eexists.
Qed.

Lemma setdefault_keeps k v (d : gmap string string) k' :
  is_Some (d !! k') -> setdefault k v d !! k' = d !! k'.
Proof.
  intros Hk'. unfold setdefault. destruct (d !! k) eqn:Ek; [done |].
  rewrite lookup_insert_ne; [done |]. intros ->. rewrite Ek in Hk'. by destruct Hk'.
Qed.

Lemma setdefault_keeps_some k v (d : gmap string string) k' x :
  d !! k' = Some x -> setdefault k v d !! k' = Some x.
Proof. intros H. rewrite setdefault_keeps; [done | by eexists]. Qed.

Lemma register_page_spec reg raw reg' :
  register_page reg raw = Some reg' ->
  exists s, (s ∉ used_slugs reg)
    /\ used_slugs reg' = {[s]} ∪ used_slugs reg
    /\ page_objects reg' = page_objects reg ++
         [{| title := raw_title raw; text := latest_text raw; slug := s;
             page_categories := []; revisions := raw_revisions raw |}]
    /\ slug_table reg' !! raw_title raw = Some s
    /\ (forall k x, k <> raw_title raw -> slug_table reg !! k = Some x ->
          slug_table reg' !! k = Some x).
Proof.
  unfold register_page. intros H.
  destruct (slugify _ _) as [[s u]|] eqn:E; [| done].
  apply slugify_fresh in E as [Hs ->]. simpl in H. injection H as <-. simpl.
  exists s. split; [done |]. split; [done |]. split; [done |].
  split.
  - do 3 apply setdefault_keeps_some. apply lookup_insert_eq.
  - intros k x Hk Hin. do 3 apply setdefault_keeps_some.
    by rewrite lookup_insert_ne.
Qed.

Lemma register_pages_total pages : forall reg, is_Some (register_pages reg pages).
Proof.
  induction pages as [|raw pages IH]; intros reg; simpl; [by eexists |].
  destruct (register_page_total reg raw) as [reg' ->]. simpl. apply IH.
Qed.

Lemma register_pages_snoc pages raw reg :
  register_pages reg (pages ++ [raw])
  = (register_pages reg pages ≫= fun reg' => register_page reg' raw).
Proof.
  revert reg. induction pages as [|r pages IH]; intros reg; simpl.
  - by destruct (register_page reg raw).
  - destruct (register_page reg r) as [reg'|]; simpl; [apply IH | done].
Qed.

(** What the first loop keeps: the slugs of the pages are those of
    [used_slugs] and pairwise different, and the pages follow the input. *)
Lemma register_pages_inv pages : forall reg reg',
  register_pages reg pages = Some reg' ->
  NoDup (slug <$> page_objects reg) ->
  used_slugs reg = list_to_set (slug <$> page_objects reg) ->
  NoDup (slug <$> page_objects reg')
  /\ used_slugs reg' = list_to_set (slug <$> page_objects reg')
  /\ title <$> page_objects reg' = (title <$> page_objects reg) ++ (raw_title <$> pages).
Proof.
  induction pages as [|raw pages IH]; intros reg reg' H Hnd Hu; simpl in H.
  - injection H as <-. by rewrite app_nil_r.
  - destruct (register_page reg raw) as [reg1|] eqn:E; [| done]. simpl in H.
    apply register_page_spec in E as (s & Hs & Hu1 & Hp1 & _).
    apply IH in H as (H1 & H2 & H3).
    + split; [done |]. split; [done |]. rewrite H3, Hp1, fmap_app. simpl.
      by rewrite <- app_assoc.
    + rewrite Hp1, fmap_app. simpl. apply NoDup_app. split; [done |]. split.
      * intros x Hx ->%list_elem_of_singleton. apply Hs. rewrite Hu.
        by apply elem_of_list_to_set.
      * apply NoDup_singleton.
    + rewrite Hu1, Hp1, fmap_app, list_to_set_app_L, Hu. simpl.
      rewrite union_empty_r_L. apply (comm_L (∪)).
Qed.

(** X1: Every page of the dump gets a slug, and no two pages get the same. *)
Theorem pages_get_distinct_slugs (pages : list RawPage) (limit : option nat) :
  exists reg, register_pages registry_init (limited limit pages) = Some reg
    /\ NoDup (slug <$> page_objects reg)
    /\ used_slugs reg = list_to_set (slug <$> page_objects reg)
    /\ title <$> page_objects reg = raw_title <$> limited limit pages.
Proof.
  destruct (register_pages_total (limited limit pages) registry_init) as [reg H].
  exists reg. split; [done |].
  apply register_pages_inv in H; [done | apply NoDup_nil_2 | done].
Qed.

Lemma last_titled_snoc t pages p :
  last_titled t (pages ++ [p])
  = if decide (title p = t) then Some p else last_titled t pages.
Proof.
  unfold last_titled. rewrite filter_app, filter_cons, filter_nil.
  destruct (decide (title p = t)); [apply last_snoc | by rewrite app_nil_r].
Qed.

Lemma last_titled_is_Some t pages :
  t ∈ (title <$> pages) -> is_Some (last_titled t pages).
Proof.
  induction pages as [|p pages IH] using rev_ind; [by intros ?%elem_of_nil |].
  rewrite fmap_app, last_titled_snoc. intros [H | H%list_elem_of_singleton]%elem_of_app.
  - destruct (decide _); [by eexists | by apply IH].
  - simpl in H. subst t. rewrite decide_True by done. by eexists.
Qed.

Lemma register_pages_lookup pages : forall reg t,
  register_pages registry_init pages = Some reg ->
  t ∈ (raw_title <$> pages) ->
  exists p, last_titled t (page_objects reg) = Some p
            /\ slug_table reg !! t = Some (slug p).
Proof.
  induction pages as [|raw pages IH] using rev_ind; intros reg t H Ht;
    [by apply elem_of_nil in Ht |].
  rewrite register_pages_snoc in H.
  destruct (register_pages registry_init pages) as [reg1|] eqn:E1; [| done]. simpl in H.
  pose proof (register_pages_inv _ _ _ E1 (NoDup_nil_2) eq_refl) as (_ & _ & Ht1).
  simpl in Ht1.
  apply register_page_spec in H as (s & _ & _ & Hp & Hs & Hk).
  rewrite Hp, last_titled_snoc. simpl.
  destruct (decide (raw_title raw = t)) as [<- | Hne]; [by eexists |].
  rewrite fmap_app in Ht. apply elem_of_app in Ht as [Ht | Ht%list_elem_of_singleton];
    [| simpl in Ht; congruence].
  destruct (IH reg1 t eq_refl Ht) as (p & Hl & Hsl). exists p. split; [done |].
  apply Hk; [congruence | done].
Qed.

(** X2: The slug table maps the title of every page to the slug of the last
    page of the dump with that title. *)
Theorem title_resolves_to_last_page (pages : list RawPage) (t : string) :
  t ∈ (raw_title <$> pages) ->
  exists reg p, register_pages registry_init pages = Some reg
    /\ last_titled t (page_objects reg) = Some p
    /\ slug_table reg !! t = Some (slug p).
Proof.
  intros Ht. destruct (register_pages_total pages registry_init) as [reg H].
  destruct (register_pages_lookup _ _ _ H Ht) as (p & H1 & H2). by exists reg, p.
Qed.

Lemma title_resolves_to_last_page_witness :
  "Max" ∈ (raw_title <$> two_pages_one_title)
  /\ exists reg p, register_pages registry_init two_pages_one_title = Some reg
       /\ last_titled "Max" (page_objects reg) = Some p
       /\ slug_table reg !! "Max" = Some (slug p).
Proof.
  assert ("Max" ∈ (raw_title <$> two_pages_one_title)) as H by (by left).
  split; [exact H | exact (title_resolves_to_last_page two_pages_one_title "Max" H)].
Defined.

(** ** The collision loops *)

Lemma slugify_loop_first_free fuel base slug i used s :
  slugify_loop fuel base slug i used = Some s ->
  ((slug ∉ used) /\ s = slug)
  \/ (slug ∈ used /\ exists j, (i <= j)%nat /\ s = base +:+ "-" +:+ pretty j
                      /\ (s ∉ used)
                      /\ forall k, (i <= k < j)%nat -> base +:+ "-" +:+ pretty k ∈ used).
Proof.
  revert slug i. induction fuel as [|fuel IH]; intros slug i; simpl;
    case_bool_decide as Hin; try done; try (intros [= <-]; by left).
  intros H. right. split; [done |]. apply IH in H as [[Hn ->] | (Hi & j & Hj & -> & Hn & Hk)].
  - exists i. split; [lia |]. split; [done |]. split; [done |]. intros k Hk. lia.
  - exists j. split; [lia |]. split; [done |]. split; [done |]. intros k Hk'.
    destruct (decide (k = i)) as [-> | Hne]; [done | apply Hk; lia].
Qed.

Lemma final_slug_loop_eq fuel cslug s i used :
  final_slug_loop fuel cslug s i used = slugify_loop fuel cslug s i used.
Proof.
  revert s i. induction fuel as [|fuel IH]; intros s i; simpl; [done |].
  by rewrite IH.
Qed.

(** X3: [slugify] returns the first of [base], [base-2], [base-3], ... that is
    not in [used], and adds it to the set. *)
Theorem slugify_first_free (T : string) (used : gset string) :
  exists s, slugify T used = Some (s, {[s]} ∪ used)
    /\ (s ∉ used)
    /\ (((base_slug T ∉ used) /\ s = base_slug T)
        \/ (base_slug T ∈ used
            /\ exists j, (2 <= j)%nat /\ s = base_slug T +:+ "-" +:+ pretty j
                 /\ forall k, (2 <= k < j)%nat ->
                      base_slug T +:+ "-" +:+ pretty k ∈ used)).
Proof.
  destruct (slugify_total T used) as [[s u] H].
  pose proof (slugify_fresh _ _ _ _ H) as [Hs ->]. exists s. split; [done |].
  split; [done |]. unfold slugify in H.
  destruct (slugify_loop _ _ _ _ _) as [s'|] eqn:E; simplify_eq/=.
  apply slugify_loop_first_free in E as [? | (? & j & ? & ? & ? & ?)]; [by left |].
  right. split; [done |]. by exists j.
Qed.

(** X4: The file of a category listing is named after the first of
    [category-x], [category-x-2], ... that is no slug of a page. *)
Theorem category_file_first_free (used : gset string) (ext cat : string) :
  exists s, category_filename used ext cat = Some (s +:+ ext)
    /\ (s ∉ used)
    /\ (((category_slug cat ∉ used) /\ s = category_slug cat)
        \/ (category_slug cat ∈ used
            /\ exists j, (2 <= j)%nat /\ s = category_slug cat +:+ "-" +:+ pretty j
                 /\ forall k, (2 <= k < j)%nat ->
                      category_slug cat +:+ "-" +:+ pretty k ∈ used)).
Proof.
  unfold category_filename. rewrite final_slug_loop_eq.
  destruct (slugify_loop_total (category_slug cat) used) as [s E]. rewrite E. simpl.
  exists s. split; [done |]. split; [by eapply slugify_loop_fresh |].
  apply slugify_loop_first_free in E as [? | (? & j & ? & ? & ? & ?)]; [by left |].
  right. split; [done |]. by exists j.
Qed.

(** ** What a match tells

[reach ic r st st']: the pattern [r] can take the matcher from [st]
    to [st'].  Every result of [rmatch] goes through such a state. *)
Fixpoint reach (ic : bool) (r : regex) (st st' : mstate) : Prop :=
  match r with
  | REps => st' = st
  | RAtom a =>
      exists c rest, m_rest st = String c rest /\ atom_matches ic a c = true
        /\ st' = MState (S (m_pos st)) rest (m_caps st)
  | RSeq r1 r2 => exists mid, reach ic r1 st mid /\ reach ic r2 mid st'
  | RAlt r1 r2 => reach ic r1 st st' \/ reach ic r2 st st'
  | RStar _ a =>
      exists run rest, all_chars (atom_matches ic a) run = true
        /\ m_rest st = run +:+ rest
        /\ st' = MState (m_pos st + String.length run) rest (m_caps st)
  | RGroup n r' =>
      exists st1, reach ic r' st st1
        /\ st' = MState (m_pos st1) (m_rest st1)
                   ((n, take (m_pos st1 - m_pos st) (m_rest st)) :: m_caps st1)
  | RBackref n =>
      exists g, cap_lookup n (m_caps st) = Some g
        /\ same_text ic (take (String.length g) (m_rest st)) g = true
        /\ st' = MState (m_pos st + String.length g)
                   (drop (String.length g) (m_rest st)) (m_caps st)
  | RBol => m_pos st = 0%nat /\ st' = st
  | REol => (m_rest st = "" \/ m_rest st = String "010" "") /\ st' = st
  end.

Lemma star_greedy_sound {A} ic a s pos (k : nat -> string -> option A) x :
  star_greedy ic a pos s k = Some x ->
  exists run rest, s = run +:+ rest /\ all_chars (atom_matches ic a) run = true
    /\ k (pos + String.length run)%nat rest = Some x.
Proof.
  revert pos. induction s as [|c s IH]; intros pos; simpl.
  - intros H. exists "", "". rewrite Nat.add_0_r. done.
  - destruct (atom_matches ic a c) eqn:Ec.
    + destruct (star_greedy ic a (S pos) s k) as [y|] eqn:E.
      * intros [= <-]. apply IH in E as (run & rest & -> & Hrun & Hk).
        exists (String c run), rest. simpl. rewrite Ec, Hrun.
        replace (pos + S (String.length run))%nat with (S pos + String.length run)%nat by lia.
        done.
      * intros H. exists "", (String c s). by rewrite Nat.add_0_r.
    + intros H. exists "", (String c s). by rewrite Nat.add_0_r.
Qed.

Lemma star_lazy_sound {A} ic a s pos (k : nat -> string -> option A) x :
  star_lazy ic a pos s k = Some x ->
  exists run rest, s = run +:+ rest /\ all_chars (atom_matches ic a) run = true
    /\ k (pos + String.length run)%nat rest = Some x.
Proof.
  revert pos. induction s as [|c s IH]; intros pos; simpl.
  - destruct (k pos "") eqn:E; [| done]. intros [= <-].
    exists "", "". by rewrite Nat.add_0_r.
  - destruct (k pos (String c s)) eqn:E.
    + intros [= <-]. exists "", (String c s). by rewrite Nat.add_0_r.
    + destruct (atom_matches ic a c) eqn:Ec; [| done].
      intros H. apply IH in H as (run & rest & -> & Hrun & Hk).
      exists (String c run), rest. simpl. rewrite Ec, Hrun.
      replace (pos + S (String.length run))%nat with (S pos + String.length run)%nat by lia.
      done.
Qed.

(** The matcher is sound: a result comes from a state the pattern reaches. *)
Lemma rmatch_sound {A} ic r : forall st (k : mstate -> option A) x,
  rmatch ic r st k = Some x -> exists st', reach ic r st st' /\ k st' = Some x.
Proof.
  induction r as [| a | r1 IH1 r2 IH2 | r1 IH1 r2 IH2 | g a | n r IH | n | |];
    intros st k x; simpl.
  - intros H. by exists st.
  - destruct (m_rest st) as [|c s'] eqn:E; [done |].
    destruct (atom_matches ic a c) eqn:Ec; [| done].
    intros H. exists (MState (S (m_pos st)) s' (m_caps st)). split; [| done].
    by exists c, s'.
  - intros H. apply IH1 in H as (mid & H1 & H). apply IH2 in H as (st' & H2 & H).
    exists st'. split; [by exists mid | done].
  - destruct (rmatch ic r1 st k) as [y|] eqn:E.
    + intros [= <-]. apply IH1 in E as (st' & H1 & H). exists st'. split; [by left | done].
    + intros H. apply IH2 in H as (st' & H2 & H). exists st'. split; [by right | done].
  - intros H.
    assert (exists run rest, m_rest st = run +:+ rest
              /\ all_chars (atom_matches ic a) run = true
              /\ k (MState (m_pos st + String.length run) rest (m_caps st)) = Some x)
      as (run & rest & Hs & Hrun & Hk).
    { destruct g; [apply star_greedy_sound in H | apply star_lazy_sound in H];
        destruct H as (run & rest & ? & ? & ?); by exists run, rest. }
    exists (MState (m_pos st + String.length run) rest (m_caps st)). split; [| done].
    by exists run, rest.
  - intros H. apply IH in H as (st1 & H1 & H).
    eexists. split; [| exact H]. by exists st1.
  - destruct (cap_lookup n (m_caps st)) as [g|] eqn:E; [| done].
    destruct (same_text _ _ _) eqn:Es; [| done].
    intros H. eexists. split; [| exact H]. by exists g.
  - destruct (m_pos st =? 0)%nat eqn:E; [| done]. apply Nat.eqb_eq in E.
    intros H. by exists st.
  - intros H. exists st.
    destruct (m_rest st) as [|c [|d s']] eqn:E.
    + split; [| done]. split; [by left | done].
    + destruct c as [[] [] [] [] [] [] [] []]; try discriminate H.
      split; [| done]. split; [by right | done].
    + destruct c as [[] [] [] [] [] [] [] []]; discriminate H.
Qed.

Lemma take_drop_str n s : take n s +:+ drop n s = s.
Proof.
  revert s. induction n as [|n IH]; intros [|c s]; simpl; try done.
  by rewrite app_cons_str, IH.
Qed.

Lemma length_lower s : String.length (lower s) = String.length s.
Proof. induction s as [|c s IH]; simpl; [done | by rewrite IH]. Qed.

Lemma same_text_length ic a b : same_text ic a b = true -> String.length a = String.length b.
Proof.
  unfold same_text. destruct ic; intros H%String.eqb_eq.
  - apply (f_equal String.length) in H. by rewrite !length_lower in H.
  - by subst.
Qed.

(** What a pattern has consumed between two states. *)
Lemma reach_consumes ic r : forall st st',
  reach ic r st st' ->
  exists used, m_rest st = used +:+ m_rest st'
    /\ m_pos st' = (m_pos st + String.length used)%nat.
Proof.
  induction r as [| a | r1 IH1 r2 IH2 | r1 IH1 r2 IH2 | g a | n r IH | n | |];
    intros st st'; simpl.
  - intros ->. exists "". by rewrite Nat.add_0_r.
  - intros (c & rest & Hs & _ & ->). exists (String c ""). simpl in *. split; [done | lia].
  - intros (mid & H1 & H2). apply IH1 in H1 as (u1 & E1 & P1).
    apply IH2 in H2 as (u2 & E2 & P2). exists (u1 +:+ u2).
    rewrite E1, E2, P2, P1, app_assoc_str, length_app. split; [done | lia].
  - intros [H | H]; [by apply IH1 | by apply IH2].
  - intros (run & rest & _ & Hs & ->). by exists run.
  - intros (st1 & H1 & ->). simpl. by apply IH.
  - intros (gtxt & _ & Hg%same_text_length & ->). simpl.
    exists (take (String.length gtxt) (m_rest st)).
    by rewrite take_drop_str, Hg.
  - intros [_ ->]. exists "". by rewrite Nat.add_0_r.
  - intros [_ ->]. exists "". by rewrite Nat.add_0_r.
Qed.

Lemma reach_plus ic g a st st' :
  reach ic (plus g a) st st' ->
  exists c run rest, atom_matches ic a c = true
    /\ all_chars (atom_matches ic a) run = true
    /\ m_rest st = String c run +:+ rest
    /\ st' = MState (m_pos st + S (String.length run)) rest (m_caps st).
Proof.
  simpl. intros (mid & (c & r1 & Hs & Hc & ->) & run & rest & Hrun & Hm & ->). simpl in *.
  exists c, run, rest. rewrite Hs, Hm. split; [done |]. split; [done |]. split; [done |].
  f_equal. lia.
Qed.

(** The text of a group that is a repetition of one or more characters. *)
Lemma reach_group_plus ic n g a st st' :
  reach ic (RGroup n (plus g a)) st st' ->
  exists c run rest, atom_matches ic a c = true
    /\ all_chars (atom_matches ic a) run = true
    /\ m_rest st = String c run +:+ rest
    /\ st' = MState (m_pos st + S (String.length run)) rest
               ((n, String c run) :: m_caps st).
Proof.
  cbn [reach]. intros (st1 & H & ->).
  apply reach_plus in H as (c & run & rest & Hc & Hrun & Hs & ->).
  exists c, run, rest. cbn [m_pos m_rest m_caps]. split; [done |]. split; [done |].
  split; [done |]. f_equal. f_equal. f_equal. rewrite Hs.
  replace (m_pos st + S (String.length run) - m_pos st)%nat
    with (String.length (String c run)) by (simpl; lia).
  apply take_app_length.
Qed.

Lemma re_match_sound ic r s m :
  re_match ic r s = Some m ->
  exists st', reach ic r (MState 0 s []) st' /\ mo_caps m = m_caps st'.
Proof.
  unfold re_match, match_at. destruct (rmatch _ _ _ _) as [st|] eqn:E; [| done].
  intros [= <-]. apply rmatch_sound in E as (st' & H & [= <-]). by exists st'.
Qed.

(** ** Lists *)

Lemma list_stack_open_lists n t st :
  list_stack (open_lists n t st) = replicate n t ++ list_stack st.
Proof.
  revert st. induction n as [|n IH]; intros st; simpl; [done |].
  rewrite IH. simpl. clear IH. induction n as [|n IH]; simpl; [done | by rewrite IH].
Qed.

Lemma last_char_is_Some c s : is_Some (last_char (String c s)).
Proof.
  revert c. induction s as [|d s IH]; intros c; [by eexists |].
  change (last_char (String c (String d s))) with (last_char (String d s)). apply IH.
Qed.

Lemma list_item_stack (self : WikiConverter) (m : mobj) (st st' : cstate)
    (markers : string) (mt : ascii) :
  group 1 m = Some markers -> last_char markers = Some mt ->
  (1 <= String.length markers)%nat ->
  list_item self m st = Some st' ->
  length (list_stack st') = String.length markers /\ head (list_stack st') = Some mt.
Proof.
  intros Hg1 Hmt HL Hl. unfold list_item in Hl. rewrite Hg1 in Hl.
  change (default "" (Some markers)) with markers in Hl. rewrite Hmt in Hl.
  change (default "*"%char (Some mt)) with mt in Hl.
  remember (String.length markers) as L eqn:EL. clear EL Hg1 Hmt.
  destruct (inline self _) as [body_html|]; [| discriminate Hl].
  cbn [mbind option_bind] in Hl. injection Hl as <-. cbn [list_stack emit].
  set (st1 := open_lists (L - length (list_stack st)) mt st) in *.
  set (st2 := if (L <? length (list_stack st))%nat then close_lists L st1 else st1) in *.
  assert (length (list_stack st2) = L) as H2.
  { subst st2. destruct (Nat.ltb_spec L (length (list_stack st))).
    - destruct (close_lists_spec L st1) as [-> _]. subst st1.
      rewrite list_stack_open_lists, List.length_skipn, List.length_app, length_replicate. lia.
    - subst st1. rewrite list_stack_open_lists, List.length_app, length_replicate. lia. }
  destruct L as [|L']; [lia |].
  destruct (list_stack st2) as [|top rest] eqn:E2; [done |].
  destruct (Ascii.eqb top mt) eqn:Et; cbn [negb].
  - apply Ascii.eqb_eq in Et. subst top. by rewrite E2.
  - cbn [push_list list_stack]. destruct (close_lists_spec (S L' - 1) st2) as [-> _].
    rewrite E2. simpl in H2. split; [| done]. simpl. rewrite List.length_skipn. simpl. lia.
Qed.

(** X5: After a list item the nesting depth is the number of its markers and
    the innermost open list has the type of the last marker. *)
Theorem list_item_sets_depth (self : WikiConverter) (line : string) (m : mobj)
    (st st' : cstate) :
  re_match false LIST_ITEM_RE line = Some m ->
  list_item self m st = Some st' ->
  exists markers, group 1 m = Some markers
    /\ (1 <= String.length markers)%nat
    /\ length (list_stack st') = String.length markers
    /\ head (list_stack st') = last_char markers.
Proof.
  intros Hm Hl. apply re_match_sound in Hm as (fin & Hr & Hcaps).
  unfold LIST_ITEM_RE in Hr. cbn [rseq] in Hr.
  destruct Hr as (s1 & [_ ->] & s2 & Hg & s3 & Hstar & Hg2).
  apply reach_group_plus in Hg as (c & run & r2 & _ & _ & _ & ->).
  destruct Hstar as (ws & r3 & _ & _ & ->). destruct Hg2 as (s4 & (body & r4 & _ & _ & ->) & ->).
  cbn [m_caps m_pos m_rest] in *.
  assert (group 1 m = Some (String c run)) as Hg1 by (unfold group; by rewrite Hcaps).
  destruct (last_char_is_Some c run) as [mt Hmt].
  assert (1 <= String.length (String c run))%nat as HL by (simpl; lia).
  exists (String c run). split; [done |]. split; [done |]. rewrite Hmt.
  by eapply list_item_stack.
Qed.

Lemma list_item_sets_depth_witness :
  let m := MObj 0 "*# x" [(2%nat, "x"); (1%nat, "*#")] "" in
  let st' := emit "<li>x</li>" (push_list "#" (push_list "#" cstate_init)) in
  re_match false LIST_ITEM_RE "*# x" = Some m
  /\ list_item html_converter m cstate_init = Some st'
  /\ exists markers, group 1 m = Some markers
    /\ (1 <= String.length markers)%nat
    /\ length (list_stack st') = String.length markers
    /\ head (list_stack st') = last_char markers.
Proof.
  intros m st'.
  assert (re_match false LIST_ITEM_RE "*# x" = Some m) as H1 by (by vm_compute).
  assert (list_item html_converter m cstate_init = Some st') as H2 by (by vm_compute).
  split; [exact H1 |]. split; [exact H2 |].
  exact (list_item_sets_depth html_converter "*# x" m cstate_init st' H1 H2).
Defined.

(** ** Headings *)

Lemma count_leading_run c run d rest :
  all_chars (atom_matches false (AChar c)) run = true ->
  atom_matches false (not_of (String c "")) d = true ->
  count_leading c (run +:+ String d rest) = String.length run.
Proof.
  intros Hrun Hd. induction run as [|x run IH].
  - rewrite app_nil_l_str. simpl. unfold atom_matches, not_of in Hd. simpl in Hd.
    rewrite orb_false_r in Hd. by destruct (Ascii.eqb d c).
  - rewrite app_cons_str. simpl in *. apply andb_prop in Hrun as [Hx Hrun].
    unfold atom_matches in Hx. rewrite Hx. by rewrite IH.
Qed.

(** X6: The level of a heading is the number of [=] the line starts with, at
    most 6; the number of [=] that close it plays no part. *)
Theorem heading_level_is_leading_run (line : string) (m : mobj) :
  re_match false HEADING_RE line = Some m ->
  exists content,
    (1 <= count_leading "=" line)%nat
    /\ heading_block m
       = "<h" +:+ pretty (Nat.min (count_leading "=" line) 6)
         +:+ " id='" +:+ escape (heading_id content) +:+ "'>" +:+ escape content
         +:+ "</h" +:+ pretty (Nat.min (count_leading "=" line) 6) +:+ ">".
Proof.
  intros Hm. apply re_match_sound in Hm as (fin & Hr & Hcaps).
  unfold HEADING_RE in Hr. cbn [rseq] in Hr.
  destruct Hr as (s1 & [_ ->] & s2 & Hg1 & s3 & Hg2 & s4 & Hg3 & s5 & Hstar & [_ ->]).
  apply reach_group_plus in Hg1 as (c & run & r2 & Hc & Hrun & Hline & ->).
  destruct Hg2 as (t2 & (t1 & (d & r3 & Hd & Hdm & ->) & (body & r4 & _ & _ & ->)) & ->).
  apply reach_group_plus in Hg3 as (c3 & run3 & r5 & _ & _ & _ & ->).
  destruct Hstar as (ws & r6 & _ & _ & ->).
  cbn [m_caps m_pos m_rest] in *. subst r2.
  assert (count_leading "=" line = String.length (String c run)) as Hn.
  { rewrite Hline. apply count_leading_run; [| done]. simpl. by rewrite Hc, Hrun. }
  unfold heading_block, group. rewrite Hcaps. cbn [cap_lookup Nat.eqb default].
  rewrite Hn. eexists. split; [simpl; lia | reflexivity].
Qed.

Lemma heading_level_is_leading_run_witness :
  let m := MObj 0 "= Max ===" [(3%nat, "==="); (2%nat, " Max "); (1%nat, "=")] "" in
  re_match false HEADING_RE "= Max ===" = Some m
  /\ heading_block m = "<h1 id='max'>Max</h1>"
  /\ exists content,
    (1 <= count_leading "=" "= Max ===")%nat
    /\ heading_block m
       = "<h" +:+ pretty (Nat.min (count_leading "=" "= Max ===") 6)
         +:+ " id='" +:+ escape (heading_id content) +:+ "'>" +:+ escape content
         +:+ "</h" +:+ pretty (Nat.min (count_leading "=" "= Max ===") 6) +:+ ">".
Proof.
  intros m.
  assert (re_match false HEADING_RE "= Max ===" = Some m) as H1 by (by vm_compute).
  split; [exact H1 |]. split; [by vm_compute |].
  exact (heading_level_is_leading_run "= Max ===" m H1).
Defined.

(** ** Substitution where the pattern cannot start *)

Lemma reach_first_atom ic r a : forall st st',
  first_atom r = Some a -> reach ic r st st' ->
  exists c rest, m_rest st = String c rest /\ atom_matches ic a c = true.
Proof.
  induction r as [| b | r1 IH1 r2 IH2 | r1 IH1 r2 IH2 | g b | n r IH | n | |];
    intros st st' Hf; simpl in Hf; try done.
  - injection Hf as ->. intros (c & rest & Hs & Hc & _). by exists c, rest.
  - intros (mid & H1 & _). by eapply IH1.
  - intros (st1 & H1 & _). by eapply IH.
Qed.

Lemma match_at_stops ic r a pos s :
  first_atom r = Some a -> stops ic a s = true -> match_at ic r pos s = None.
Proof.
  intros Hf Hs. unfold match_at. destruct (rmatch _ _ _ _) as [st|] eqn:E; [| done].
  apply rmatch_sound in E as (st' & Hr & _).
  destruct (reach_first_atom _ _ _ _ _ Hf Hr) as (c & rest & Hc & Ha). simpl in Hc.
  subst s. simpl in Hs. by rewrite Ha in Hs.
Qed.

Lemma sub_go_no_start {St} ic r a (repl : mobj -> St -> option (string * St)) s :
  first_atom r = Some a ->
  all_chars (fun c => negb (atom_matches ic a c)) s = true ->
  forall fuel pos st, sub_go ic r repl fuel pos s st = Some (s, st).
Proof.
  intros Hf Hs fuel. revert s Hs. induction fuel as [|fuel IH]; intros s Hs pos st; [done |].
  cbn [sub_go]. rewrite (match_at_stops ic r a); [| done |].
  - destruct s as [|c s]; [done |]. simpl in Hs. apply andb_prop in Hs as [_ Hs].
    by rewrite IH.
  - destruct s as [|c s]; [done |]. simpl in *. by apply andb_prop in Hs as [-> _].
Qed.

Lemma sub_total_no_start ic r a repl s :
  first_atom r = Some a ->
  all_chars (fun c => negb (atom_matches ic a c)) s = true ->
  sub_total ic r repl s = s.
Proof.
  intros Hf Hs. unfold sub_total, sub_fn, sub_state.
  by rewrite (sub_go_no_start ic r a).
Qed.

Lemma plain_char c :
  negb (mem_char c "['") = true ->
  atom_matches true (AChar "[") c = false
  /\ atom_matches false (AChar "[") c = false
  /\ atom_matches false (AChar "'") c = false.
Proof. destruct c as [[] [] [] [] [] [] [] []]; by vm_compute. Qed.

Lemma all_chars_impl (p q : ascii -> bool) s :
  (forall c, p c = true -> q c = true) -> all_chars p s = true -> all_chars q s = true.
Proof.
  intros H. induction s as [|c s IH]; [done |]. simpl.
  intros [Hc Hs]%andb_prop. by rewrite (H c Hc), IH.
Qed.

(** X8: A text without [[] and ['] goes through [inline] as it is: in
    particular, HTML in the text of a page is not escaped. *)
Theorem inline_keeps_plain_text (self : WikiConverter) (text : string) :
  all_chars (fun c => negb (mem_char c "['")) text = true ->
  inline self text = Some text.
Proof.
  intros H.
  assert (all_chars (fun c => negb (atom_matches true (AChar "[") c)) text = true) as H1.
  { revert H. apply all_chars_impl. intros c Hc. by destruct (plain_char c Hc) as (-> & _). }
  assert (all_chars (fun c => negb (atom_matches false (AChar "[") c)) text = true) as H2.
  { revert H. apply all_chars_impl. intros c Hc. by destruct (plain_char c Hc) as (_ & -> & _). }
  assert (all_chars (fun c => negb (atom_matches false (AChar "'") c)) text = true) as H3.
  { revert H. apply all_chars_impl. intros c Hc. by destruct (plain_char c Hc) as (_ & _ & ->). }
  unfold inline, sub_fn, sub_state.
  rewrite (sub_go_no_start true FILE_LINK_ANY_RE (AChar "[")) by done. simpl.
  rewrite (sub_total_no_start false LINK_RE (AChar "[")) by done.
  rewrite (sub_total_no_start false EXTERNAL_LINK_RE (AChar "[")) by done.
  rewrite (sub_total_no_start false BOLD_ITALIC_RE (AChar "'")) by done.
  rewrite (sub_total_no_start false BOLD_RE (AChar "'")) by done.
  by rewrite (sub_total_no_start false ITALIC_RE (AChar "'")) by done.
Qed.

Lemma inline_keeps_plain_text_witness :
  all_chars (fun c => negb (mem_char c "['")) "<script>alert(1)</script>" = true
  /\ inline html_converter "<script>alert(1)</script>" = Some "<script>alert(1)</script>".
Proof.
  split; [reflexivity |].
  apply (inline_keeps_plain_text html_converter "<script>alert(1)</script>"). reflexivity.
Defined.

Lemma strip_templates_no_start rounds text :
  all_chars (fun c => negb (Ascii.eqb c "{")) text = true ->
  strip_templates rounds text = text.
Proof.
  intros H. destruct rounds as [|rounds]; [done |]. simpl.
  unfold sub_const. rewrite (sub_total_no_start false TEMPLATE_RE (AChar "{")); [| done |].
  - by rewrite String.eqb_refl.
  - revert H. by apply all_chars_impl.
Qed.

(** ** Nested templates *)

Lemma repeat_char_comm c n s :
  repeat_char c n +:+ String c s = String c (repeat_char c n +:+ s).
Proof.
  induction n as [|n IH]; simpl; rewrite ?app_nil_l_str, ?app_cons_str; [done |].
  by rewrite IH.
Qed.

Lemma nested_flat n x :
  nested n x = repeat_char "{" (2 * n) +:+ x +:+ repeat_char "}" (2 * n).
Proof.
  induction n as [|n IH]; simpl nested.
  - simpl. by rewrite app_nil_l_str, app_nil_r_str.
  - rewrite IH. replace (2 * S n)%nat with (S (S (2 * n))) by lia.
    cbn [repeat_char]. rewrite !app_cons_str, app_nil_l_str.
    rewrite !app_assoc_str. do 4 f_equal.
    rewrite (repeat_char_comm "}" (2 * n) "}"), (repeat_char_comm "}" (2 * n) "").
    by rewrite app_nil_r_str.
Qed.

Lemma template_fails_on_three pos s :
  match_at false TEMPLATE_RE pos (String "{" (String "{" (String "{" s))) = None.
Proof. reflexivity. Qed.

Lemma no_brace_matches x :
  no_brace x = true -> all_chars (atom_matches false (not_of "{}")) x = true.
Proof.
  apply all_chars_impl. intros c Hc. unfold atom_matches, not_of. simpl.
  simpl in Hc. destruct (Ascii.eqb c "{"), (Ascii.eqb c "}"); done.
Qed.

Lemma template_matches pos x tail :
  no_brace x = true ->
  match_at false TEMPLATE_RE pos ("{{" +:+ x +:+ "}}" +:+ tail)
  = Some (MObj pos ("{{" +:+ x +:+ "}}") [] tail).
Proof.
  intros Hx. unfold match_at, TEMPLATE_RE. cbn [rseq].
  rewrite rmatch_seq, (rmatch_lit false "{{" "{{") by done.
  rewrite rmatch_seq, rmatch_star_greedy.
  erewrite star_greedy_run; [| by apply no_brace_matches | done |].
  2:{ rewrite (rmatch_lit false "}}" "}}") by done. reflexivity. }
  cbn [m_pos m_rest m_caps]. f_equal. f_equal.
  replace (pos + String.length "{{" + String.length x + String.length "}}" - pos)%nat
    with (String.length ("{{" +:+ x +:+ "}}")) by (rewrite !length_app; simpl; lia).
  rewrite <- (app_assoc_str x "}}" tail), <- (app_assoc_str "{{" (x +:+ "}}") tail).
  apply take_app_length.
Qed.

Lemma sub_go_template {St} (repl : mobj -> St -> option (string * St)) x tail :
  (forall m st, repl m st = Some ("", st)) ->
  no_brace x = true ->
  all_chars (fun c => negb (atom_matches false (AChar "{") c)) tail = true ->
  forall fuel pos st, (0 < fuel)%nat ->
    sub_go false TEMPLATE_RE repl fuel pos ("{{" +:+ x +:+ "}}" +:+ tail) st
    = Some (tail, st).
Proof.
  intros Hrepl Hx Htail fuel pos st Hf. destruct fuel as [|fuel]; [lia |].
  cbn [sub_go]. rewrite template_matches by done. rewrite Hrepl.
  cbn [mbind option_bind mo_text mo_rest].
  rewrite (sub_go_no_start false TEMPLATE_RE (AChar "{")) by done.
  rewrite !app_cons_str. simpl. by rewrite app_nil_l_str.
Qed.

(** Braces before a match are copied one by one. *)
Lemma sub_go_open_braces {St} (repl : mobj -> St -> option (string * St)) b0 out :
  (forall fuel pos st, (0 < fuel)%nat ->
     sub_go false TEMPLATE_RE repl fuel pos (String "{" (String "{" b0)) st
     = Some (out, st)) ->
  forall j fuel pos st, (j < fuel)%nat ->
    sub_go false TEMPLATE_RE repl fuel pos
      (repeat_char "{" j +:+ String "{" (String "{" b0)) st
    = Some (repeat_char "{" j +:+ out, st).
Proof.
  intros Hb. induction j as [|j IH]; intros fuel pos st Hf.
  - cbn [repeat_char]. rewrite !app_nil_l_str. by apply Hb.
  - destruct fuel as [|fuel]; [lia |].
    cbn [repeat_char]. rewrite !app_cons_str. cbn [sub_go].
    assert (repeat_char "{" j +:+ String "{" (String "{" b0)
            = String "{" (String "{" (repeat_char "{" j +:+ b0))) as E
      by (by rewrite !repeat_char_comm).
    rewrite E at 1. rewrite template_fails_on_three.
    rewrite IH by lia. done.
Qed.

Lemma length_repeat_char c n : String.length (repeat_char c n) = n.
Proof. induction n as [|n IH]; simpl; [done | by rewrite IH]. Qed.

Lemma nested_inner n x : nested (S n) x = nested n ("{{" +:+ x +:+ "}}").
Proof.
  induction n as [|n IH]; [done |].
  change (nested (S (S n)) x) with ("{{" +:+ nested (S n) x +:+ "}}").
  by rewrite IH.
Qed.

Lemma sub_const_nested n x :
  no_brace x = true ->
  sub_const false TEMPLATE_RE "" (nested (S n) x) = nested n "".
Proof.
  intros Hx. rewrite nested_inner, !nested_flat, app_nil_l_str.
  set (R := repeat_char "}" (2 * n)).
  rewrite !app_assoc_str.
  change ("{{" +:+ x +:+ "}}" +:+ R) with (String "{" (String "{" (x +:+ "}}" +:+ R))).
  unfold sub_const, sub_total, sub_fn, sub_state.
  rewrite (sub_go_open_braces _ (x +:+ "}}" +:+ R) R).
  - done.
  - intros fuel pos st Hf.
    apply (sub_go_template _ x R); [by intros m [] | done | | done].
    subst R. generalize (2 * n)%nat. clear. intros k.
    induction k as [|k IH]; [done |]. simpl. rewrite IH. reflexivity.
  - rewrite length_app, length_repeat_char. lia.
Qed.

Lemma strip_templates_empty rounds : strip_templates rounds "" = "".
Proof. by destruct rounds. Qed.

Lemma nested_length n x : String.length (nested n x) = (4 * n + String.length x)%nat.
Proof.
  induction n as [|n IH]; [simpl; lia |].
  simpl nested. rewrite !app_cons_str, app_nil_l_str. simpl. rewrite length_app, IH.
  simpl. lia.
Qed.

Lemma strip_templates_nested rounds : forall n x,
  no_brace x = true -> (1 <= rounds)%nat -> (1 <= n)%nat ->
  strip_templates rounds (nested n x) = nested (n - rounds) "".
Proof.
  induction rounds as [|rounds IH]; intros n x Hx Hr Hn; [lia |].
  destruct n as [|n]; [lia |]. cbn [strip_templates].
  rewrite sub_const_nested by done.
  destruct (String.eqb_spec (nested n "") (nested (S n) x)) as [E | _].
  { apply (f_equal String.length) in E. rewrite !nested_length in E. simpl in E. lia. }
  replace (S n - S rounds)%nat with (n - rounds)%nat by lia.
  destruct rounds as [|rounds]; [by rewrite Nat.sub_0_r |].
  destruct n as [|n]; [apply strip_templates_empty |].
  apply IH; [done | lia | lia].
Qed.

(** X9: Ten rounds remove ten levels of nested templates, not more: from a
    template nested [n] levels deep the innermost [n - 10] levels of
    braces stay in the text. *)
Theorem templates_nested_deeper_than_ten_stay (n : nat) (x : string) :
  no_brace x = true -> (1 <= n)%nat ->
  strip_templates 10 (nested n x) = nested (n - 10) ""
  /\ (strip_templates 10 (nested n x) = "" <-> (n <= 10)%nat).
Proof.
  intros Hx Hn. rewrite strip_templates_nested by (done || lia). split; [done |].
  split.
  - intros E. apply (f_equal String.length) in E. rewrite nested_length in E.
    simpl in E. lia.
  - intros H. by replace (n - 10)%nat with 0%nat by lia.
Qed.

Lemma templates_nested_deeper_than_ten_stay_witness :
  no_brace "Infobox" = true /\ (1 <= 11)%nat
  /\ strip_templates 10 (nested 11 "Infobox") = "{{}}".
Proof.
  assert (no_brace "Infobox" = true) as H1 by reflexivity.
  assert (1 <= 11)%nat as H2 by lia.
  split; [exact H1 |]. split; [exact H2 |].
  exact (proj1 (templates_nested_deeper_than_ten_stay 11 "Infobox" H1 H2)).
Defined.

(** ** Sizes of file embeds *)

Lemma digit_is_no_letter c :
  atom_matches true digit c = true ->
  isdigit c = true /\ lower_char c = c.
Proof. destruct c as [[] [] [] [] [] [] [] []]; by vm_compute. Qed.

Lemma isdigit_not_a_l c :
  isdigit c = true -> Ascii.eqb "a" c = false /\ Ascii.eqb "l" c = false.
Proof. destruct c as [[] [] [] [] [] [] [] []]; by vm_compute. Qed.

(** What a match of the size pattern looks like. *)
Lemma size_match o m :
  re_match true size_re o = Some m ->
  exists c run rest, o = String c run +:+ rest /\ isdigit c = true
    /\ all_chars isdigit run = true
    /\ group 1 m = Some (String c run)
    /\ (group 2 m = None \/ exists c2 run2, group 2 m = Some (String c2 run2)).
Proof.
  intros Hm. apply re_match_sound in Hm as (fin & Hr & Hcaps).
  unfold size_re in Hr. cbn [rseq] in Hr.
  destruct Hr as (s1 & [_ ->] & s2 & Hg1 & s3 & Hopt & s4 & Hpx & [_ ->]).
  apply reach_group_plus in Hg1 as (c & run & r2 & Hc & Hrun & Ho & ->).
  apply digit_is_no_letter in Hc as [Hc _].
  assert (all_chars isdigit run = true) as Hrun'.
  { clear -Hrun. induction run as [|x run IH]; [done |]. simpl in *.
    apply andb_prop in Hrun as [Hx Hrun]. apply digit_is_no_letter in Hx as [-> _].
    by apply IH. }
  cbn [m_caps m_pos m_rest] in *.
  exists c, run, r2. split; [done |]. split; [done |]. split; [done |].
  destruct Hpx as (p1 & (cp & rp & _ & _ & ->) & (cx & rx & _ & _ & ->)).
  cbn [m_caps m_pos m_rest] in *.
  destruct Hopt as [(x1 & (cx1 & rx1 & _ & _ & ->) & Hg2) | ->].
  - apply reach_group_plus in Hg2 as (c2 & run2 & r3 & _ & _ & _ & ->).
    cbn [m_caps] in Hcaps. unfold group. rewrite Hcaps. simpl. split; [done |].
    right. by exists c2, run2.
  - cbn [m_caps] in Hcaps. unfold group. rewrite Hcaps. simpl. split; [done |]. by left.
Qed.

Lemma three_quarters_overflow w :
  2 ^ 1026 <= 3 * w -> three_quarters w = None.
Proof.
  intros H. unfold three_quarters, B64.truediv.
  replace (w * 3) with (3 * w) by lia. unfold B64.round.
  assert (0 < 2 ^ 1026) by (by apply Z.pow_pos_nonneg).
  destruct (Z.eqb_spec (3 * w) 0); [lia |].
  destruct (ilog2_spec (3 * w) 4) as [_ N]; [lia | lia |].
  assert (1024 <= B64.ilog2 (3 * w) 4) as Hlg.
  { destruct (Z.le_gt_cases 1024 (B64.ilog2 (3 * w) 4)); [done |].
    destruct N. apply (above_mono _ 1024); [lia | lia | lia |].
    unfold B64.above. vm_compute (B64.dn 1024). change (B64.up 1024) with (2 ^ 1024).
    change (2 ^ 1026) with (4 * 2 ^ 1024) in H. lia. }
  rewrite Z.max_l by lia.
  destruct (Z.ltb_spec 971 (B64.ilog2 (3 * w) 4 - 52)); [done | lia].
Qed.

Lemma digits_go_nonneg s : forall acc,
  all_chars isdigit s = true -> 0 <= acc -> 0 <= B64.digits_go s acc.
Proof.
  induction s as [|c s IH]; intros acc Hs Hacc; simpl in *; [done |].
  apply andb_prop in Hs as [Hc Hs]. apply IH; [done |].
  assert (0 <= B64.digit_val c); [| lia].
  clear -Hc. destruct c as [[] [] [] [] [] [] [] []]; by vm_compute.
Qed.

(** X7: A size option [<w>px] or [<w>x<h>px] sets the size and marks it
    explicit.  Without a height the height is [int(w * 3 / 4)]: the
    integer quotient while [3 * w] is below [2^53], and an OverflowError,
    which nothing catches, from [2^1026] on.  (For numerals of at most
    4300 digits, those [int] accepts.) *)
Theorem size_option_sets_size (idx : nat) (opt : string) (f : file_opts) (m : mobj)
    (d : string) :
  re_match true size_re (strip opt) = Some m ->
  group 1 m = Some d ->
  (String.length d <= 4300)%nat ->
  let w := B64.int_of_digits d in
  0 <= w
  /\ (forall g2, group 2 m = Some g2 -> (String.length g2 <= 4300)%nat ->
        file_opt_step idx opt f
        = Some (mark_technical idx (with_size w (B64.int_of_digits g2) true f)))
  /\ (group 2 m = None -> 3 * w < 2 ^ 53 ->
        file_opt_step idx opt f
        = Some (mark_technical idx (with_size w (3 * w / 4) true f)))
  /\ (group 2 m = None -> 2 ^ 1026 <= 3 * w -> file_opt_step idx opt f = None).
Proof.
  intros Hm Hd Hlen w.
  destruct (size_match _ _ Hm) as (c & run & rest & Ho & Hc & Hrun & Hg1 & _).
  rewrite Hd in Hg1. injection Hg1 as ->.
  assert (0 <= w) as Hw.
  { subst w. unfold B64.int_of_digits. apply digits_go_nonneg; [| lia].
    simpl. by rewrite Hc, Hrun. }
  split; [done |].
  destruct (isdigit_not_a_l c Hc) as [Ha Hl].
  assert (forall g, (String.length g <= 4300)%nat ->
            int_of_numeral g = Some (B64.int_of_digits g)) as Hint.
  { intros g Hg. unfold int_of_numeral, int_max_str_digits.
    destruct (Nat.ltb_spec 4300 (String.length g)); [lia | done]. }
  assert (file_opt_step idx opt f
          = (match group 2 m with
             | Some g2 =>
                 match int_of_numeral g2 with
                 | Some h => Some (with_size w h true f)
                 | None => Some f
                 end
             | None => three_quarters w ≫= fun h => Some (with_size w h true f)
             end ≫= fun f' => Some (mark_technical idx f'))) as E.
  { unfold file_opt_step. rewrite Ho, app_cons_str. cbn [truthy negb lower].
    unfold startswith. cbn [strip_prefix].
    destruct (digit_is_no_letter c) as [_ ->].
    { unfold atom_matches, digit. simpl.
      clear -Hc. destruct c as [[] [] [] [] [] [] [] []]; by vm_compute. }
    rewrite Ha, Hl. rewrite <- app_cons_str, <- Ho, Hm, Hd.
    change (default "" (Some (String c run))) with (String c run).
    by rewrite (Hint _ Hlen). }
  rewrite E. split; [| split].
  - intros g2 -> Hg2. by rewrite (Hint _ Hg2).
  - intros -> Hlt. by rewrite three_quarters_floor.
  - intros -> Hge. by rewrite three_quarters_overflow.
Qed.

Lemma size_option_sets_size_witness :
  let m := MObj 0 "300px" [(1%nat, "300")] "" in
  let m' := MObj 0 huge_size [(1%nat, "1" +:+ repeat_char "0" 399)] "" in
  re_match true size_re (strip " 300px ") = Some m
  /\ group 1 m = Some "300" /\ (String.length "300" <= 4300)%nat
  /\ file_opt_step 0 " 300px " file_opts_init
     = Some (mark_technical 0 (with_size 300 225 true file_opts_init))
  /\ re_match true size_re (strip huge_size) = Some m'
  /\ file_opt_step 1 huge_size file_opts_init = None.
Proof.
  intros m m'.
  assert (re_match true size_re (strip " 300px ") = Some m) as H1 by (by vm_compute).
  assert (group 1 m = Some "300") as H2 by reflexivity.
  assert (String.length "300" <= 4300)%nat as H3 by (simpl; lia).
  assert (re_match true size_re (strip huge_size) = Some m') as H4 by (by vm_compute).
  assert (group 1 m' = Some ("1" +:+ repeat_char "0" 399)) as H5 by reflexivity.
  assert (String.length ("1" +:+ repeat_char "0" 399) <= 4300)%nat as H6
    by (apply Nat.leb_le; by vm_compute).
  split; [exact H1 |]. split; [exact H2 |]. split; [exact H3 |]. split; [| split].
  - apply (proj1 (proj2 (proj2 (size_option_sets_size 0 " 300px " file_opts_init m "300"
                                  H1 H2 H3)))); by vm_compute.
  - exact H4.
  - apply (proj2 (proj2 (proj2 (size_option_sets_size 1 huge_size file_opts_init m' _
                                  H4 H5 H6)))); [reflexivity |].
    apply Z.leb_le. by vm_compute.
Defined.

(** ** The shape of slugs *)

Lemma match_at_split ic r pos s m :
  match_at ic r pos s = Some m -> s = mo_text m +:+ mo_rest m.
Proof.
  unfold match_at. destruct (rmatch _ _ _ _) as [st|] eqn:E; [| done].
  intros [= <-]. simpl. apply rmatch_sound in E as (st' & Hr & [= ->]).
  apply reach_consumes in Hr as (used & Hs & Hp). simpl in *.
  rewrite Hs at 1. f_equal. rewrite Hp, Hs.
  replace (pos + String.length used - pos)%nat with (String.length used) by lia.
  by rewrite take_app_length.
Qed.

Lemma match_at_plus_text ic g a pos s m :
  match_at ic (plus g a) pos s = Some m -> mo_text m <> "".
Proof.
  unfold match_at. destruct (rmatch _ _ _ _) as [st|] eqn:E; [| done].
  intros [= <-]. simpl. apply rmatch_sound in E as (st' & Hr & [= ->]).
  apply reach_plus in Hr as (c & run & rest & _ & _ & Hs & ->). simpl in *.
  rewrite Hs. replace (pos + S (String.length run) - pos)%nat with (S (String.length run)) by lia.
  by rewrite app_cons_str.
Qed.

Lemma star_greedy_total {A} ic a s pos (k : nat -> string -> option A) :
  (forall pos' s', is_Some (k pos' s')) -> is_Some (star_greedy ic a pos s k).
Proof.
  intros Hk. revert pos. induction s as [|c s IH]; intros pos; simpl; [apply Hk |].
  destruct (atom_matches ic a c); [| apply Hk].
  destruct (IH (S pos)) as [x ->]. by eexists.
Qed.

Lemma match_at_plus_none ic a pos c s :
  match_at ic (plus true a) pos (String c s) = None -> atom_matches ic a c = false.
Proof.
  unfold match_at, plus. rewrite rmatch_seq, rmatch_atom.
  destruct (atom_matches ic a c); [| done].
  rewrite rmatch_star_greedy.
  destruct (star_greedy_total ic a s (S pos) (fun pos' s' => Some (MState pos' s' [])))
    as [x ->]; [by eexists | done].
Qed.

Lemma all_chars_app p a b :
  all_chars p (a +:+ b) = all_chars p a && all_chars p b.
Proof.
  induction a as [|c a IH]; rewrite ?app_nil_l_str, ?app_cons_str; simpl; [done |].
  by rewrite IH, andb_assoc.
Qed.

(** The characters a substitution leaves are those of the replacements
    and those at which the pattern does not match. *)
Lemma sub_go_all_chars {St} (P : ascii -> bool) ic r
    (repl : mobj -> St -> option (string * St)) :
  (forall m st out st', repl m st = Some (out, st') -> all_chars P out = true) ->
  (forall pos c s, match_at ic r pos (String c s) = None -> P c = true) ->
  (forall pos s m, match_at ic r pos s = Some m -> mo_text m <> "") ->
  forall fuel pos s st out st',
    (String.length s < fuel)%nat ->
    sub_go ic r repl fuel pos s st = Some (out, st') -> all_chars P out = true.
Proof.
  intros Hrepl Hnone Hne. induction fuel as [|fuel IH]; intros pos s st out st' Hf; [lia |].
  cbn [sub_go]. destruct (match_at ic r pos s) as [m|] eqn:Em.
  - destruct (repl m st) as [[o st1]|] eqn:Er; [| done]. cbn [mbind option_bind].
    pose proof (Hne _ _ _ Em) as Hm. pose proof (match_at_split _ _ _ _ _ Em) as Hs.
    destruct (mo_text m) as [|c t] eqn:Et; [done |].
    destruct (sub_go ic r repl fuel _ (mo_rest m) st1) as [[tl st2]|] eqn:Eg; [| done].
    simpl. intros [= <- <-]. rewrite all_chars_app, (Hrepl _ _ _ _ Er). simpl.
    eapply IH; [| exact Eg]. rewrite Hs, length_app in Hf. simpl in Hf. lia.
  - destruct s as [|c s]; [by intros [= <- <-] |].
    destruct (sub_go ic r repl fuel (S pos) s st) as [[tl st1]|] eqn:Eg; [| done].
    simpl. intros [= <- <-]. simpl. rewrite (Hnone _ _ _ Em). simpl.
    eapply IH; [| exact Eg]. simpl in Hf. lia.
Qed.

Lemma sub_go_total {St} ic r (repl : mobj -> St -> option (string * St)) :
  (forall m st, is_Some (repl m st)) ->
  forall fuel pos s st, is_Some (sub_go ic r repl fuel pos s st).
Proof.
  intros Hrepl. induction fuel as [|fuel IH]; intros pos s st; [by eexists |].
  cbn [sub_go]. destruct (match_at ic r pos s) as [m|].
  - destruct (Hrepl m st) as [[o st1] ->]. cbn [mbind option_bind].
    destruct (mo_text m), s; try (by eexists);
      match goal with |- context [sub_go ic r repl fuel ?p ?t ?u] =>
        destruct (IH p t u) as [[tl st2] ->] end; by eexists.
  - destruct s as [|c s]; [by eexists |].
    destruct (IH (S pos) s st) as [[tl st1] ->]. by eexists.
Qed.

Lemma slug_char_kept c :
  atom_matches false (ASet true [IRange "a" "z"; IRange "0" "9"]) c = false ->
  is_slug_char c = true.
Proof. destruct c as [[] [] [] [] [] [] [] []]; by vm_compute. Qed.

Lemma squashed_chars s : all_chars is_slug_char (sub_const false _slug_strip_re "-" s) = true.
Proof.
  unfold sub_const, sub_total, sub_fn, sub_state.
  destruct (sub_go _ _ _ _ _ _ _) as [[out st]|] eqn:E; simpl.
  - eapply (sub_go_all_chars is_slug_char); [| | | | exact E].
    + intros m st0 o st1 [= <- _]. reflexivity.
    + intros pos c s' H. apply slug_char_kept. by apply match_at_plus_none in H.
    + intros pos s' m. apply match_at_plus_text.
    + lia.
  - destruct (sub_go_total false _slug_strip_re
                (fun m (_ : unit) => (fun o => (o, tt)) <$> Some "-")
                (fun _ _ => ltac:(by eexists)) (S (String.length s)) 0 s tt) as [x Hx].
    unfold sub_state in E. congruence.
Qed.

Lemma all_chars_rev_onto p s acc :
  all_chars p (rev_onto s acc) = all_chars p s && all_chars p acc.
Proof.
  revert acc. induction s as [|c s IH]; intros acc; simpl; [done |].
  rewrite IH. simpl. destruct (p c), (all_chars p s), (all_chars p acc); done.
Qed.

Lemma all_chars_drop_while p q s :
  all_chars p s = true -> all_chars p (drop_while q s) = true.
Proof.
  induction s as [|c s IH]; simpl; [done |]. intros [Hc Hs]%andb_prop.
  destruct (q c); [by apply IH | simpl; by rewrite Hc, Hs].
Qed.

Lemma all_chars_strip_by p q s :
  all_chars p s = true -> all_chars p (strip_by q s) = true.
Proof.
  intros H. unfold strip_by, rstrip_by, lstrip_by, rev.
  rewrite all_chars_rev_onto, andb_true_r. apply all_chars_drop_while.
  rewrite all_chars_rev_onto, andb_true_r. by apply all_chars_drop_while.
Qed.

Lemma drop_while_first q s : 
  match drop_while q s with String c _ => q c = false | EmptyString => True end.
Proof.
  induction s as [|c s IH]; simpl; [done |]. destruct (q c) eqn:E; [done | done].
Qed.

Lemma drop_while_split q s :
  exists dropped, s = dropped +:+ drop_while q s.
Proof.
  induction s as [|c s IH]; simpl; [by exists "" |].
  destruct (q c); [| by exists ""]. destruct IH as [d IH]. exists (String c d).
  by rewrite app_cons_str, <- IH.
Qed.

Lemma rev_involutive s : rev (rev s) = s.
Proof. unfold rev at 2. rewrite rev_rev_onto. by rewrite app_nil_l_str. Qed.

Lemma rev_app a b : rev (a +:+ b) = rev b +:+ rev a.
Proof.
  induction a as [|c a IH]; rewrite ?app_nil_l_str, ?app_cons_str.
  - by rewrite app_nil_r_str.
  - unfold rev at 1 3. simpl. rewrite !rev_onto_app, IH. by rewrite app_assoc_str.
Qed.

Lemma last_char_snoc s c : last_char (s +:+ String c "") = Some c.
Proof.
  induction s as [|d s IH]; [done |]. rewrite app_cons_str.
  destruct s as [|e s]; [done |]. rewrite app_cons_str in *.
  change (last_char (String d (String e (s +:+ String c ""))))
    with (last_char (String e (s +:+ String c ""))). exact IH.
Qed.

Lemma last_char_rev s : last_char (rev s) = first_char s.
Proof.
  destruct s as [|c s]; [done |]. unfold rev. simpl. rewrite rev_onto_app.
  apply last_char_snoc.
Qed.

(** What [strip(chars)] leaves has none of [chars] at either end. *)
Lemma strip_by_ends q s :
  match first_char (strip_by q s) with Some c => q c = false | None => True end
  /\ match last_char (strip_by q s) with Some c => q c = false | None => True end.
Proof.
  unfold strip_by, lstrip_by. set (t := drop_while q s). unfold rstrip_by.
  set (w := drop_while q (rev t)). split.
  - destruct (drop_while_split q (rev t)) as [d Hd]. fold w in Hd.
    apply (f_equal rev) in Hd. rewrite rev_involutive, rev_app in Hd.
    pose proof (drop_while_first q s) as Ht. fold t in Ht.
    destruct (rev w) as [|c u]; [done |]. rewrite Hd, app_cons_str in Ht. exact Ht.
  - rewrite last_char_rev. pose proof (drop_while_first q (rev t)) as Hw. fold w in Hw.
    by destruct w.
Qed.

Lemma clean_after_strip s :
  all_chars is_slug_char s = true -> forall d, clean_slug d ->
  clean_slug (str_or (strip_chars "-" s) d).
Proof.
  intros Hs d Hd. destruct (strip_chars "-" s) as [|c u] eqn:E; [done |].
  cbn [str_or]. rewrite <- E. split; [by rewrite E |].
  split; [by apply all_chars_strip_by |].
  destruct (strip_by_ends (fun c => mem_char c "-") s) as [H1 H2]. fold (strip_chars "-" s) in *.
  split.
  - destruct (first_char _) as [x|]; [| done]. intros [= ->]. done.
  - destruct (last_char _) as [x|]; [| done]. intros [= ->]. done.
Qed.

Lemma pretty_N_char_digit y : isdigit (pretty_N_char y) = true.
Proof. unfold pretty_N_char. by repeat case_match. Qed.

Lemma pretty_N_go_digits x : forall s,
  all_chars isdigit s = true -> all_chars isdigit (pretty_N_go x s) = true.
Proof.
  induction (N.lt_wf_0 x) as [x _ IH]; intros s Hs.
  destruct (decide (x = 0)%N) as [-> | Hx]; [by rewrite pretty_N_go_0 |].
  rewrite pretty_N_go_step by lia. apply IH; [apply N.div_lt; lia |].
  simpl. by rewrite pretty_N_char_digit, Hs.
Qed.

Lemma pretty_N_go_last x : forall s,
  s <> "" -> last_char (pretty_N_go x s) = last_char s.
Proof.
  induction (N.lt_wf_0 x) as [x _ IH]; intros s Hs.
  destruct (decide (x = 0)%N) as [-> | Hx]; [by rewrite pretty_N_go_0 |].
  rewrite pretty_N_go_step by lia. rewrite IH; [| apply N.div_lt; lia | done].
  by destruct s.
Qed.

Lemma pretty_nat_digits (n : nat) :
  all_chars isdigit (pretty n) = true
  /\ exists d, last_char (pretty n) = Some d /\ isdigit d = true.
Proof.
  unfold pretty, pretty_nat, pretty, pretty_N.
  destruct (decide (N.of_nat n = 0)%N) as [_ | Hx]; [split; [done | by exists "0"%char] |].
  split; [by apply pretty_N_go_digits |].
  rewrite pretty_N_go_step by lia. rewrite pretty_N_go_last by done.
  eexists. split; [reflexivity | apply pretty_N_char_digit].
Qed.

Lemma last_char_app a c b : last_char (a +:+ String c b) = last_char (String c b).
Proof.
  induction a as [|d a IH]; [done |]. rewrite app_cons_str.
  destruct a as [|e a]; [by rewrite app_nil_l_str |].
  rewrite app_cons_str in *.
  change (last_char (String d (String e (a +:+ String c b))))
    with (last_char (String e (a +:+ String c b))). exact IH.
Qed.

Lemma digit_is_slug_char c : isdigit c = true -> is_slug_char c = true /\ c <> "-"%char.
Proof. destruct c as [[] [] [] [] [] [] [] []]; by vm_compute. Qed.

Lemma clean_suffixed base (j : nat) :
  clean_slug base -> clean_slug (base +:+ "-" +:+ pretty j).
Proof.
  intros (Hne & Hall & Hf & Hl). destruct (pretty_nat_digits j) as (Hd & d & Hld & Hdd).
  destruct base as [|c base]; [done |]. split; [by rewrite app_cons_str |].
  split; [| split].
  - rewrite !all_chars_app, Hall. simpl.
    revert Hd. generalize (pretty j). intros p Hp.
    apply (all_chars_impl isdigit is_slug_char) in Hp; [by rewrite Hp |].
    intros x Hx. by apply digit_is_slug_char.
  - by rewrite app_cons_str.
  - destruct (pretty j) as [|p ps] eqn:Ep; [done |].
    change ("-" +:+ String p ps) with (String "-" (String p ps)).
    rewrite last_char_app.
    change (last_char (String "-" (String p ps))) with (last_char (String p ps)).
    rewrite Hld. intros [= ->]. by apply digit_is_slug_char in Hdd as [_ ?].
Qed.

(** X10: Every slug the module computes from a text is clean. *)
Theorem slugs_are_clean (t : string) :
  clean_slug (base_slug t)
  /\ clean_slug (heading_id t)
  /\ (exists core, category_slug t = "category-" +:+ core /\ clean_slug core)
  /\ forall used : gset string, exists s u, slugify t used = Some (s, u) /\ clean_slug s.
Proof.
  assert (clean_slug (base_slug t)) as Hb
    by (apply clean_after_strip; [apply squashed_chars | by repeat split]).
  split; [| split; [| split]].
  - apply clean_after_strip; [apply squashed_chars | by repeat split].
  - apply clean_after_strip; [apply squashed_chars | by repeat split].
  - eexists. split; [reflexivity |].
    apply clean_after_strip; [apply squashed_chars | by repeat split].
  - intros used. destruct (slugify_total t used) as [[s u] H].
    exists s, u. split; [done |]. unfold slugify in H.
    destruct (slugify_loop _ _ _ _ _) as [s'|] eqn:E; simplify_eq/=.
    apply slugify_loop_first_free in E as [[_ ->] | (_ & j & _ & -> & _)];
      [done | by apply clean_suffixed].
Qed.

(** ** Recorded categories *)

Lemma sub_go_state_inv {St} (P : St -> Prop) ic r
    (repl : mobj -> St -> option (string * St)) :
  (forall m st out st', repl m st = Some (out, st') -> P st -> P st') ->
  forall fuel pos s st out st',
    sub_go ic r repl fuel pos s st = Some (out, st') -> P st -> P st'.
Proof.
  intros Hrepl. induction fuel as [|fuel IH]; intros pos s st out st'; [by intros [= _ <-] |].
  cbn [sub_go]. destruct (match_at ic r pos s) as [m|].
  - destruct (repl m st) as [[o st1]|] eqn:Er; [| done]. cbn [mbind option_bind].
    intros H Hst. pose proof (Hrepl _ _ _ _ Er Hst) as H1.
    destruct (mo_text m), s;
      try (injection H as _ <-; done);
      match type of H with context [sub_go ic r repl fuel ?p ?t ?u] =>
        destruct (sub_go ic r repl fuel p t u) as [[tl st2]|] eqn:Eg; [| done] end;
      simpl in H; injection H as _ <-; by eapply IH.
  - destruct s as [|c s]; [by intros [= _ <-] |].
    destruct (sub_go ic r repl fuel (S pos) s st) as [[tl st1]|] eqn:Eg; [| done].
    simpl. intros [= _ <-]. by eapply IH.
Qed.

Lemma category_repl_ok m c : cats_ok c -> cats_ok (category_repl m c).2.
Proof.
  intros [Hnd Hset]. unfold category_repl. case_bool_decide as Hin; [done |].
  destruct c as [l s]. simpl in *. subst s. split; simpl.
  - apply NoDup_app. split; [done |]. split; [| apply NoDup_singleton].
    intros x Hx ->%list_elem_of_singleton. apply Hin. by apply elem_of_list_to_set.
  - rewrite list_to_set_app_L. simpl. rewrite union_empty_r_L. apply (comm_L (∪)).
Qed.

Lemma strip_categories_ok line c : cats_ok c -> cats_ok (strip_categories line c).2.
Proof.
  intros Hc. unfold strip_categories, sub_state.
  destruct (sub_go _ _ _ _ _ _ _) as [[out c']|] eqn:E; [| done]. simpl.
  eapply (sub_go_state_inv cats_ok); [| exact E | done].
  intros m st o st' [= E'] Hst. pose proof (category_repl_ok m st Hst) as H.
  by rewrite E' in H.
Qed.

Lemma add_part_cats h t part : cats_ok (t_cats t) -> cats_ok (t_cats (add_part h t part)).
Proof.
  intros Hc. unfold add_part.
  match goal with |- context [strip_categories ?p ?c] =>
    pose proof (strip_categories_ok p c Hc) as H; destruct (strip_categories p c) end.
  done.
Qed.

Lemma flush_cats t :
  t_cats (flush_pending_into_cell t) = t_cats t /\ t_cats (flush_row t) = t_cats t.
Proof.
  unfold flush_pending_into_cell, flush_row.
  by destruct (pending_text_lines t), (current_row t).
Qed.

Lemma table_line_cats t tl : cats_ok (t_cats t) -> cats_ok (t_cats (table_line t tl)).
Proof.
  intros Hc. unfold table_line.
  destruct (negb _); [done |]. destruct (startswith _ "|+"); [done |].
  destruct (startswith _ "|-").
  { destruct (flush_cats (flush_pending_into_cell t)) as [_ ->].
    by destruct (flush_cats t) as [-> _]. }
  destruct (_ || _); [| done].
  match goal with |- context [fold_left _ ?l _] => generalize l end.
  intros parts.
  assert (cats_ok (t_cats (flush_pending_into_cell t))) as H0
    by (by destruct (flush_cats t) as [-> _]).
  revert H0. generalize (flush_pending_into_cell t). 
  induction parts as [|p parts IH]; intros t0 H0; [done |].
  simpl. apply IH. by apply add_part_cats.
Qed.

Lemma parse_table_cats lines c : cats_ok c -> cats_ok (t_cats (parse_table lines c)).
Proof.
  intros Hc. unfold parse_table.
  match goal with |- context [fold_left table_line ?l ?t0] =>
    assert (cats_ok (t_cats (fold_left table_line l t0))) as H end.
  { generalize (middle lines). intros l.
    match goal with |- context [fold_left table_line l ?t0] =>
      assert (cats_ok (t_cats t0)) as H0 by done; revert H0; generalize t0 end.
    induction l as [|x l IH]; intros t0 H0; [done |]. simpl. apply IH.
    by apply table_line_cats. }
  match goal with |- context [flush_row ?t] =>
    destruct (flush_cats t) as [_ ->] end.
  match goal with |- context [flush_pending_into_cell ?t] =>
    by destruct (flush_cats t) as [-> _] end.
Qed.

Lemma marks_cats st st' : marks st' = marks st -> state_cats st' = state_cats st.
Proof. unfold marks, state_cats. by intros [= -> -> _ _]. Qed.

Lemma normal_line_cats self st line st' :
  cats_ok (state_cats st) -> normal_line self st line = Some st' ->
  cats_ok (state_cats st').
Proof.
  intros Hc. unfold normal_line.
  pose proof (strip_categories_ok line (categories st, cat_set st) Hc) as H.
  destruct (strip_categories _ _) as [line' c]. simpl in H.
  set (st0 := set_cats c st).
  assert (cats_ok (state_cats st0)) as H0 by (by destruct c).
  assert (forall l, state_cats (emit l (close_lists 0 st0)) = state_cats st0) as He.
  { intros l. change (state_cats (emit l ?s)) with (state_cats s).
    apply marks_cats, marks_close_lists. }
  destruct (negb (truthy (strip line'))); [intros [= <-]; by rewrite He |].
  destruct (re_match false HEADING_RE line') as [m|]; [intros [= <-]; by rewrite He |].
  destruct (re_match false LIST_ITEM_RE line').
  { intros Hl. apply marks_list_item, marks_cats in Hl. by rewrite Hl. }
  destruct (inline self line') as [p|]; [| done]. intros [= <-]. by rewrite He.
Qed.

Lemma convert_line_cats self st raw st' :
  cats_ok (state_cats st) -> convert_line self st raw = Some st' ->
  cats_ok (state_cats st').
Proof.
  intros Hc. unfold convert_line. set (line := rstrip_chars nl raw).
  destruct (_ && _); [by intros [= <-] |].
  destruct (in_table st).
  { destruct (startswith (strip line) "|}"); [| by intros [= <-]].
    unfold finish_table. cbn [table_lines set_table categories cat_set].
    destruct (key_value_style _); [| done]. simpl.
    destruct (render_table _ _ _); [| done]. intros [= <-].
    change (state_cats (set_table ?b ?l ?s)) with (state_cats s).
    change (state_cats (emit_all ?l ?s)) with (state_cats s).
    rewrite (marks_cats _ _ (marks_close_lists _ _)).
    pose proof (parse_table_cats (table_lines st ++ [line]) (categories st, cat_set st) Hc)
      as H.
    by destruct (t_cats _). }
  destruct (_ && _); [by intros [= <-] |].
  destruct (in_collapse st).
  { destruct (contains _ _); [| by intros [= <-]].
    unfold finish_collapse. destruct (inline self _); [| done]. by intros [= <-]. }
  by apply normal_line_cats.
Qed.

Lemma convert_lines_cats self lines : forall st st',
  cats_ok (state_cats st) -> convert_lines self st lines = Some st' ->
  cats_ok (state_cats st').
Proof.
  induction lines as [|raw lines IH]; intros st st' Hc; simpl; [by intros [= <-] |].
  destruct (convert_line self st raw) as [st1|] eqn:E; [| done]. simpl.
  apply IH. by eapply convert_line_cats.
Qed.



(** ** The list tags of the output *)

Lemma replay_tags_app a b s :
  replay_tags (a ++ b) s = replay_tags a s ≫= replay_tags b.
Proof.
  revert s. induction a as [|l a IH]; intros s; simpl; [done |].
  destruct (open_tag_of l); [apply IH |]. destruct (close_tag_of l); [| apply IH].
  destruct s as [|top s]; [done |]. destruct (String.eqb top s0); [apply IH | done].
Qed.

Lemma replay_tags_free ls s : Forall (fun l => tag_free l = true) ls -> replay_tags ls s = Some s.
Proof.
  induction 1 as [|l ls Hl _ IH]; simpl; [done |]. unfold tag_free in Hl.
  by destruct (open_tag_of l), (close_tag_of l).
Qed.

Lemma balanced_emit_all ls st :
  Forall (fun l => tag_free l = true) ls -> balanced st -> balanced (emit_all ls st).
Proof.
  unfold balanced. intros Hls H. simpl. rewrite replay_tags_app, H. simpl.
  by apply replay_tags_free.
Qed.

Lemma balanced_emit l st : tag_free l = true -> balanced st -> balanced (emit l st).
Proof. intros Hl. apply (balanced_emit_all [l]). by constructor. Qed.

Lemma balanced_push t st : balanced st -> balanced (push_list t st).
Proof.
  unfold balanced. intros H. simpl. rewrite replay_tags_app, H. simpl.
  unfold list_tag. by destruct (Ascii.eqb t "*").
Qed.

Lemma balanced_open_lists n t st : balanced st -> balanced (open_lists n t st).
Proof.
  revert st. induction n as [|n IH]; intros st H; simpl; [done |].
  by apply IH, balanced_push.
Qed.

Lemma replay_closes stack k :
  replay_tags (map (fun t => "</" +:+ list_tag t +:+ ">") (firstn k stack))
    (list_tag <$> stack)
  = Some (list_tag <$> skipn k stack).
Proof.
  revert stack. induction k as [|k IH]; intros [|t stack]; simpl; try done.
  unfold list_tag at 1 2 3. destruct (Ascii.eqb t "*"); simpl; apply IH.
Qed.

Lemma balanced_close_lists n st : balanced st -> balanced (close_lists n st).
Proof.
  unfold balanced. intros H. destruct (close_lists_spec n st) as [-> ->].
  rewrite replay_tags_app, H. simpl. apply replay_closes.
Qed.

Lemma balanced_list_item self m st st' :
  balanced st -> list_item self m st = Some st' -> balanced st'.
Proof.
  intros H. unfold list_item.
  set (level := String.length (default "" (group 1 m))).
  set (marker_type := default "*"%char (last_char (default "" (group 1 m)))).
  set (st1 := open_lists _ marker_type st).
  set (st2 := if (_ <? _)%nat then close_lists _ st1 else st1).
  set (st3 := match level with O => st2 | S _ => _ end).
  assert (balanced st2) as H2.
  { unfold st2. destruct (_ <? _)%nat; [apply balanced_close_lists |];
      by apply balanced_open_lists. }
  assert (balanced st3) as H3.
  { unfold st3. destruct level; [done |]. destruct (list_stack st2); [done |].
    destruct (negb _); [| done]. by apply balanced_push, balanced_close_lists. }
  destruct (inline self _); [| done]. intros [= <-]. by apply balanced_emit.
Qed.

Lemma balanced_normal_line self st line st' :
  balanced st -> normal_line self st line = Some st' -> balanced st'.
Proof.
  intros H. unfold normal_line. destruct (strip_categories _ _) as [line' c].
  assert (balanced (close_lists 0 (set_cats c st))) as H0 by (by apply balanced_close_lists).
  destruct (negb (truthy (strip line'))); [intros [= <-]; by apply balanced_emit |].
  destruct (re_match false HEADING_RE line') as [m|].
  { intros [= <-]. apply balanced_emit; [| done]. unfold heading_block.
    reflexivity. }
  destruct (re_match false LIST_ITEM_RE line'); [by apply balanced_list_item |].
  destruct (inline self line') as [p|]; [| done]. intros [= <-].
  by apply balanced_emit.
Qed.

Lemma mapM_tag_free {A} (f : A -> option string) l body :
  (forall x y, f x = Some y -> tag_free y = true) ->
  mapM f l = Some body -> Forall (fun l => tag_free l = true) body.
Proof.
  intros Hf H. apply mapM_Some_1 in H. induction H as [|x y l k Hxy _ IH]; constructor.
  - by eapply Hf. 
  - done.
Qed.

Lemma tag_free_nil : Forall (fun l : string => tag_free l = true) [].
Proof. constructor. Qed.

Lemma render_table_tag_free self t kv lines :
  render_table self t kv = Some lines -> Forall (fun l => tag_free l = true) lines.
Proof.
  unfold render_table.
  assert (forall body, mapM (md_key_value_row self) (rows t) = Some body ->
            Forall (fun l => tag_free l = true) body) as Hkv.
  { intros body. apply mapM_tag_free. intros r y. unfold md_key_value_row.
    destruct r as [|k [|v [|w r']]]; intros Hy; simplify_option_eq; reflexivity. }
  assert (forall n rest body,
            mapM (fun r => md_row <$> md_cells self n r) rest = Some body ->
            Forall (fun l => tag_free l = true) body) as Hmd.
  { intros n rest body. apply mapM_tag_free. intros r y.
    destruct (md_cells _ _ _); simpl; [| done]. by intros [= <-]. }
  assert (forall hdr title,
    Forall (fun l => tag_free l = true) title ->
    (if is_markdown self then
       if kv then
         body ← mapM (md_key_value_row self) (rows t);
         Some (title ++ ["| Key | Value |"; "| --- | ----- |"] ++ body)
       else
         match rows t with
         | [] => Some []
         | header_row :: rest =>
             let n := max_cols (rows t) in
             headers ← md_cells self n header_row;
             body ← mapM (fun r => md_row <$> md_cells self n r) rest;
             Some ([md_row headers; md_row (replicate n "---")] ++ body)
         end
     else if kv then
       body ← mapM (html_key_value_row self) (rows t);
       Some [concat (["<aside class='collapsible infobox'>" +:+ hdr +:+ "<dl>"]
                     ++ body ++ ["</dl></aside>"])]
     else
       body ← mapM (html_row self) (rows t);
       Some [concat (["<table class='wikitable'>"]
                     ++ (if truthy hdr then [hdr] else [])
                     ++ body ++ ["</table>"])]) = Some lines ->
    Forall (fun l => tag_free l = true) lines) as Hmain.
  { intros hdr title Ht. destruct (is_markdown self), kv.
    - destruct (mapM _ _) as [body|] eqn:Eb; simpl; [| done]. intros [= <-].
      apply Forall_app. split; [done |]. do 2 (constructor; [reflexivity |]). by apply Hkv.
    - clear Hkv.
      destruct (rows t) as [|header_row rest]; [intros [= <-]; constructor |]. cbv zeta.
      destruct (md_cells _ _ _) as [headers|]; simpl; [| done].
      destruct (mapM _ _) as [body|] eqn:Eb; simpl; [| done]. intros [= <-].
      do 2 (constructor; [reflexivity |]). by eapply Hmd.
    - clear Hkv Hmd. destruct (mapM _ _) as [body|]; simpl; [| done]. intros [= <-].
      constructor; [| constructor]. by destruct body.
    - clear Hkv Hmd. destruct (mapM _ _) as [body|]; simpl; [| done]. intros [= <-].
      constructor; [| constructor]. by destruct (truthy hdr), body. }
  destruct (truthy (header_text t)).
  - destruct (inline self (header_text t)) as [h|]; [| done].
    intros H. apply (Hmain ("<header>" +:+ h +:+ "</header>")
                       ["**" +:+ _sanitize_md h +:+ "**"]); [by constructor |].
    exact H.
  - intros H. apply (Hmain "" []); [constructor |]. exact H.
Qed.

Lemma balanced_convert_line self st raw st' :
  balanced st -> convert_line self st raw = Some st' -> balanced st'.
Proof.
  intros H. unfold convert_line. set (line := rstrip_chars nl raw).
  destruct (_ && _); [by intros [= <-] |].
  destruct (in_table st).
  { destruct (startswith (strip line) "|}"); [| by intros [= <-]].
    unfold finish_table. destruct (key_value_style _); [| done]. simpl.
    destruct (render_table _ _ _) as [lines|] eqn:Er; [| done]. intros [= <-].
    apply render_table_tag_free in Er.
    change (balanced (set_table ?b ?l ?s)) with (balanced s).
    apply balanced_emit_all; [done |]. by apply balanced_close_lists. }
  destruct (_ && _); [by intros [= <-] |].
  destruct (in_collapse st).
  { destruct (contains _ _); [| by intros [= <-]].
    unfold finish_collapse. destruct (inline self _); [| done]. intros [= <-].
    change (balanced (set_collapse ?b ?l ?s)) with (balanced s).
    by apply balanced_emit. }
  by apply balanced_normal_line.
Qed.

Lemma balanced_convert_lines self lines : forall st st',
  balanced st -> convert_lines self st lines = Some st' -> balanced st'.
Proof.
  induction lines as [|raw lines IH]; intros st st' H; simpl; [by intros [= <-] |].
  destruct (convert_line self st raw) as [st1|] eqn:E; [| done]. simpl.
  apply IH. by eapply balanced_convert_line.
Qed.

(** X12: The list tags of the output are well nested: every closing tag
    closes the list opened last, and at the end of the page every list
    is closed. *)
Theorem list_tags_are_balanced (self : WikiConverter) (text : string) (st : cstate) :
  convert_body self text = Some st ->
  replay_tags (html_lines st) [] = Some [] /\ list_stack st = [].
Proof.
  unfold convert_body. destruct (convert_lines _ _ _) as [st1|] eqn:E; [| done].
  simpl. intros [= <-]. apply balanced_convert_lines in E; [| done].
  apply (balanced_close_lists 0) in E. unfold balanced in E.
  destruct (close_lists_spec 0 st1) as [Hs _]. rewrite Nat.sub_0_r, skipn_all in Hs.
  rewrite Hs in E. by rewrite Hs.
Qed.

Lemma list_tags_are_balanced_witness :
  exists st, convert_body html_converter
               ("* a" +:+ nl +:+ "## b" +:+ nl +:+ "text" +:+ nl +:+ "# c") = Some st
    /\ html_lines st = ["<ul>"; "<li>a</li>"; "<ol>"; "<li>b</li>"; "</ol>"; "</ul>";
                        "<p>text</p>"; "<ol>"; "<li>c</li>"; "</ol>"]
    /\ replay_tags (html_lines st) [] = Some [] /\ list_stack st = [].
Proof.
  eexists. split; [by vm_compute |]. split; [by vm_compute |].
  apply (list_tags_are_balanced html_converter
           ("* a" +:+ nl +:+ "## b" +:+ nl +:+ "text" +:+ nl +:+ "# c")).
  by vm_compute.
Defined.

(** ** Blocks that are never closed *)

Lemma open_table_swallows self lines : forall st,
  in_table st = true ->
  Forall (fun raw => closes_table raw = false) lines ->
  exists st', convert_lines self st lines = Some st'
    /\ html_lines st' = html_lines st /\ list_stack st' = list_stack st
    /\ categories st' = categories st /\ in_table st' = true
    /\ in_collapse st' = in_collapse st
    /\ table_lines st' = table_lines st ++ map (rstrip_chars nl) lines.
Proof.
  induction lines as [|raw lines IH]; intros st Ht Hl.
  - exists st. by rewrite app_nil_r.
  - apply Forall_cons in Hl as [Hraw Hl]. simpl. unfold convert_line at 1.
    rewrite Ht, andb_false_r. simpl. unfold closes_table in Hraw. rewrite Hraw. simpl.
    destruct (IH (set_table true (table_lines st ++ [rstrip_chars nl raw]) st))
      as (st' & -> & H1 & H2 & H3 & H4 & H5 & H6); [done | done |].
    exists st'. simpl in *. rewrite H6, <- app_assoc. done.
Qed.

Lemma open_collapsible_swallows self lines : forall st,
  in_collapse st = true -> in_table st = false ->
  Forall (fun raw => closes_collapsible raw = false) lines ->
  exists st', convert_lines self st lines = Some st'
    /\ html_lines st' = html_lines st /\ list_stack st' = list_stack st
    /\ categories st' = categories st /\ in_collapse st' = true
    /\ in_table st' = false
    /\ collapse_lines st' = collapse_lines st ++ map (rstrip_chars nl) lines.
Proof.
  induction lines as [|raw lines IH]; intros st Hc Ht Hl.
  - exists st. by rewrite app_nil_r.
  - apply Forall_cons in Hl as [Hraw Hl]. simpl. unfold convert_line at 1.
    rewrite Hc, Ht. simpl. unfold closes_collapsible in Hraw. rewrite Hraw. simpl.
    destruct (IH (set_collapse true (collapse_lines st ++ [rstrip_chars nl raw]) st))
      as (st' & -> & H1 & H2 & H3 & H4 & H5 & H6); [done | done | done |].
    exists st'. simpl in *. rewrite H6, <- app_assoc. done.
Qed.

(** X13: A table or a collapsible block that is never closed takes the rest
    of the page with it: the lines after its opening add nothing to the
    output and record no category. *)
Theorem unclosed_block_drops_the_rest (self : WikiConverter) (st : cstate)
    (lines : list string) :
  (in_table st = true /\ Forall (fun raw => closes_table raw = false) lines)
  \/ (in_collapse st = true /\ in_table st = false
      /\ Forall (fun raw => closes_collapsible raw = false) lines) ->
  exists st', convert_lines self st lines = Some st'
    /\ html_lines st' = html_lines st /\ list_stack st' = list_stack st
    /\ categories st' = categories st
    /\ in_table st' = in_table st /\ in_collapse st' = in_collapse st
    /\ html_lines (close_lists 0 st') = html_lines (close_lists 0 st).
Proof.
  assert (forall st', html_lines st' = html_lines st -> list_stack st' = list_stack st ->
            html_lines (close_lists 0 st') = html_lines (close_lists 0 st)) as Hcl.
  { intros st' H1 H2. destruct (close_lists_spec 0 st') as [_ ->].
    destruct (close_lists_spec 0 st) as [_ ->]. by rewrite H1, H2. }
  intros [[Ht Hl] | (Hc & Ht & Hl)].
  - destruct (open_table_swallows self lines st Ht Hl)
      as (st' & H & H1 & H2 & H3 & H4 & H5 & _).
    exists st'. repeat split; try done; [congruence | by apply Hcl].
  - destruct (open_collapsible_swallows self lines st Hc Ht Hl)
      as (st' & H & H1 & H2 & H3 & H4 & H5 & _).
    exists st'. repeat split; try done; [congruence | congruence | by apply Hcl].
Qed.

Lemma unclosed_block_drops_the_rest_witness :
  let st := set_table true ["{|"] (emit "<p>Intro</p>" cstate_init) in
  let lines := ["| a || b"; "[[Category:Lost]]"; "== Lost =="] in
  convert_lines html_converter cstate_init ["Intro"; "{|"] = Some st
  /\ (in_table st = true /\ Forall (fun raw => closes_table raw = false) lines)
  /\ exists st', convert_lines html_converter st lines = Some st'
    /\ html_lines st' = html_lines st /\ list_stack st' = list_stack st
    /\ categories st' = categories st
    /\ in_table st' = in_table st /\ in_collapse st' = in_collapse st
    /\ html_lines (close_lists 0 st') = html_lines (close_lists 0 st).
Proof.
  intros st lines.
  assert (in_table st = true /\ Forall (fun raw => closes_table raw = false) lines) as H.
  { split; [done |]. repeat constructor. }
  split; [by vm_compute |]. split; [exact H |].
  exact (unclosed_block_drops_the_rest html_converter st lines (or_introl H)).
Defined.

(** ** The rows of a table *)

Lemma flush_pending_rows t : rows (flush_pending_into_cell t) = rows t.
Proof. unfold flush_pending_into_cell. by destruct (pending_text_lines t). Qed.

Lemma flush_row_ok t : rows_ok t -> rows_ok (flush_row t).
Proof.
  unfold rows_ok, flush_row. intros H. destruct (current_row t) eqn:E; [done |].
  simpl. apply Forall_app. split; [done |]. constructor; [done | constructor].
Qed.

Lemma add_part_rows h t part : rows (add_part h t part) = rows t.
Proof. unfold add_part. by destruct (strip_categories _ _). Qed.

Lemma table_line_ok t tl : rows_ok t -> rows_ok (table_line t tl).
Proof.
  intros H. unfold table_line.
  destruct (negb _); [done |]. destruct (startswith _ "|+"); [done |].
  destruct (startswith _ "|-").
  { apply flush_row_ok. unfold rows_ok. by rewrite flush_pending_rows. }
  destruct (_ || _); [| done].
  match goal with |- context [fold_left _ ?l _] => generalize l end.
  intros parts.
  assert (rows_ok (flush_pending_into_cell t)) as H0
    by (unfold rows_ok; by rewrite flush_pending_rows).
  revert H0. generalize (flush_pending_into_cell t).
  induction parts as [|p parts IH]; intros t0 H0; [done |].
  simpl. apply IH. unfold rows_ok. by rewrite add_part_rows.
Qed.

(** No row of a parsed table is empty. *)
Lemma parse_table_rows_ok lines c : rows_ok (parse_table lines c).
Proof.
  unfold parse_table. apply flush_row_ok. unfold rows_ok. rewrite flush_pending_rows.
  generalize (middle lines). intros l.
  match goal with |- context [fold_left table_line l ?t0] =>
    assert (rows_ok t0) as H0 by constructor; revert H0; generalize t0 end.
  induction l as [|x l IH]; intros t0 H0; [done |]. simpl. apply IH.
  by apply table_line_ok.
Qed.

(** X14: In a table laid out as key-value pairs every row has one cell or
    two, and one row at least has two; a row of one cell is rendered as
    a single value, so the separator between the cells of an irregular
    row is never written. *)
Theorem key_value_rows_have_one_or_two_cells (self : WikiConverter)
    (lines : list string) (c : cats) (r : list cell) :
  key_value_style (rows (parse_table lines c)) = Some true ->
  r ∈ rows (parse_table lines c) ->
  (exists k v, r = [k; v])
  \/ (exists x, r = [x]
        /\ html_key_value_row self r
           = (fun v => "<dd>" +:+ v +:+ "</dd>") <$> inline self x.1
        /\ md_key_value_row self r
           = (fun v => "|  | " +:+ _sanitize_md v +:+ " |") <$> inline self x.1).
Proof.
  intros Hkv Hr. pose proof (parse_table_rows_ok lines c) as Hok.
  unfold rows_ok in Hok. rewrite Forall_forall in Hok. specialize (Hok r Hr).
  assert (length r <= 2)%nat as Hlen.
  { destruct (Nat.le_gt_cases (length r) 2) as [H | H]; [done |].
    rewrite (wide_row_generic _ r Hr H) in Hkv. done. }
  destruct r as [|x [|y [|z r]]]; [done | right | left | simpl in Hlen; lia].
  - exists x. split; [done |]. unfold html_key_value_row, md_key_value_row, inline_cells.
    simpl. by destruct (inline self x.1).
  - by exists x, y.
Qed.

Lemma key_value_rows_have_one_or_two_cells_witness :
  let r : list cell := [("a", false)] in
  key_value_style (rows (parse_table table_112 ([], ∅))) = Some true
  /\ r ∈ rows (parse_table table_112 ([], ∅))
  /\ ((exists k v, r = [k; v])
      \/ (exists x, r = [x]
            /\ html_key_value_row html_converter r
               = (fun v => "<dd>" +:+ v +:+ "</dd>") <$> inline html_converter x.1
            /\ md_key_value_row html_converter r
               = (fun v => "|  | " +:+ _sanitize_md v +:+ " |") <$> inline html_converter x.1)).
Proof.
  intros r.
  assert (key_value_style (rows (parse_table table_112 ([], ∅))) = Some true) as H1
    by (by vm_compute).
  assert (r ∈ rows (parse_table table_112 ([], ∅))) as H2.
  { assert (rows (parse_table table_112 ([], ∅))
            = [[("a", false)]; [("c", false)]; [("e", false); ("f", false)]]) as E
      by (by vm_compute).
    rewrite E. by left. }
  split; [exact H1 |]. split; [exact H2 |].
  exact (key_value_rows_have_one_or_two_cells html_converter table_112 ([], ∅) r H1 H2).
Defined.

(** ** Links to pages *)









(** ** The pages of a category *)

Lemma add_member_keys c p m :
  fst <$> add_member c p m
  = if bool_decide (c ∈ fst <$> m) then fst <$> m else (fst <$> m) ++ [c].
Proof.
  induction m as [|[k ps] m IH]; [done |]. cbn [add_member].
  destruct (String.eqb_spec k c) as [-> | Hne]; rewrite !fmap_cons; cbn [fst].
  - rewrite bool_decide_eq_true_2; [done | by left].
  - rewrite IH. case_bool_decide as Hin.
    + rewrite bool_decide_eq_true_2; [done | by right].
    + rewrite bool_decide_eq_false_2; [done |].
      intros [? | ?]%elem_of_cons; congruence.
Qed.

Lemma add_member_keys_NoDup c p m :
  NoDup (fst <$> m) -> NoDup (fst <$> add_member c p m).
Proof.
  intros H. rewrite add_member_keys. case_bool_decide as Hin; [done |].
  apply NoDup_app. split; [done |]. split; [| apply NoDup_singleton].
  by intros x Hx ->%list_elem_of_singleton.
Qed.

Lemma add_member_Forall (P Q : string -> list Page -> Prop) c p m :
  NoDup (fst <$> m) ->
  Forall (fun kv => P kv.1 kv.2) m ->
  (forall k ps, k <> c -> P k ps -> Q k ps) ->
  (forall ps, P c ps -> Q c (ps ++ [p])) ->
  Q c [p] ->
  Forall (fun kv => Q kv.1 kv.2) (add_member c p m).
Proof.
  intros Hnd Hm Hother Hsame Hnew. induction Hm as [|[k ps] m Hk Hm IH]; cbn [add_member].
  - by repeat constructor.
  - rewrite fmap_cons in Hnd. apply NoDup_cons in Hnd as [Hk' Hnd]. simpl in Hk, Hk'.
    destruct (String.eqb_spec k c) as [-> | Hne]; constructor; simpl; try done.
    + by apply Hsame.
    + clear IH. rewrite Forall_forall in Hm. apply Forall_forall. intros [k' ps'] Hin.
      apply Hother; [| by apply (Hm _ Hin)]. simpl. intros ->. apply Hk'.
      apply list_elem_of_fmap. by exists (c, ps').
    + by apply Hother.
    + by apply IH.
Qed.

Lemma enter_categories seen p cats : forall done m,
  slug p ∉ (slug <$> seen) ->
  NoDup (done ++ cats) ->
  NoDup (fst <$> m) ->
  Forall (fun kv => entry_ok seen p done kv.1 kv.2) m ->
  let m' := fold_left (fun m c => add_member c p m) cats m in
  NoDup (fst <$> m') /\ Forall (fun kv => entry_ok seen p (done ++ cats) kv.1 kv.2) m'.
Proof.
  induction cats as [|c cats IH]; intros done m Hp Hnd Hk Hm; simpl.
  - by rewrite app_nil_r.
  - replace (done ++ c :: cats) with ((done ++ [c]) ++ cats) in * by (by rewrite <- app_assoc).
    apply IH; [done | done | by apply add_member_keys_NoDup |].
    assert (c ∉ done) as Hc.
    { apply NoDup_app in Hnd as (Hnd & _ & _). apply NoDup_app in Hnd as (_ & Hd & _).
      intros Hin. apply (Hd c Hin). by left. }
    apply (add_member_Forall (entry_ok seen p done)); [done | done | | |].
    + intros k ps Hne (H1 & H2 & H3 & H4). repeat split; try done.
      intros Hk' q Hq. apply H4; [| done]. intros Hin. apply Hk'.
      apply elem_of_app. by left.
    + intros ps (H1 & H2 & H3 & H4). specialize (H4 Hc). repeat split.
      * rewrite fmap_app. apply NoDup_app. split; [done |]. split; [| apply NoDup_singleton].
        intros x Hx ->%list_elem_of_singleton. apply Hp.
        apply list_elem_of_fmap in Hx as (q & -> & Hq). apply list_elem_of_fmap.
        exists q. split; [done | by apply H4].
      * by destruct ps.
      * intros q [Hq | ->%list_elem_of_singleton]%elem_of_app; [by left; apply H4 | by right].
      * intros Hk'. destruct Hk'. apply elem_of_app. right. by left.
    + repeat split.
      * apply NoDup_singleton.
      * done.
      * intros q ->%list_elem_of_singleton. by right.
      * intros Hk'. destruct Hk'. apply elem_of_app. right. by left.
Qed.

Lemma collect_categories_ok conv pages : forall seen m m',
  NoDup (slug <$> (seen ++ pages)) ->
  map_ok seen m ->
  collect_categories conv pages m = Some m' ->
  map_ok (seen ++ pages) m'.
Proof.
  induction pages as [|p pages IH]; intros seen m m' Hnd Hm; simpl.
  - intros [= <-]. by rewrite app_nil_r.
  - destruct (convert conv (title p) (text p)) as [[html cs]|] eqn:Ec; [| done]. simpl.
    assert (NoDup cs) as Hcs.
    { unfold convert in Ec.
      destruct (re_match true REDIRECT_RE _); [injection Ec as _ <-; apply NoDup_nil_2 |].
      unfold convert_body in Ec. destruct (convert_lines _ _ _) as [st|] eqn:E; [| done].
      simpl in Ec. injection Ec as _ <-.
      apply convert_lines_cats in E; [| split; [apply NoDup_nil_2 | done]].
      pose proof (marks_cats _ _ (marks_close_lists 0 st)) as Hst.
      unfold state_cats in Hst. injection Hst as -> _. apply E. }
    clear Ec.
    replace (seen ++ p :: pages) with ((seen ++ [p]) ++ pages) in * by (by rewrite <- app_assoc).
    apply IH; [done |]. destruct Hm as [Hk Hm].
    assert (slug p ∉ (slug <$> seen)) as Hp.
    { rewrite !fmap_app in Hnd. apply NoDup_app in Hnd as (Hnd & _ & _).
      apply NoDup_app in Hnd as (_ & Hd & _). intros Hin. apply (Hd _ Hin). by left. }
    destruct (enter_categories seen p cs [] m Hp Hcs Hk) as [H1 H2].
    { eapply Forall_impl; [exact Hm |]. intros [k ps] (A & B & C). repeat split; try done.
      intros q Hq. left. by apply C. }
    split; [done |]. eapply Forall_impl; [exact H2 |].
    intros [k ps] (A & B & C & _). repeat split; try done.
    intros q Hq. apply elem_of_app. destruct (C q Hq) as [? | ->]; [by left | right; by left].
Qed.

(** X16: The category map has every category once, and the list of a category
    holds every page at most once and only pages that name it; no list
    is empty. *)
Theorem category_lists_have_no_repetition (conv : WikiConverter) (pages : list Page)
    (m : list (string * list Page)) (c : string) (ps : list Page) :
  NoDup (slug <$> pages) ->
  collect_categories conv pages [] = Some m ->
  (c, ps) ∈ m ->
  NoDup (fst <$> m) /\ NoDup (slug <$> ps) /\ ps <> [] /\ forall q, q ∈ ps -> q ∈ pages.
Proof.
  intros Hnd Hm Hin.
  destruct (collect_categories_ok conv pages [] [] m Hnd) as [H1 H2];
    [split; [apply NoDup_nil_2 | constructor] | done |].
  split; [done |]. rewrite Forall_forall in H2. apply (H2 _ Hin).
Qed.

Lemma category_lists_have_no_repetition_witness :
  NoDup (slug <$> [page_one; page_two])
  /\ collect_categories html_converter [page_one; page_two] []
     = Some [("A", [page_one; page_two])]
  /\ ("A", [page_one; page_two]) ∈ [("A", [page_one; page_two])]
  /\ NoDup (fst <$> [("A", [page_one; page_two])])
  /\ NoDup (slug <$> [page_one; page_two]) /\ [page_one; page_two] <> []
  /\ forall q, q ∈ [page_one; page_two] -> q ∈ [page_one; page_two].
Proof.
  assert (NoDup (slug <$> [page_one; page_two])) as H1
    by (apply (bool_decide_unpack _); reflexivity).
  assert (collect_categories html_converter [page_one; page_two] []
          = Some [("A", [page_one; page_two])]) as H2 by (by vm_compute).
  assert (("A", [page_one; page_two]) ∈ [("A", [page_one; page_two])]) as H3 by (by left).
  split; [exact H1 |]. split; [exact H2 |]. split; [exact H3 |].
  exact (category_lists_have_no_repetition html_converter [page_one; page_two]
           [("A", [page_one; page_two])] "A" [page_one; page_two] H1 H2 H3).
Defined.

(** ** [yaml_quote] *)

Lemma replace_str_go_char a new s : forall fuel,
  (String.length s < fuel)%nat ->
  replace_str_go fuel (String a "") new s
  = expand (fun c => if Ascii.eqb c a then new else String c "") s.
Proof.
  induction s as [|c s IH]; intros [|fuel] Hf; simpl in *; try done; try lia.
  rewrite (Ascii.eqb_sym a c). destruct (Ascii.eqb c a).
  - by rewrite IH by lia.
  - rewrite IH by lia. by rewrite app_cons_str, app_nil_l_str.
Qed.

Lemma replace_str_char a new s :
  replace_str (String a "") new s
  = expand (fun c => if Ascii.eqb c a then new else String c "") s.
Proof. unfold replace_str. apply replace_str_go_char. lia. Qed.

Lemma expand_app f a b : expand f (a +:+ b) = expand f a +:+ expand f b.
Proof.
  induction a as [|c a IH]; rewrite ?app_nil_l_str, ?app_cons_str; simpl; [done |].
  by rewrite IH, app_assoc_str.
Qed.

Lemma yaml_quote_body s : yaml_quote s = dq +:+ yaml_body s +:+ dq.
Proof. unfold yaml_quote, dq, backslash. by rewrite !replace_str_char. Qed.

Lemma drop_escapes_body s : drop_escapes (yaml_body s) = s.
Proof.
  unfold yaml_body.
  set (g := fun c : ascii => if Ascii.eqb c "034" then backslash +:+ dq else String c "").
  set (f := fun c : ascii =>
              if Ascii.eqb c "092" then backslash +:+ backslash else String c "").
  induction s as [|c s IH]; [done |].
  change (expand f (String c s)) with (f c +:+ expand f s). rewrite expand_app.
  set (rest := expand g (expand f s)) in *.
  destruct (Ascii.eqb c "092") eqn:E1.
  - apply Ascii.eqb_eq in E1. subst c.
    change (expand g (f "092"%char)) with (String "092" (String "092" "")).
    rewrite !app_cons_str, app_nil_l_str.
    change (drop_escapes (String "092" (String "092" rest)))
      with (String "092" (drop_escapes rest)).
    by rewrite IH.
  - assert (f c = String c "") as -> by (unfold f; by rewrite E1).
    change (expand g (String c "")) with (g c +:+ "").
    rewrite app_nil_r_str. destruct (Ascii.eqb c "034") eqn:E2.
    + apply Ascii.eqb_eq in E2. subst c.
      change (g "034"%char) with (String "092" (String "034" "")).
      rewrite !app_cons_str, app_nil_l_str.
      change (drop_escapes (String "092" (String "034" rest)))
        with (String "034" (drop_escapes rest)).
      by rewrite IH.
    + assert (g c = String c "") as -> by (unfold g; by rewrite E2).
      rewrite app_cons_str, app_nil_l_str. cbn [drop_escapes]. by rewrite E1, IH.
Qed.

Lemma app_inv_tail_str a b c : a +:+ c = b +:+ c -> a = b.
Proof.
  intros H. apply (f_equal rev) in H. rewrite !rev_app in H.
  apply (inj (String.app (rev c))) in H. apply (f_equal rev) in H.
  by rewrite !rev_involutive in H.
Qed.

(** X17: [yaml_quote] loses nothing: two different texts never get the same
    quoted scalar. *)
Theorem yaml_quote_injective (a b : string) : a <> b -> yaml_quote a <> yaml_quote b.
Proof.
  intros Hne H. apply Hne. rewrite !yaml_quote_body in H.
  apply (inj (String.app dq)) in H. apply app_inv_tail_str in H.
  apply (f_equal drop_escapes) in H. by rewrite !drop_escapes_body in H.
Qed.

Lemma yaml_quote_injective_witness :
  dq <> backslash +:+ dq
  /\ yaml_quote dq = dq +:+ backslash +:+ dq +:+ dq
  /\ yaml_quote (backslash +:+ dq)
     = dq +:+ backslash +:+ backslash +:+ backslash +:+ dq +:+ dq
  /\ yaml_quote dq <> yaml_quote (backslash +:+ dq).
Proof.
  assert (dq <> backslash +:+ dq) as H by done.
  split; [exact H |]. split; [reflexivity |]. split; [reflexivity |].
  exact (yaml_quote_injective dq (backslash +:+ dq) H).
Defined.

(** ** Reading the dump: [iter_pages] *)

Lemma events_unfold t x cs :
  events (Element t x cs)
  = (EvStart, Element t x cs) :: flat_map events cs ++ [(EvEnd, Element t x cs)].
Proof.
  assert (forall l,
    (fix go (cs : list element) : list (event * element) :=
       match cs with
       | [] => []
       | c :: cs' => events c ++ go cs'
       end) l = flat_map events l) as H.
  { induction l as [|c l IH]; [done |]. cbn [flat_map]. by rewrite <- IH. }
  cbn [events]. by rewrite H.
Qed.

Lemma revision_of_element r : revision_of (revision_element r) = read_revision r.
Proof.
  unfold revision_of, read_revision.
  change (find (NS +:+ "id") (revision_element r)) with (Some (leaf "id" (rev_id r))).
  change (find (NS +:+ "timestamp") (revision_element r))
    with (Some (leaf "timestamp" (rev_timestamp r))).
  change (find (NS +:+ "text") (revision_element r)) with (Some (leaf "text" (rev_text r))).
  unfold text_or, leaf, e_text, text_of.
  by destruct (rev_id r), (rev_timestamp r), (rev_text r).
Qed.

(** Of the events of a revision only its end counts. *)
Lemma revision_events keep st r :
  fold_left (iter_step keep) (events (revision_element r)) st
  = iter_step keep st (EvEnd, revision_element r).
Proof. reflexivity. Qed.

Lemma title_events keep st t :
  fold_left (iter_step keep) (events (leaf "title" t)) st
  = {| page_title := Some t; page_revisions := page_revisions st; lists := lists st;
       yielded := yielded st |}.
Proof.
  change (fold_left (iter_step keep) (events (leaf "title" t)) st)
    with {| page_title := Some (default "" (text_of t));
            page_revisions := page_revisions st; lists := lists st;
            yielded := yielded st |}.
  by destruct t.
Qed.

(** The revisions of a page, read with [keep_revisions]: they are
    appended to the list of the page. *)
Lemma revisions_kept revs : forall old acc t y,
  fold_left (iter_step true) (flat_map events (map revision_element revs))
    {| page_title := t; page_revisions := length old; lists := old ++ [acc];
       yielded := y |}
  = {| page_title := t; page_revisions := length old;
       lists := old ++ [acc ++ map read_revision revs]; yielded := y |}.
Proof.
  induction revs as [|r revs IH]; intros old acc t y.
  - simpl. by rewrite app_nil_r.
  - cbn [map flat_map]. rewrite fold_left_app, revision_events.
    unfold iter_step at 2. cbn [fst snd].
    change (String.eqb (e_tag (revision_element r)) (NS +:+ "title")) with false.
    change (String.eqb (e_tag (revision_element r)) (NS +:+ "revision")) with true.
    cbv iota. cbn [page_title page_revisions lists yielded].
    rewrite revision_of_element.
    rewrite lookup_app_r by lia. rewrite Nat.sub_diag. cbn [lookup list_lookup default].
    rewrite insert_app_r_alt by lia. rewrite Nat.sub_diag. cbn [insert list_insert].
    rewrite IH. by rewrite <- app_assoc.
Qed.

(** Without [keep_revisions] every revision starts a new list. *)
Lemma revisions_replaced revs : forall old cur t y,
  (cur < length old)%nat ->
  exists ext ref,
    fold_left (iter_step false) (flat_map events (map revision_element revs))
      {| page_title := t; page_revisions := cur; lists := old; yielded := y |}
    = {| page_title := t; page_revisions := ref; lists := old ++ ext; yielded := y |}
    /\ (ref < length (old ++ ext))%nat
    /\ (old ++ ext) !! ref
       = Some (match last revs with
               | Some r => [read_revision r]
               | None => default [] (old !! cur)
               end).
Proof.
  induction revs as [|r revs IH]; intros old cur t y Hcur.
  - exists [], cur. rewrite app_nil_r. simpl. split; [done |]. split; [done |].
    destruct (lookup_lt_is_Some_2 old cur Hcur) as [x ->]. done.
  - cbn [map flat_map]. rewrite fold_left_app, revision_events.
    unfold iter_step at 2. cbn [fst snd].
    change (String.eqb (e_tag (revision_element r)) (NS +:+ "title")) with false.
    change (String.eqb (e_tag (revision_element r)) (NS +:+ "revision")) with true.
    cbv iota. cbn [page_title page_revisions lists yielded].
    rewrite revision_of_element.
    destruct (IH (old ++ [[read_revision r]]) (length old) t y) as (ext & ref & -> & H1 & H2).
    { rewrite List.length_app. simpl. lia. }
    exists ([[read_revision r]] ++ ext), ref. rewrite app_assoc. split; [done |].
    split; [done |]. rewrite H2.
    rewrite lookup_app_r by lia. rewrite Nat.sub_diag. simpl.
    destruct revs as [|r' revs]; [done |].
    change (last (r :: r' :: revs)) with (last (r' :: revs)).
    destruct (last (r' :: revs)) eqn:E; [done |]. by apply last_None in E.
Qed.

Lemma last_only_map {A B} (f : A -> B) l :
  last_only (map f l) = match last l with Some x => [f x] | None => [] end.
Proof.
  unfold last_only. change (map f l) with (f <$> l). rewrite fmap_last.
  by destruct (last l).
Qed.

Lemma page_body_events keep raw st :
  exists ext ref,
    fold_left (iter_step keep)
      (flat_map events (leaf "title" (raw_title raw)
                        :: map revision_element (raw_revisions raw)))
      (iter_step keep st (EvStart, page_element raw))
    = {| page_title := Some (raw_title raw); page_revisions := ref;
         lists := lists st ++ ext; yielded := yielded st |}
    /\ (ref < length (lists st ++ ext))%nat
    /\ (lists st ++ ext) !! ref = Some (shown keep (raw_revisions raw)).
Proof.
  change (iter_step keep st (EvStart, page_element raw))
    with {| page_title := None; page_revisions := length (lists st);
            lists := lists st ++ [[]]; yielded := yielded st |}.
  cbn [flat_map]. rewrite fold_left_app, title_events.
  cbn [page_revisions lists yielded]. destruct keep.
  - rewrite revisions_kept. exists [[] ++ map read_revision (raw_revisions raw)], (length (lists st)).
    split; [done |]. rewrite List.length_app. split; [simpl; lia |].
    rewrite lookup_app_r by lia. by rewrite Nat.sub_diag.
  - destruct (revisions_replaced (raw_revisions raw) (lists st ++ [[]]) (length (lists st))
                (Some (raw_title raw)) (yielded st)) as (ext & ref & -> & H1 & H2).
    { rewrite List.length_app. simpl. lia. }
    exists ([[]] ++ ext), ref. rewrite app_assoc. split; [done |]. split; [done |].
    rewrite H2. unfold shown. rewrite last_only_map.
    rewrite lookup_app_r by lia. rewrite Nat.sub_diag. simpl.
    by destruct (last (raw_revisions raw)).
Qed.

Lemma shown_nil keep revs : shown keep revs = [] <-> revs = [].
Proof.
  unfold shown. destruct keep.
  - split; [by destruct revs | by intros ->].
  - rewrite last_only_map. split; [| by intros ->].
    destruct (last revs) eqn:E; [done |]. by apply last_None in E.
Qed.

Lemma handed_out_grow y (old ext : list (list Revision)) :
  Forall (fun y : string * nat => (y.2 < length old)%nat) y ->
  map (fun y : string * nat =>
         {| raw_title := y.1; raw_revisions := default [] ((old ++ ext) !! y.2) |}) y
  = map (fun y : string * nat =>
           {| raw_title := y.1; raw_revisions := default [] (old !! y.2) |}) y.
Proof.
  induction 1 as [|x y Hx _ IH]; [done |]. simpl. rewrite IH.
  by rewrite lookup_app_l by done.
Qed.

(** The events of one page of the dump add what [read_page] keeps of it,
    and leave the pages handed out before as they are. *)
Lemma page_events keep raw st :
  Forall (fun y : string * nat => (y.2 < length (lists st))%nat) (yielded st) ->
  let st' := fold_left (iter_step keep) (events (page_element raw)) st in
  Forall (fun y : string * nat => (y.2 < length (lists st'))%nat) (yielded st')
  /\ handed_out st' = handed_out st ++ option_list (read_page keep raw).
Proof.
  intros Hy. unfold page_element at 1. rewrite events_unfold.
  fold (page_element raw). cbn [fold_left]. rewrite fold_left_app.
  destruct (page_body_events keep raw st) as (ext & ref & -> & H1 & H2).
  cbn [fold_left]. unfold iter_step. cbn [fst snd].
  change (String.eqb (e_tag (page_element raw)) (NS +:+ "title")) with false.
  change (String.eqb (e_tag (page_element raw)) (NS +:+ "revision")) with false.
  change (String.eqb (e_tag (page_element raw)) (NS +:+ "page")) with true.
  cbv iota. cbn [page_title page_revisions lists yielded].
  rewrite H2.
  change (default "" (Some (raw_title raw))) with (raw_title raw).
  change (default [] (Some (shown keep (raw_revisions raw))))
    with (shown keep (raw_revisions raw)).
  unfold read_page. fold (shown keep (raw_revisions raw)).
  assert (Forall (fun y : string * nat => (y.2 < length (lists st ++ ext))%nat)
            (yielded st)) as Hy'.
  { eapply Forall_impl; [exact Hy |]. intros y Hlt. rewrite List.length_app. simpl in *. lia. }
  destruct (raw_title raw) as [|c t] eqn:Et.
  { cbn. split; [done |]. unfold handed_out. cbn [lists yielded].
    by rewrite handed_out_grow, app_nil_r. }
  destruct (raw_revisions raw) as [|r revs] eqn:Er.
  { assert (shown keep [] = []) as -> by (by apply shown_nil).
    cbn. split; [done |]. unfold handed_out. cbn [lists yielded].
    by rewrite handed_out_grow, app_nil_r. }
  destruct (shown keep (r :: revs)) as [|x xs] eqn:Es; [by apply shown_nil in Es |].
  split.
  - cbn [lists yielded]. apply Forall_app. split; [done |]. by repeat constructor.
  - unfold handed_out. cbn [lists yielded]. rewrite map_app, handed_out_grow by done.
    cbn. by rewrite H2.
Qed.

Lemma pages_events keep raws : forall st,
  Forall (fun y : string * nat => (y.2 < length (lists st))%nat) (yielded st) ->
  let st' := fold_left (iter_step keep) (flat_map events (map page_element raws)) st in
  Forall (fun y : string * nat => (y.2 < length (lists st'))%nat) (yielded st')
  /\ handed_out st' = handed_out st ++ omap (read_page keep) raws.
Proof.
  induction raws as [|raw raws IH]; intros st Hy.
  - simpl. by rewrite app_nil_r.
  - cbn [map flat_map]. rewrite fold_left_app.
    destruct (page_events keep raw st Hy) as [H1 H2].
    destruct (IH _ H1) as [H3 H4]. split; [exact H3 |].
    cbv zeta in H4. rewrite H4, H2, <- app_assoc. f_equal. cbn [omap list_omap].
    by destruct (read_page keep raw).
Qed.

(** X18: From a dump in the usual shape [iter_pages] reads every page that
    has a title and a revision, in the order of the dump: with
    [keep_revisions] all its revisions, without it the last one only.
    A revision without id gets the id ["0"]. *)
Theorem iter_pages_reads_dump (keep_revisions : bool) (raws : list RawPage) :
  iter_pages keep_revisions (events (dump_element raws))
  = omap (read_page keep_revisions) raws.
Proof.
  unfold dump_element. rewrite events_unfold. unfold iter_pages.
  cbn [fold_left]. rewrite fold_left_app.
  change (iter_step keep_revisions iter_init
            (EvStart, Element (NS +:+ "mediawiki") None (map page_element raws)))
    with iter_init.
  destruct (pages_events keep_revisions raws iter_init (Forall_nil_2 _)) as [_ H].
  cbv zeta in H. cbn [fold_left].
  set (st := fold_left _ (flat_map _ _) iter_init) in *.
  change (iter_step keep_revisions st
            (EvEnd, Element (NS +:+ "mediawiki") None (map page_element raws)))
    with st.
  exact H.
Qed.

(** ** Slugs and letter case *)

Lemma fold_lower_char c :
  lower (ascii_fold_char (lower_char c)) = lower (ascii_fold_char c).
Proof. destruct c as [[] [] [] [] [] [] [] []]; by vm_compute. Qed.

Lemma lower_app a b : lower (a +:+ b) = lower a +:+ lower b.
Proof.
  induction a as [|c a IH]; rewrite ?app_nil_l_str, ?app_cons_str; simpl; [done |].
  by rewrite IH.
Qed.

Lemma fold_lower t : lower (nfkd_ascii (lower t)) = lower (nfkd_ascii t).
Proof.
  induction t as [|c t IH]; [done |]. simpl. by rewrite !lower_app, fold_lower_char, IH.
Qed.

(** X19: Titles that differ only in the case of their letters have the same
    slug: of two such pages the second gets a numbered slug; headings and
    categories likewise share their id and slug. *)
Theorem slugs_ignore_case (a b : string) :
  lower a = lower b ->
  base_slug a = base_slug b
  /\ heading_id a = heading_id b
  /\ category_slug a = category_slug b
  /\ (fst <$> slugify b {[base_slug a]}) = Some (base_slug a +:+ "-2").
Proof.
  intros H.
  assert (lower (nfkd_ascii a) = lower (nfkd_ascii b)) as E
    by (by rewrite <- (fold_lower a), <- (fold_lower b), H).
  assert (base_slug a = base_slug b) as Hb by (unfold base_slug; by rewrite E).
  split; [done |]. split; [unfold heading_id; by rewrite E |].
  split; [unfold category_slug; by rewrite E |].
  rewrite Hb. unfold slugify. rewrite size_singleton. simpl.
  rewrite bool_decide_eq_true_2 by set_solver.
  rewrite bool_decide_eq_false_2; [done |].
  intros Hin%elem_of_singleton. by apply (suffixed_ne_base (base_slug b) 2).
Qed.

Lemma slugs_ignore_case_witness :
  lower "Max Headroom" = lower "MAX headroom"
  /\ base_slug "Max Headroom" = "max-headroom"
  /\ base_slug "Max Headroom" = base_slug "MAX headroom"
  /\ heading_id "Max Headroom" = heading_id "MAX headroom"
  /\ category_slug "Max Headroom" = category_slug "MAX headroom"
  /\ (fst <$> slugify "MAX headroom" {[base_slug "Max Headroom"]})
     = Some (base_slug "Max Headroom" +:+ "-2").
Proof.
  assert (lower "Max Headroom" = lower "MAX headroom") as H by reflexivity.
  split; [exact H |]. split; [by vm_compute |].
  exact (slugs_ignore_case "Max Headroom" "MAX headroom" H).
Defined.

(** ** Slugs in attributes *)

Lemma escape_app a b : escape (a +:+ b) = escape a +:+ escape b.
Proof.
  induction a as [|c a IH]; rewrite ?app_nil_l_str, ?app_cons_str; simpl; [done |].
  by rewrite IH, app_assoc_str.
Qed.

Lemma escape_slug_char c : is_slug_char c = true -> escape_char c = String c "".
Proof. destruct c as [[] [] [] [] [] [] [] []]; by vm_compute. Qed.

Lemma escape_slug_chars s : all_chars is_slug_char s = true -> escape s = s.
Proof.
  induction s as [|c s IH]; [done |]. simpl. intros [Hc Hs]%andb_prop.
  by rewrite escape_slug_char, IH.
Qed.

Lemma stripped_slug_chars x d :
  all_chars is_slug_char d = true ->
  all_chars is_slug_char
    (str_or (strip_chars "-" (sub_const false _slug_strip_re "-" x)) d) = true.
Proof.
  intros Hd. destruct (strip_chars "-" _) eqn:E; [done |]. cbn [str_or].
  rewrite <- E. apply all_chars_strip_by, squashed_chars.
Qed.

Lemma escape_heading_id t : escape (heading_id t) = heading_id t.
Proof. apply escape_slug_chars. by apply stripped_slug_chars. Qed.

(** X20: [html.escape] changes no slug: the slugs of pages, the ids of
    headings and the slugs of categories can stand in an attribute as
    they are, which is how the footers and listings write them. *)
Theorem slugs_need_no_escaping (t : string) (used : gset string) :
  escape (base_slug t) = base_slug t
  /\ escape (heading_id t) = heading_id t
  /\ escape (category_slug t) = category_slug t
  /\ exists s u, slugify t used = Some (s, u) /\ escape s = s.
Proof.
  assert (all_chars is_slug_char (base_slug t) = true) as Hb
    by (by apply stripped_slug_chars).
  split; [by apply escape_slug_chars |].
  split; [apply escape_heading_id |].
  split.
  - unfold category_slug. rewrite escape_app. f_equal. apply escape_slug_chars.
    by apply stripped_slug_chars.
  - destruct (slugify_total t used) as [[s u] H]. exists s, u. split; [done |].
    unfold slugify in H. destruct (slugify_loop _ _ _ _ _) as [s'|] eqn:E; simplify_eq/=.
    apply escape_slug_chars.
    apply slugify_loop_first_free in E as [[_ ->] | (_ & j & _ & -> & _)]; [done |].
    rewrite !all_chars_app, Hb. simpl.
    destruct (pretty_nat_digits j) as [Hd _].
    apply (all_chars_impl isdigit is_slug_char) in Hd; [done |].
    intros x Hx. by apply digit_is_slug_char.
Qed.

(** ** Links to sections *)



(** ** Revisions outside a page *)

(** With [keep_revisions] the events of a page leave its list as the
    last of [lists], and [page_revisions] naming it. *)
Lemma page_events_kept raw st :
  fold_left (iter_step true) (events (page_element raw)) st
  = {| page_title := Some (raw_title raw); page_revisions := length (lists st);
       lists := lists st ++ [map read_revision (raw_revisions raw)];
       yielded := yielded st ++
         match raw_title raw, raw_revisions raw with
         | String _ _, _ :: _ => [(raw_title raw, length (lists st))]
         | _, _ => []
         end |}.
Proof.
  unfold page_element at 1. rewrite events_unfold. fold (page_element raw).
  cbn [fold_left]. rewrite fold_left_app.
  change (iter_step true st (EvStart, page_element raw))
    with {| page_title := None; page_revisions := length (lists st);
            lists := lists st ++ [[]]; yielded := yielded st |}.
  cbn [flat_map]. rewrite fold_left_app, title_events.
  cbn [page_revisions lists yielded]. rewrite revisions_kept.
  cbn [fold_left]. unfold iter_step. cbn [fst snd].
  change (String.eqb (e_tag (page_element raw)) (NS +:+ "title")) with false.
  change (String.eqb (e_tag (page_element raw)) (NS +:+ "revision")) with false.
  change (String.eqb (e_tag (page_element raw)) (NS +:+ "page")) with true.
  cbv iota. cbn [page_title page_revisions lists yielded].
  rewrite lookup_app_r by lia. rewrite Nat.sub_diag.
  change (default "" (Some (raw_title raw))) with (raw_title raw).
  cbn [lookup list_lookup]. 
  change (default [] (Some ([] ++ map read_revision (raw_revisions raw))))
    with (map read_revision (raw_revisions raw)).
  destruct (raw_title raw) as [|c t]; [rewrite (app_nil_r (yielded st)); reflexivity |].
  destruct (raw_revisions raw) as [|r revs];
    [rewrite (app_nil_r (yielded st)); reflexivity |].
  reflexivity.
Qed.

Lemma iter_step_ref keep st ev :
  (page_revisions st < length (lists st))%nat ->
  (page_revisions (iter_step keep st ev) < length (lists (iter_step keep st ev)))%nat.
Proof.
  intros H. unfold iter_step. destruct ev as [[] elem]; cbn [fst snd].
  - destruct (String.eqb _ _); [| done]. cbn. rewrite List.length_app. simpl. lia.
  - destruct (String.eqb _ _); [done |]. destruct (String.eqb _ _).
    + destruct keep; cbn; [by rewrite length_insert |]. rewrite List.length_app. simpl. lia.
    + destruct (String.eqb _ _); [| done].
      by destruct (default "" (page_title st)),
                  (default [] (lists st !! page_revisions st)).
Qed.

Lemma iter_steps_ref keep evs : forall st,
  (page_revisions st < length (lists st))%nat ->
  (page_revisions (fold_left (iter_step keep) evs st)
   < length (lists (fold_left (iter_step keep) evs st)))%nat.
Proof.
  induction evs as [|ev evs IH]; intros st H; [done |]. simpl.
  by apply IH, iter_step_ref.
Qed.

(** X22: With [keep_revisions] the list a page was handed out with is still
    the list revisions are appended to: revision elements that follow
    the last page outside any page end up among the revisions of that
    page.  Without [keep_revisions] they are dropped. *)
Theorem stray_revisions_join_last_page (raws : list RawPage) (raw : RawPage)
    (strays : list Revision) :
  raw_title raw <> "" -> raw_revisions raw <> [] ->
  iter_pages true (events (dump_with_strays (raws ++ [raw]) strays))
  = omap (read_page true) raws
    ++ [{| raw_title := raw_title raw;
           raw_revisions := map read_revision (raw_revisions raw ++ strays) |}]
  /\ iter_pages false (events (dump_with_strays (raws ++ [raw]) strays))
     = omap (read_page false) (raws ++ [raw]).
Proof.
  intros Ht Hr. unfold dump_with_strays. rewrite !events_unfold. unfold iter_pages.
  cbn [fold_left]. rewrite !fold_left_app. cbn [fold_left].
  rewrite !flat_map_app, !fold_left_app.
  set (root := Element _ _ _).
  change (iter_step true iter_init (EvStart, root)) with iter_init.
  change (iter_step false iter_init (EvStart, root)) with iter_init.
  split.
  - rewrite map_app, flat_map_app, fold_left_app. cbn [map flat_map].
    rewrite app_nil_r.
    destruct (pages_events true raws iter_init (Forall_nil_2 _)) as [Hb Hh].
    cbv zeta in Hb, Hh. set (st := fold_left _ (flat_map _ (map _ raws)) iter_init) in *.
    rewrite page_events_kept.
    destruct (raw_title raw) as [|c t] eqn:Et; [done |].
    destruct (raw_revisions raw) as [|r revs] eqn:Er; [done |].
    rewrite revisions_kept.
    match goal with |- context [iter_step true ?s (EvEnd, root)] =>
      change (iter_step true s (EvEnd, root)) with s end.
    cbn [lists yielded]. rewrite map_app. cbn [map fst snd].
    rewrite lookup_app_r by lia. rewrite Nat.sub_diag. cbn [lookup list_lookup].
    rewrite (handed_out_grow (yielded st) (lists st)) by done.
    fold (handed_out st). rewrite Hh. simpl. by rewrite !map_app.
  - destruct (pages_events false (raws ++ [raw]) iter_init (Forall_nil_2 _)) as [Hb Hh].
    cbv zeta in Hb, Hh.
    set (st := fold_left _ (flat_map _ (map _ (raws ++ [raw]))) iter_init) in *.
    destruct (revisions_replaced strays (lists st) (page_revisions st) (page_title st)
                (yielded st)) as (ext & ref & E & _ & _).
    { subst st. apply iter_steps_ref. simpl. lia. }
    assert (fold_left (iter_step false) (flat_map events (map revision_element strays)) st
            = {| page_title := page_title st; page_revisions := ref;
                 lists := lists st ++ ext; yielded := yielded st |}) as E'
      by (rewrite <- E; by destruct st).
    rewrite !E'.
    match goal with |- context [iter_step false ?s (EvEnd, root)] =>
      change (iter_step false s (EvEnd, root)) with s end.
    cbn [lists yielded]. rewrite handed_out_grow by done. exact Hh.
Qed.

Lemma stray_revisions_join_last_page_witness :
  let r1 := {| rev_id := "1"; rev_timestamp := "t1"; rev_text := "first" |} in
  let r2 := {| rev_id := "2"; rev_timestamp := "t2"; rev_text := "stray" |} in
  let raw := {| raw_title := "Max"; raw_revisions := [r1] |} in
  raw_title raw <> "" /\ raw_revisions raw <> []
  /\ iter_pages true (events (dump_with_strays ([] ++ [raw]) [r2]))
     = [{| raw_title := "Max"; raw_revisions := [r1; r2] |}]
  /\ iter_pages false (events (dump_with_strays ([] ++ [raw]) [r2]))
     = [{| raw_title := "Max"; raw_revisions := [r1] |}].
Proof.
  intros r1 r2 raw.
  assert (raw_title raw <> "") as H1 by done.
  assert (raw_revisions raw <> []) as H2 by done.
  split; [exact H1 |]. split; [exact H2 |].
  exact (stray_revisions_join_last_page [] raw [r2] H1 H2).
Defined.

(** ** [normalize_title] *)

#[local] Arguments no_char : simpl never.

Lemma no_char_cons c d s :
  no_char c (String d s) = negb (Ascii.eqb d c) && no_char c s.
Proof. reflexivity. Qed.

Lemma first_char_rev s : first_char (rev s) = last_char s.
Proof. rewrite <- (rev_involutive s) at 2. by rewrite last_char_rev. Qed.

Lemma drop_while_id p s :
  match first_char s with Some c => p c = false | None => True end ->
  drop_while p s = s.
Proof. destruct s as [|c s]; simpl; [done |]. by intros ->. Qed.

Lemma strip_trimmed s : trimmed s -> strip s = s.
Proof.
  intros [H1 H2]. unfold strip, strip_by, lstrip_by, rstrip_by.
  rewrite (drop_while_id isspace s) by done.
  rewrite (drop_while_id isspace (rev s)) by (by rewrite first_char_rev).
  apply rev_involutive.
Qed.

Lemma strip_is_trimmed s : trimmed (strip s).
Proof. apply (strip_by_ends isspace s). Qed.

Lemma replace_char_none a b s : no_char a s = true -> replace_char a b s = s.
Proof.
  induction s as [|c s IH]; [done |]. rewrite no_char_cons. simpl. intros [Hc Hs]%andb_prop.
  apply negb_true_iff in Hc. by rewrite Hc, IH.
Qed.

Lemma replace_char_clears a b s : a <> b -> no_char a (replace_char a b s) = true.
Proof.
  intros Hab. induction s as [|c s IH]; [done |]. simpl.
  destruct (Ascii.eqb_spec c a) as [-> | Hne]; rewrite no_char_cons, IH, andb_true_r.
  - apply negb_true_iff, Ascii.eqb_neq. congruence.
  - by apply negb_true_iff, Ascii.eqb_neq.
Qed.

Lemma split_once_go_spec c s : forall cur a b,
  split_once_go c s cur = Some (a, b) ->
  exists a', a = rev cur +:+ a' /\ s = a' +:+ String c b /\ no_char c a' = true.
Proof.
  induction s as [|d s IH]; intros cur a b; simpl; [done |].
  destruct (Ascii.eqb_spec d c) as [-> | Hne].
  - intros [= <- <-]. exists "". by rewrite app_nil_r_str, app_nil_l_str.
  - intros H. apply IH in H as (a' & -> & -> & Ha). exists (String d a').
    unfold rev. simpl. rewrite rev_onto_app, app_assoc_str. split; [done |].
    split; [done |]. rewrite no_char_cons, Ha, andb_true_r.
    by apply negb_true_iff, Ascii.eqb_neq.
Qed.

Lemma split_once_spec c s a b :
  split_once c s = Some (a, b) -> s = a +:+ String c b /\ no_char c a = true.
Proof.
  intros H. apply split_once_go_spec in H as (a' & -> & -> & Ha).
  by rewrite app_nil_l_str.
Qed.

Lemma split_once_go_app c a b : forall cur,
  no_char c a = true ->
  split_once_go c (a +:+ String c b) cur = Some (rev cur +:+ a, b).
Proof.
  induction a as [|d a IH]; intros cur Ha.
  - rewrite app_nil_l_str, app_nil_r_str. simpl. by rewrite Ascii.eqb_refl.
  - rewrite app_cons_str. rewrite no_char_cons in Ha. simpl. apply andb_prop in Ha as [Hd Ha].
    apply negb_true_iff in Hd. rewrite Hd, IH by done. unfold rev. simpl.
    by rewrite rev_onto_app, app_assoc_str.
Qed.

Lemma split_once_app c a b :
  no_char c a = true -> split_once c (a +:+ String c b) = Some (a, b).
Proof.
  intros Ha. unfold split_once. rewrite split_once_go_app by done.
  by rewrite app_nil_l_str.
Qed.

Lemma split_once_go_none c s : forall cur,
  split_once_go c s cur = None <-> no_char c s = true.
Proof.
  induction s as [|d s IH]; intros cur; [done |]. rewrite no_char_cons. simpl.
  destruct (Ascii.eqb d c); simpl; [by split | apply IH].
Qed.

(** What upper case does to one character, as far as the tests of
    [normalize_title] can see. *)
Lemma upper_one c :
  capitalized (upper (String c "")) = upper (String c "")
  /\ (isspace c = false -> all_chars (fun d => negb (isspace d)) (upper (String c "")) = true)
  /\ (Ascii.eqb c "_" = false -> no_char "_" (upper (String c "")) = true)
  /\ (Ascii.eqb c ":" = false -> no_char ":" (upper (String c "")) = true)
  /\ upper (String c "") <> "".
Proof. destruct c as [[] [] [] [] [] [] [] []]; by vm_compute. Qed.

Lemma capitalized_cons c s : capitalized (String c s) = upper (String c "") +:+ s.
Proof. reflexivity. Qed.

Lemma capitalized_app u s : u <> "" -> capitalized (u +:+ s) = capitalized u +:+ s.
Proof.
  destruct u as [|c u]; [done |]. intros _. rewrite app_cons_str, !capitalized_cons.
  by rewrite app_assoc_str.
Qed.

Lemma capitalized_idem s : capitalized (capitalized s) = capitalized s.
Proof.
  destruct s as [|c s]; [done |]. rewrite capitalized_cons.
  destruct (upper_one c) as (H & _ & _ & _ & Hne). by rewrite capitalized_app, H.
Qed.

Lemma capitalized_nonempty s : s <> "" -> capitalized s <> "".
Proof.
  destruct s as [|c s]; [done |]. intros _. rewrite capitalized_cons.
  destruct (upper_one c) as (_ & _ & _ & _ & Hne).
  by destruct (upper (String c "")).
Qed.

Lemma capitalized_no_underscore s :
  no_char "_" s = true -> no_char "_" (capitalized s) = true.
Proof.
  destruct s as [|c s]; [done |]. rewrite no_char_cons, capitalized_cons.
  intros [Hc Hs]%andb_prop. apply negb_true_iff in Hc.
  destruct (upper_one c) as (_ & _ & H & _). unfold no_char in *.
  by rewrite all_chars_app, H, Hs.
Qed.

Lemma capitalized_no_colon s :
  no_char ":" s = true -> no_char ":" (capitalized s) = true.
Proof.
  destruct s as [|c s]; [done |]. rewrite no_char_cons, capitalized_cons.
  intros [Hc Hs]%andb_prop. apply negb_true_iff in Hc.
  destruct (upper_one c) as (_ & _ & _ & H & _). unfold no_char in *.
  by rewrite all_chars_app, H, Hs.
Qed.

Lemma last_char_cons c d s : last_char (String c (String d s)) = last_char (String d s).
Proof. reflexivity. Qed.

Lemma all_chars_last p s :
  all_chars p s = true -> match last_char s with Some c => p c = true | None => True end.
Proof.
  induction s as [|c s IH]; [done |]. simpl all_chars. intros [Hc Hs]%andb_prop.
  destruct s as [|d s]; [done |]. rewrite last_char_cons. by apply IH.
Qed.

Lemma capitalized_starts_clean s : starts_clean s -> starts_clean (capitalized s).
Proof.
  destruct s as [|c s]; [done |]. unfold starts_clean. simpl first_char. intros Hc.
  rewrite capitalized_cons. destruct (upper_one c) as (_ & H & _ & _ & Hne).
  specialize (H Hc). destruct (upper (String c "")) as [|d u]; [done |].
  rewrite app_cons_str. simpl in *. apply andb_prop in H as [H _].
  by apply negb_true_iff in H.
Qed.

Lemma capitalized_ends_clean s : ends_clean s -> ends_clean (capitalized s).
Proof.
  destruct s as [|c s]; [done |]. unfold ends_clean. rewrite capitalized_cons.
  destruct s as [|d s].
  - simpl last_char. intros Hc. rewrite app_nil_r_str.
    destruct (upper_one c) as (_ & H & _). specialize (H Hc).
    apply all_chars_last in H. destruct (last_char _); [| done].
    by apply negb_true_iff in H.
  - by rewrite last_char_cons, last_char_app.
Qed.

Lemma normalize_title_settled t : settled t -> normalize_title t = title_body t.
Proof.
  intros (Hne & Hu & Hs & He). unfold normalize_title.
  rewrite replace_char_none by done. rewrite strip_trimmed by done.
  cbn zeta. destruct t as [|c t]; [done |]. unfold title_body.
  destruct (split_once ":" (String c t)) as [[ns rest] |]; [| done].
  by destruct rest.
Qed.

Lemma app_nonempty_r a c b : a +:+ String c b <> "".
Proof. destruct a; [by rewrite app_nil_l_str | by rewrite app_cons_str]. Qed.

Lemma starts_clean_app a b :
  a <> "" -> starts_clean a -> starts_clean (a +:+ b).
Proof. destruct a as [|c a]; [done |]. by rewrite app_cons_str. Qed.

Lemma title_body_settled t :
  settled t -> settled (title_body t) /\ title_body (title_body t) = title_body t.
Proof.
  intros (Hne & Hu & Hs & He). unfold title_body at 1 3 4.
  destruct (split_once ":" t) as [[ns rest] |] eqn:E.
  - apply split_once_spec in E as [-> Hns].
    unfold no_char in Hu. rewrite all_chars_app in Hu.
    apply andb_prop in Hu as [Hu1 Hu2]. simpl in Hu2.
    assert (no_char "_" rest = true) as Hu3 by done.
    split.
    + split; [apply app_nonempty_r |]. split; [| split].
      * unfold no_char. rewrite all_chars_app, Hu1. simpl.
        by apply capitalized_no_underscore.
      * destruct ns as [|d ns]; [by rewrite app_nil_l_str |].
        apply starts_clean_app; [done |]. by rewrite app_cons_str in Hs.
      * unfold ends_clean in *. change (":" +:+ capitalized rest)
          with (String ":" (capitalized rest)). rewrite last_char_app in *.
        destruct rest as [|e rest]; [done |]. rewrite last_char_cons in He.
        pose proof (capitalized_nonempty (String e rest)) as Hc.
        pose proof (capitalized_ends_clean (String e rest) He) as Hec.
        destruct (capitalized (String e rest)) as [|f u]; [by destruct Hc |].
        by rewrite last_char_cons.
    + unfold title_body. change (":" +:+ capitalized rest)
        with (String ":" (capitalized rest)).
      rewrite split_once_app by done. by rewrite capitalized_idem.
  - apply split_once_go_none in E. split.
    + split; [by apply capitalized_nonempty |]. split; [| split].
      * by apply capitalized_no_underscore.
      * by apply capitalized_starts_clean.
      * by apply capitalized_ends_clean.
    + unfold title_body.
      pose proof (capitalized_no_colon t E) as Hc.
      apply (split_once_go_none ":" _ "") in Hc. unfold split_once. rewrite Hc.
      apply capitalized_idem.
Qed.

Lemma stripped_title_settled x :
  let t := strip (replace_char "_" " " x) in t = "" \/ settled t.
Proof.
  intros t. destruct (decide (t = "")) as [| Hne]; [by left | right].
  split; [done |]. split.
  - unfold t, strip, no_char. apply all_chars_strip_by.
    by apply (replace_char_clears "_" " ").
  - apply (strip_by_ends isspace).
Qed.

Lemma normalize_title_body x :
  let t := strip (replace_char "_" " " x) in
  normalize_title x = if decide (t = "") then "" else title_body t.
Proof.
  intros t. unfold normalize_title. fold t. cbn zeta.
  destruct t as [|c t]; [done |]. rewrite decide_False by done. unfold title_body.
  destruct (split_once ":" (String c t)) as [[ns rest] |]; [| done].
  by destruct rest.
Qed.

(** X23: Normalising a title twice changes nothing more: the result of
    [normalize_title] is a title that [normalize_title] leaves alone
    (underscores gone, no white space at the ends, the first letter after
    the first colon, or of the whole title, already in upper case). *)
Theorem normalize_title_idempotent (x : string) :
  upper_in_range x = true ->
  normalize_title (normalize_title x) = normalize_title x.
Proof.
  intros _. rewrite (normalize_title_body x). cbn zeta.
  destruct (stripped_title_settled x) as [E | Hs]; cbn zeta in *.
  - by rewrite E.
  - rewrite decide_False by apply Hs.
    destruct (title_body_settled _ Hs) as [Hs' Hb].
    by rewrite normalize_title_settled.
Qed.

Lemma normalize_title_idempotent_witness :
  normalize_title "  talk:max_headroom " = "talk:Max headroom"
  /\ normalize_title (normalize_title "  talk:max_headroom ")
     = normalize_title "  talk:max_headroom ".
Proof.
  split; [by vm_compute |]. apply normalize_title_idempotent. by vm_compute.
Defined.
(** * File embeds, in general *)

(** ** The [upright] option *)
















(** ** The options of a file embed, as the specification words them *)

Lemma caption_is_no_link o : caption_token o = true -> is_link_opt o = false.
Proof.
  unfold caption_token, is_link_opt. cbv zeta. intros H.
  repeat (apply andb_prop in H as [H ?]).
  destruct (startswith (lower (strip o)) "link="); [done |].
  by rewrite andb_false_r.
Qed.

(** An option that is no candidate caption leaves the caption alone,
    marks at most its own index technical, and sets the link target if
    it is a [link=] option. *)
Lemma other_step idx o f f' :
  caption_token o = false -> file_opt_step idx o f = Some f' ->
  last_explicit_caption_idx f' = last_explicit_caption_idx f
  /\ (forall j, j ∈ technical_indices f' -> j = idx \/ j ∈ technical_indices f)
  /\ link_target f'
     = if is_link_opt o then Some (strip (drop 5 (strip o))) else link_target f.
Proof.
  unfold caption_token, is_link_opt, file_opt_step. cbv zeta.
  set (t := truthy (strip o)). set (a := startswith (lower (strip o)) "alt=").
  set (l := startswith (lower (strip o)) "link=").
  set (sz := re_match true size_re (strip o)).
  set (up := re_match true upright_re (strip o)).
  set (m1 := mem_str (lower (strip o)) alignment_tokens).
  set (m2 := mem_str (lower (strip o)) frame_tokens).
  set (m3 := mem_str (lower (strip o)) known_flags).
  set (lk := strip (drop 5 (strip o))). set (al := strip (drop 4 (strip o))).
  clearbody t a l sz up m1 m2 m3 lk al.
  assert (forall g : file_opts,
            last_explicit_caption_idx g = last_explicit_caption_idx f ->
            technical_indices g = technical_indices f ->
            forall x, link_target g = x ->
            last_explicit_caption_idx (mark_technical idx g) = last_explicit_caption_idx f
            /\ (forall j, j ∈ technical_indices (mark_technical idx g) ->
                   j = idx \/ j ∈ technical_indices f)
            /\ link_target (mark_technical idx g) = x) as Hmark.
  { intros g H1 H2 x H3. cbn [mark_technical last_explicit_caption_idx technical_indices
                               link_target]. rewrite H2. split; [done |].
    split; [set_solver | done]. }
  destruct t; cbn [negb andb]; [| intros _ [= <-]; by auto].
  destruct a; cbn [negb andb]; [intros _ [= <-]; by apply Hmark |].
  destruct l; cbn [negb andb]; [intros _ [= <-]; by apply Hmark |].
  destruct sz as [m |].
  { intros _ H.
    destruct (int_of_numeral (default "" (group 1 m))) as [w |].
    - destruct (group 2 m) as [g2 |].
      + destruct (int_of_numeral g2); injection H as <-; by apply Hmark.
      + destruct (three_quarters w); [| done]. injection H as <-. by apply Hmark.
    - injection H as <-. by apply Hmark. }
  destruct up as [um |].
  { intros _ H. destruct (explicit_size f) eqn:Ee.
    - injection H as <-. by apply Hmark.
    - destruct (upright_width _) as [w |]; [| done].
      cbn [mbind option_bind] in H.
      destruct (three_quarters w); [| done]. injection H as <-. by apply Hmark. }
  destruct m1; cbn [negb andb]; [intros _ [= <-]; by apply Hmark |].
  destruct m2; cbn [negb andb]; [intros _ [= <-]; by apply Hmark |].
  destruct m3; cbn [negb andb]; [intros _ [= <-]; by apply Hmark |].
  rewrite !bool_decide_eq_false_2 by (by intros [? ?]). done.
Qed.

Lemma filter_snoc {A} (p : A -> bool) (l : list A) (x : A) :
  List.filter p (l ++ [x]) = List.filter p l ++ (if p x then [x] else []).
Proof. rewrite List.filter_app. simpl. by destruct (p x). Qed.

Lemma given_link_snoc opts o :
  given_link (opts ++ [o])
  = if is_link_opt o then Some (strip (drop 5 (strip o))) else given_link opts.
Proof.
  unfold given_link. rewrite filter_snoc. destruct (is_link_opt o).
  - rewrite map_app. simpl. apply last_snoc.
  - by rewrite app_nil_r.
Qed.

Lemma options_read_init : options_read [] file_opts_init.
Proof. split; [done |]. split; [| done]. intros j Hj. set_solver. Qed.

Lemma options_read_step opts o f f' :
  options_read opts f -> file_opt_step (length opts) o f = Some f' ->
  options_read (opts ++ [o]) f'.
Proof.
  intros (Hl & Ht & Hc) Hs. destruct (caption_token o) eqn:Eo.
  - rewrite caption_step in Hs by done. injection Hs as <-.
    unfold options_read. cbn [set_caption link_target technical_indices
                               last_explicit_caption_idx].
    rewrite given_link_snoc, caption_is_no_link by done. split; [done |]. split.
    + intros j Hj. destruct (Ht j Hj) as (x & Hx & Hxc). exists x.
      split; [| done]. by apply lookup_app_l_Some.
    + exists o. split; [by apply list_lookup_middle |]. split; [done |].
      rewrite filter_snoc, Eo. apply last_snoc.
  - destruct (other_step _ _ _ _ Eo Hs) as (Hc' & Ht' & Hl').
    unfold options_read. rewrite Hc', Hl', given_link_snoc, filter_snoc, Eo, app_nil_r.
    split; [by destruct (is_link_opt o) |]. split.
    + intros j Hj. destruct (Ht' j Hj) as [-> | Hj'].
      * exists o. split; [by apply list_lookup_middle | done].
      * destruct (Ht j Hj') as (x & Hx & Hxc). exists x.
        split; [| done]. by apply lookup_app_l_Some.
    + destruct (last_explicit_caption_idx f) as [i |]; [| done].
      destruct Hc as (c & Hi & Hcc & Hlast). exists c.
      split; [by apply lookup_app_l_Some | done].
Qed.

Lemma options_read_loop opts : forall f,
  file_opts_loop 0 opts file_opts_init = Some f -> options_read opts f.
Proof.
  induction opts as [| o opts IH] using rev_ind; intros f.
  - intros [= <-]. apply options_read_init.
  - rewrite file_opts_loop_app.
    destruct (file_opts_loop 0 opts file_opts_init) as [f0 |]; [| done].
    cbn [mbind option_bind file_opts_loop Nat.add].
    destruct (file_opt_step (length opts) o f0) as [f1 |] eqn:E; [| done].
    cbn [mbind option_bind]. intros [= <-].
    apply (options_read_step opts o f0); [by apply IH | exact E].
Qed.

(** The caption [file_sub] derives is the last candidate caption. *)
Lemma caption_read opts f :
  options_read opts f ->
  match last_explicit_caption_idx f with
  | Some idx =>
      if bool_decide (idx ∈ technical_indices f) then "" else strip (nth idx opts "")
  | None => ""
  end = derived_caption opts.
Proof.
  intros (_ & Ht & Hc). unfold derived_caption.
  destruct (last_explicit_caption_idx f) as [i |].
  - destruct Hc as (c & Hi & Hcc & Hlast).
    rewrite bool_decide_eq_false_2.
    + rewrite nth_lookup, Hi. change (map strip) with (fmap (M := list) strip).
      by rewrite fmap_last, Hlast.
    + intros Hin. destruct (Ht i Hin) as (x & Hx & Hxc). congruence.
  - by rewrite Hc.
Qed.

Lemma split_char_go_nonempty sep s cur : split_char_go sep s cur <> [].
Proof.
  revert cur. induction s as [|d s IH]; intros cur; simpl; [done |].
  destruct (Ascii.eqb _ _); [done | apply IH].
Qed.

(** What [file_sub] returns once the options are read, in the words of
    the options. *)
Lemma file_render_cases self filename opts f :
  options_read opts f ->
  (youtube_case filename opts = true ->
     file_render self filename opts f
     = plain_youtube_link self (default "" (given_link opts)))
  /\ (youtube_case filename opts = false ->
      (forall l, file_render self filename opts f <> plain_youtube_link self l)
      /\ if String.eqb (mode self) "markdown"
         then is_md_image (derived_caption opts) (file_render self filename opts f)
         else is_figure filename (derived_caption opts)
                (file_render self filename opts f)).
Proof.
  intros Hr. pose proof (caption_read opts f Hr) as Hcap. destruct Hr as (Hl & _).
  unfold file_render, youtube_case, plain_youtube_link, is_markdown. cbv zeta.
  rewrite Hcap, Hl. clear Hcap Hl.
  set (link := default "" (given_link opts)). set (cap := derived_caption opts).
  set (cond := truthy link && _ && _ && _).
  set (url := "https://placehold.co/" +:+ _).
  set (alt := default filename (alt_text f)).
  set (cls := escape (join " " (classes f))).
  set (href := href_of_anchor _).
  clearbody cond url alt cls href link cap.
  split; [by intros -> |]. intros ->.
  destruct (String.eqb (mode self) "markdown").
  - split.
    + intros l. destruct (truthy link), (negb (is_http link)), (truthy cap);
        rewrite ?app_assoc_str, !app_cons_str; done.
    + exists (if truthy link then "[" else ""), url, alt,
        (if truthy link
         then "](" +:+ (if negb (is_http link) then replace_str ".html" ".md" href else link)
              +:+ ")"
         else "").
      split.
      * destruct (truthy link); [right | by left]. by eexists.
      * destruct (truthy link), (negb (is_http link)), (truthy cap);
          rewrite ?app_assoc_str, ?app_nil_r_str; reflexivity.
  - split.
    + intros l. destruct (truthy link), (negb (is_http link)), (truthy cap);
        rewrite ?app_assoc_str, !app_cons_str; done.
    + exists cls, (if truthy link
                   then "<a href='" +:+ escape (if negb (is_http link) then href else link)
                        +:+ "'>"
                   else ""), url, alt, (if truthy link then "</a>" else "").
      split.
      * destruct (truthy link); [right | by left]. by eexists.
      * unfold image_html.
        destruct (truthy link), (negb (is_http link)), (truthy cap);
          rewrite ?app_assoc_str, ?app_nil_r_str; reflexivity.
Qed.

Lemma derived_caption_snoc opts c :
  caption_token c = true -> derived_caption (opts ++ [c]) = strip c.
Proof.
  intros Hc. unfold derived_caption. rewrite filter_snoc, Hc, map_app. simpl.
  by rewrite last_snoc.
Qed.

Lemma captioned_is_no_youtube_case filename opts c :
  caption_token c = true -> youtube_case filename (opts ++ [c]) = false.
Proof.
  intros Hc. unfold youtube_case. cbv zeta.
  rewrite derived_caption_snoc, (caption_token_truthy c Hc) by done.
  apply andb_false_r.
Qed.

(** Only a size or an [upright] option can make the option loop raise. *)
Lemma file_opt_step_returns idx o f :
  re_match true size_re (strip o) = None ->
  re_match true upright_re (strip o) = None ->
  is_Some (file_opt_step idx o f).
Proof.
  intros H1 H2. unfold file_opt_step. cbv zeta. rewrite H1, H2.
  set (t := truthy (strip o)). set (a := startswith (lower (strip o)) "alt=").
  set (l := startswith (lower (strip o)) "link=").
  set (m1 := mem_str (lower (strip o)) alignment_tokens).
  set (m2 := mem_str (lower (strip o)) frame_tokens).
  set (m3 := mem_str (lower (strip o)) known_flags).
  clearbody t a l m1 m2 m3.
  destruct t, a, l, m1, m2, m3; by eexists.
Qed.

Lemma file_opts_loop_returns opts : forall idx f,
  Forall (fun o => re_match true size_re (strip o) = None
                   /\ re_match true upright_re (strip o) = None) opts ->
  is_Some (file_opts_loop idx opts f).
Proof.
  induction opts as [| o opts IH]; intros idx f H; [by eexists |].
  apply Forall_cons in H as [[H1 H2] H]. cbn [file_opts_loop].
  destruct (file_opt_step_returns idx o f H1 H2) as [f' ->].
  cbn [mbind option_bind]. by apply IH.
Qed.

(** C5, amended: the plain "YouTube" link replaces the figure exactly
    when the link target the options give is a YouTube URL, the file
    name contains "youtube" (in any case) and the options give no
    caption.  The embed of [Video.ogg] with the YouTube link and no
    caption is a figure with the image; the embed of [YouTube.ogg] with
    the same options is the plain link, in HTML and in Markdown.  For
    every embed [file_sub] renders: under the three conditions the
    result is the plain link to the given target; when one of them
    fails it is no such link but, in HTML, a figure with the placeholder
    image, the file name and the escaped caption, if any, and in
    Markdown an image with the caption, if any; and with a candidate
    caption appended to its options the embed is rendered with that
    caption, whatever the file name and the link.  [file_sub] renders
    every embed that has no size and no [upright] option. *)
Theorem youtube_link_needs_youtube_name (self : WikiConverter) (inside : string) :
  (inline html_converter "[[File:Video.ogg|thumb|link=https://youtu.be/xyz]]"
   = Some (figure_open "Video.ogg" +:+ "</figure>")
   /\ inline html_converter "[[File:YouTube.ogg|thumb|link=https://youtu.be/xyz]]"
      = Some "<a href='https://youtu.be/xyz'>YouTube</a>"
   /\ inline markdown_converter "[[File:YouTube.ogg|thumb|link=https://youtu.be/xyz]]"
      = Some "[YouTube](https://youtu.be/xyz)")
  /\ let parts := split_char "|" inside in
     let filename := str_or (drop 5 (hd "" parts)) "File" in
     let opts := tl parts in
     (Forall (fun o => re_match true size_re (strip o) = None
                       /\ re_match true upright_re (strip o) = None) opts ->
      is_Some (file_sub self inside))
     /\ (forall r, file_sub self inside = Some r ->
        (youtube_case filename opts = true ->
           r = plain_youtube_link self (default "" (given_link opts)))
        /\ (youtube_case filename opts = false ->
            (forall l, r <> plain_youtube_link self l)
            /\ if String.eqb (mode self) "markdown"
               then is_md_image (derived_caption opts) r
               else is_figure filename (derived_caption opts) r))
     /\ (forall c r, caption_token c = true -> mem_char "|" c = false ->
           file_sub self (inside +:+ String "|" c) = Some r ->
           truthy (strip c) = true
           /\ (forall l, r <> plain_youtube_link self l)
           /\ if String.eqb (mode self) "markdown"
              then is_md_image (strip c) r
              else is_figure filename (strip c) r).
Proof.
  split; [by vm_compute |]. cbv zeta.
  assert (forall ins r, file_sub self ins = Some r ->
            let parts := split_char "|" ins in
            let filename := str_or (drop 5 (hd "" parts)) "File" in
            let opts := tl parts in
            (youtube_case filename opts = true ->
               r = plain_youtube_link self (default "" (given_link opts)))
            /\ (youtube_case filename opts = false ->
                (forall l, r <> plain_youtube_link self l)
                /\ if String.eqb (mode self) "markdown"
                   then is_md_image (derived_caption opts) r
                   else is_figure filename (derived_caption opts) r)) as Hgen.
  { intros ins r. unfold file_sub. cbv zeta.
    destruct (file_opts_loop 0 _ file_opts_init) as [f |] eqn:E; [| done].
    intros [= <-]. apply file_render_cases. by apply options_read_loop. }
  split.
  { intros Hopts. unfold file_sub. cbv zeta.
    destruct (file_opts_loop_returns _ 0%nat file_opts_init Hopts) as [f ->].
    by eexists. }
  split; [apply Hgen |].
  intros c r Hc Hbar Hr. split; [by apply caption_token_truthy |].
  apply Hgen in Hr. cbv zeta in Hr. rewrite split_char_snoc in Hr by done.
  unfold split_char in *. pose proof (split_char_go_nonempty "|" inside "") as Hne.
  destruct (split_char_go "|" inside "") as [| p ps]; [done |].
  cbn [app hd tl] in *. destruct Hr as [_ Hr].
  rewrite derived_caption_snoc in Hr by done.
  apply Hr. by apply captioned_is_no_youtube_case.
Qed.

Lemma youtube_link_needs_youtube_name_witness :
  let inside := "File:YouTube.ogg|thumb|link=https://YouTu.be/xyz" in
  let c := " A <clip> " in
  file_sub html_converter inside = Some "<a href='https://YouTu.be/xyz'>YouTube</a>"
  /\ youtube_case "YouTube.ogg" ["thumb"; "link=https://YouTu.be/xyz"] = true
  /\ "<a href='https://YouTu.be/xyz'>YouTube</a>"
     = plain_youtube_link html_converter "https://YouTu.be/xyz"
  /\ caption_token c = true /\ mem_char "|" c = false
  /\ file_sub html_converter (inside +:+ String "|" c)
     = Some ("<figure class=" +:+ dq +:+ "file-ref mode-thumb" +:+ dq +:+ ">"
             +:+ "<a href='https://YouTu.be/xyz'>"
             +:+ image_html "https://placehold.co/600x400?text=YouTube.ogg" "YouTube.ogg"
             +:+ "</a><div class=" +:+ dq +:+ "file-name" +:+ dq +:+ ">YouTube.ogg</div>"
             +:+ "<figcaption>A &lt;clip&gt;</figcaption></figure>")
  /\ is_figure "YouTube.ogg" "A <clip>"
       ("<figure class=" +:+ dq +:+ "file-ref mode-thumb" +:+ dq +:+ ">"
        +:+ "<a href='https://YouTu.be/xyz'>"
        +:+ image_html "https://placehold.co/600x400?text=YouTube.ogg" "YouTube.ogg"
        +:+ "</a><div class=" +:+ dq +:+ "file-name" +:+ dq +:+ ">YouTube.ogg</div>"
        +:+ "<figcaption>A &lt;clip&gt;</figcaption></figure>").
Proof.
  intros inside c.
  assert (file_sub html_converter inside
          = Some "<a href='https://YouTu.be/xyz'>YouTube</a>") as H1 by (by vm_compute).
  assert (youtube_case "YouTube.ogg" ["thumb"; "link=https://YouTu.be/xyz"] = true)
    as H2 by (by vm_compute).
  assert (caption_token c = true) as H3 by (by vm_compute).
  assert (mem_char "|" c = false) as H4 by (by vm_compute).
  assert (file_sub html_converter (inside +:+ String "|" c)
          = Some ("<figure class=" +:+ dq +:+ "file-ref mode-thumb" +:+ dq +:+ ">"
             +:+ "<a href='https://YouTu.be/xyz'>"
             +:+ image_html "https://placehold.co/600x400?text=YouTube.ogg" "YouTube.ogg"
             +:+ "</a><div class=" +:+ dq +:+ "file-name" +:+ dq +:+ ">YouTube.ogg</div>"
             +:+ "<figcaption>A &lt;clip&gt;</figcaption></figure>")) as H5
    by (by vm_compute).
  split; [exact H1 |]. split; [exact H2 |].
  split; [exact (proj1 (proj1 (proj2 (proj2
                    (youtube_link_needs_youtube_name html_converter inside)))
                          _ H1) H2) |].
  split; [exact H3 |]. split; [exact H4 |]. split; [exact H5 |].
  exact (proj2 (proj2 (proj2 (proj2 (proj2
           (youtube_link_needs_youtube_name html_converter inside)))
                         c _ H3 H4 H5))).
Defined.
